(** * pub::Application — the per-application dispatch core of the publisher

    A shallow embedding of [src/projects/base/publisher/application.cpp] and
    of the thread-count accessor of [src/projects/config/items/cmaf_publisher.h].

    The member functions of [pub::Application] become computations in a small
    state-and-fault monad over a record [Application] that holds the member
    variables.  Every externally observable action (taking or releasing a
    mutex, signalling the queue event, a call into a subclass hook, a call on
    a [Stream] or [Session] object, spawning or joining the worker) is appended
    to a [trace], in program order, so that ordering properties can be stated.

    The lookup of a stream by name and the cached application type name,
    which work on members outside that record (the names of the stream
    objects, the publisher), are embedded on their own further down.

    Not modelled: the informational log lines ([logti], [logts]) together with
    the stop-watch that paces the queue statistics (real time). *)

From Stdlib Require Import ZArith List Lia Bool.
From stdpp Require Import base option list gmap strings sorting.
Import ListNotations.

Local Open Scope Z_scope.

(** ** Configuration: cfg::CmafPublisher *)

Module cfg.

(** The three [int] members with default member initialisers
    (cmaf_publisher.h, lines 55-58).  An [int] is carried as a [Z]; the
    accessor below performs no arithmetic on it, so no wrap-around arises. *)
Record CmafPublisher := mkCmafPublisher {
  _segment_count : Z;
  _segment_duration : Z;
  _thread_count : Z
}.

(** The object as default-constructed, before the parse list is applied. *)
Definition unconfigured : CmafPublisher :=
  {| _segment_count := 3; _segment_duration := 5; _thread_count := 4 |}.

(** [RegisterValue<Optional>("ThreadCount", &_thread_count)]: an optional
    element overwrites the member when present and leaves the default
    otherwise. *)
Definition with_thread_count (configured : option Z) (c : CmafPublisher)
  : CmafPublisher :=
  match configured with
  | Some n => {| _segment_count := _segment_count c;
                 _segment_duration := _segment_duration c;
                 _thread_count := n |}
  | None => c
  end.

(** [return _thread_count > 0 ? _thread_count : 1;] *)
Definition GetThreadCount (c : CmafPublisher) : Z :=
  if _thread_count c >? 0 then _thread_count c else 1.

End cfg.

(** ** Data carried through the application *)

(** The time base of a media track, a ratio. *)
Record TimeBase := mkTimeBase {
  GetNum : Z;
  GetDen : Z
}.

(** [info::Stream]: the descriptor of a stream; [GetId] is its [uint32_t]
    identifier, used only as a map key. *)
Record InfoStream := mkInfoStream {
  GetId : N;
  _tracks : gmap Z TimeBase
}.

(** [GetTrack(id)] is null for an unknown track; of a track only its time
    base is read. *)
Definition GetTrack (stream : InfoStream) (track_id : Z) : option TimeBase :=
  _tracks stream !! track_id.

(** [MediaPacket]: only what [Application] reads of it. *)
Record MediaPacket := mkMediaPacket {
  GetPts : Z;
  GetTrackId : Z
}.

(** The identity of a [pub::Stream] object held through [std::shared_ptr]:
    two handles are the same object exactly when they are equal. *)
Definition StreamRef := nat.

(** The identity of a [pub::Session] object. *)
Definition SessionRef := nat.

(** [ov::Data]: a byte buffer. *)
Definition Data := list Byte.byte.

(** [Application::VideoStreamData] and [Application::AudioStreamData]: a pair
    of shared pointers, either of which may be null. *)
Record StreamData := mkStreamData {
  _stream : option InfoStream;
  _media_packet : option MediaPacket
}.

Definition VideoStreamData := StreamData.
Definition AudioStreamData := StreamData.

(** [Application::IncomingPacket]. *)
Record IncomingPacket := mkIncomingPacket {
  _session_info : option SessionRef;
  _data : option Data
}.

(** ** The queue event *)

Module ov.

(** Modelled from the spec: the type of [_queue_event] is declared in a
    header that is not part of the sources.  The spec describes it as "a
    single cross-thread notification primitive that the dispatch loop blocks
    on and any producer signals after enqueueing", realised as "a
    counting/binary notification primitive"; both readings are kept, chosen
    by [kind]. *)
Inductive EventKind := Counting | Binary.

(** Modelled from the spec: the event object, not declared in the sources;
    [pending] is the number of signals not yet consumed by a wait. *)
Record Event := mkEvent {
  kind : EventKind;
  pending : nat
}.

(** Modelled from the spec: [Notify()], not defined in the sources.  A signal
    is remembered: a counting event adds one to the pending signals, a binary
    event just becomes set. *)
Definition Notify (e : Event) : Event :=
  {| kind := kind e;
     pending := match kind e with
                | Counting => S (pending e)
                | Binary => 1%nat
                end |}.

(** Modelled from the spec: [Wait()], not defined in the sources.  It
    returns at once, consuming a signal, when one is pending and blocks
    otherwise ([None]). *)
Definition Wait (e : Event) : option Event :=
  match pending e with
  | O => None
  | S n => Some {| kind := kind e;
                   pending := match kind e with
                              | Counting => n
                              | Binary => 0%nat
                              end |}
  end.

End ov.

(** ** The Application object *)

Inductive Mutex :=
| stream_map_mutex
| video_stream_queue_guard
| audio_stream_queue_guard
| incoming_packet_queue_guard.

Inductive Queue :=
| video_stream_queue
| audio_stream_queue
| incoming_packet_queue.

(** Where the worker thread stands in [WorkerThread]: about to test the loop
    condition, inside [_queue_event.Wait()], or returned from the function. *)
Inductive WorkerPc := LoopHead | InWait | Exited.

(** The value [pts * time_base * 1000] of the last-timestamp members.  The
    source evaluates the product in floating point; it is kept as the pair of
    its operands. *)
Record TimestampMs := mkTimestampMs {
  ts_pts : Z;
  ts_time_base : TimeBase
}.

(** The steps of a member function that other threads or other objects can
    observe, among them the writes to the shared containers. *)
Inductive Action :=
| Lock (m : Mutex)
| Unlock (m : Mutex)
| LockShared (m : Mutex)
| UnlockShared (m : Mutex)
| QueueNotify
| QueueWait
| ThreadSpawn
| ThreadExit
| ThreadJoin
| HookCreateStream (info : InfoStream) (worker_count : Z)
| HookDeleteStream (info : InfoStream)
| MapAssign (id : N) (stream : StreamRef)
| MapErase (id : N)
| StreamStop (stream : StreamRef)
| StreamSendVideoFrame (stream : StreamRef) (media_packet : MediaPacket)
| StreamSendAudioFrame (stream : StreamRef) (media_packet : MediaPacket)
| SessionOnPacketReceived (session : SessionRef) (data : option Data)
| QueuePush (q : Queue)
| QueuePop (q : Queue)
| LogError.

(** The member variables.  [_worker_thread] is [Some pc] while the
    [std::thread] object is joinable and [None] otherwise; [_streams] is the
    [std::map] from stream id to stream; a [std::queue] is a list with its
    front at the head.  [_app_config] is what [GetConfig()] returns;
    [GetThreadCount] on it is the accessor of cmaf_publisher.h, the only
    definition of that accessor in the sources. *)
Record Application := mkApplication {
  _stop_thread_flag : bool;
  _worker_thread : option WorkerPc;
  _streams : gmap N StreamRef;
  _video_stream_queue : list VideoStreamData;
  _audio_stream_queue : list AudioStreamData;
  _incoming_packet_queue : list IncomingPacket;
  _queue_event : ov.Event;
  _last_video_ts_ms : option TimestampMs;
  _last_audio_ts_ms : option TimestampMs;
  _app_config : cfg.CmafPublisher;
  trace : list Action
}.

(** The constructor: [_stop_thread_flag = false], everything else empty. *)
Definition Application_new (k : ov.EventKind) (config : cfg.CmafPublisher)
  : Application :=
  {| _stop_thread_flag := false;
     _worker_thread := None;
     _streams := ∅;
     _video_stream_queue := [];
     _audio_stream_queue := [];
     _incoming_packet_queue := [];
     _queue_event := ov.mkEvent k 0;
     _last_video_ts_ms := None;
     _last_audio_ts_ms := None;
     _app_config := config;
     trace := [] |}.

Definition set_stop_thread_flag (b : bool) (a : Application) : Application :=
  mkApplication b (_worker_thread a) (_streams a) (_video_stream_queue a)
    (_audio_stream_queue a) (_incoming_packet_queue a) (_queue_event a)
    (_last_video_ts_ms a) (_last_audio_ts_ms a) (_app_config a) (trace a).

Definition set_worker_thread (w : option WorkerPc) (a : Application)
  : Application :=
  mkApplication (_stop_thread_flag a) w (_streams a) (_video_stream_queue a)
    (_audio_stream_queue a) (_incoming_packet_queue a) (_queue_event a)
    (_last_video_ts_ms a) (_last_audio_ts_ms a) (_app_config a) (trace a).

Definition set_streams (m : gmap N StreamRef) (a : Application) : Application :=
  mkApplication (_stop_thread_flag a) (_worker_thread a) m
    (_video_stream_queue a) (_audio_stream_queue a) (_incoming_packet_queue a)
    (_queue_event a) (_last_video_ts_ms a) (_last_audio_ts_ms a)
    (_app_config a) (trace a).

Definition set_video_stream_queue (q : list VideoStreamData) (a : Application)
  : Application :=
  mkApplication (_stop_thread_flag a) (_worker_thread a) (_streams a) q
    (_audio_stream_queue a) (_incoming_packet_queue a) (_queue_event a)
    (_last_video_ts_ms a) (_last_audio_ts_ms a) (_app_config a) (trace a).

Definition set_audio_stream_queue (q : list AudioStreamData) (a : Application)
  : Application :=
  mkApplication (_stop_thread_flag a) (_worker_thread a) (_streams a)
    (_video_stream_queue a) q (_incoming_packet_queue a) (_queue_event a)
    (_last_video_ts_ms a) (_last_audio_ts_ms a) (_app_config a) (trace a).

Definition set_incoming_packet_queue (q : list IncomingPacket) (a : Application)
  : Application :=
  mkApplication (_stop_thread_flag a) (_worker_thread a) (_streams a)
    (_video_stream_queue a) (_audio_stream_queue a) q (_queue_event a)
    (_last_video_ts_ms a) (_last_audio_ts_ms a) (_app_config a) (trace a).

Definition set_queue_event (e : ov.Event) (a : Application) : Application :=
  mkApplication (_stop_thread_flag a) (_worker_thread a) (_streams a)
    (_video_stream_queue a) (_audio_stream_queue a) (_incoming_packet_queue a)
    e (_last_video_ts_ms a) (_last_audio_ts_ms a) (_app_config a) (trace a).

Definition set_last_video_ts_ms (t : option TimestampMs) (a : Application)
  : Application :=
  mkApplication (_stop_thread_flag a) (_worker_thread a) (_streams a)
    (_video_stream_queue a) (_audio_stream_queue a) (_incoming_packet_queue a)
    (_queue_event a) t (_last_audio_ts_ms a) (_app_config a) (trace a).

Definition set_last_audio_ts_ms (t : option TimestampMs) (a : Application)
  : Application :=
  mkApplication (_stop_thread_flag a) (_worker_thread a) (_streams a)
    (_video_stream_queue a) (_audio_stream_queue a) (_incoming_packet_queue a)
    (_queue_event a) (_last_video_ts_ms a) t (_app_config a) (trace a).

Definition set_trace (t : list Action) (a : Application) : Application :=
  mkApplication (_stop_thread_flag a) (_worker_thread a) (_streams a)
    (_video_stream_queue a) (_audio_stream_queue a) (_incoming_packet_queue a)
    (_queue_event a) (_last_video_ts_ms a) (_last_audio_ts_ms a)
    (_app_config a) t.

(** ** The monad of member functions

    A member function either returns a value and leaves a new object state,
    or the process stops in it: on a null dereference, on [std::terminate],
    or because the call can never return. *)

Inductive Fault := NullDereference | Terminate | NeverReturns.

Inductive Outcome (A : Type) :=
| Ok (a : A) (s : Application)
| Abort (f : Fault) (s : Application).

Arguments Ok {A} a s.
Arguments Abort {A} f s.

Definition M (A : Type) : Type := Application -> Outcome A.

#[global] Instance M_ret : MRet M := fun A a s => Ok a s.

#[global] Instance M_bind : MBind M := fun A B f c s =>
  match c s with
  | Ok a s' => f a s'
  | Abort e s' => Abort e s'
  end.

Definition gets {A} (f : Application -> A) : M A := fun s => Ok (f s) s.
Definition modify (f : Application -> Application) : M unit :=
  fun s => Ok tt (f s).
Definition abort {A} (e : Fault) : M A := fun s => Abort e s.
Definition act (e : Action) : M unit :=
  modify (fun s => set_trace (trace s ++ [e]) s).

(** The value a call returned, when it returned, and the state it left
    behind, whether it returned or not. *)
Definition returned {A} (o : Outcome A) : option A :=
  match o with Ok a _ => Some a | Abort _ _ => None end.

Definition state_of {A} (o : Outcome A) : Application :=
  match o with Ok _ s => s | Abort _ s => s end.

(** [std::thread::joinable()] *)
Definition joinable (t : option WorkerPc) : bool :=
  match t with Some _ => true | None => false end.

(** ** The hooks of the concrete publisher

    [CreateStream] and [DeleteStream] are pure virtual in [pub::Application].
    A hook may read the application it belongs to; it is taken not to call
    back into the functions below that change the stream map or the queues. *)
Class Subclass := {
  CreateStream : Application -> InfoStream -> Z -> option StreamRef;
  DeleteStream : Application -> InfoStream -> bool
}.

(** ** Member functions *)

Section Members.

Context {subclass : Subclass}.

Definition lock (m : Mutex) : M unit := act (Lock m).
Definition unlock (m : Mutex) : M unit := act (Unlock m).

(** [_queue_event.Notify()] *)
Definition queue_event_Notify : M unit :=
  modify (fun s => set_queue_event (ov.Notify (_queue_event s)) s);;
  act QueueNotify.

(** [_streams[id] = stream]: inserts, or overwrites the mapped value. *)
Definition streams_assign (id : N) (stream : StreamRef) : M unit :=
  modify (fun s => set_streams (<[id := stream]> (_streams s)) s);;
  act (MapAssign id stream).

(** [_streams.erase(id)] *)
Definition streams_erase (id : N) : M unit :=
  modify (fun s => set_streams (delete id (_streams s)) s);;
  act (MapErase id).

(** A call of a hook: the hook sees the application as it is when the
    call is made. *)
Definition call_CreateStream (info : InfoStream) (worker_count : Z)
  : M (option StreamRef) :=
  stream ← gets (fun s => CreateStream s info worker_count);
  act (HookCreateStream info worker_count);;
  mret stream.

Definition call_DeleteStream (info : InfoStream) : M bool :=
  deleted ← gets (fun s => DeleteStream s info);
  act (HookDeleteStream info);;
  mret deleted.

(** *** Lookup (lines 161-171) *)

Definition GetStream (stream_id : N) : M (option StreamRef) :=
  act (LockShared stream_map_mutex);;
  it ← gets (fun s => _streams s !! stream_id);
  act (UnlockShared stream_map_mutex);;
  mret it.

(** *** Taking one item off a queue (lines 188-229) *)

Definition PopVideoStreamData : M (option VideoStreamData) :=
  lock video_stream_queue_guard;;
  q ← gets _video_stream_queue;
  match q with
  | [] => unlock video_stream_queue_guard;; mret None
  | data :: rest =>
      modify (set_video_stream_queue rest);;
      act (QueuePop video_stream_queue);;
      unlock video_stream_queue_guard;;
      mret (Some data)
  end.

Definition PopAudioStreamData : M (option AudioStreamData) :=
  lock audio_stream_queue_guard;;
  q ← gets _audio_stream_queue;
  match q with
  | [] => unlock audio_stream_queue_guard;; mret None
  | data :: rest =>
      modify (set_audio_stream_queue rest);;
      act (QueuePop audio_stream_queue);;
      unlock audio_stream_queue_guard;;
      mret (Some data)
  end.

Definition PopIncomingPacket : M (option IncomingPacket) :=
  lock incoming_packet_queue_guard;;
  q ← gets _incoming_packet_queue;
  match q with
  | [] => unlock incoming_packet_queue_guard;; mret None
  | packet :: rest =>
      modify (set_incoming_packet_queue rest);;
      act (QueuePop incoming_packet_queue);;
      unlock incoming_packet_queue_guard;;
      mret (Some packet)
  end.

(** *** Routing (lines 284-316) *)

Definition SendVideoFrame (stream_info : InfoStream)
    (media_packet : MediaPacket) : M unit :=
  stream ← GetStream (GetId stream_info);
  match stream with
  | None => mret tt
  | Some stream => act (StreamSendVideoFrame stream media_packet)
  end.

Definition SendAudioFrame (stream_info : InfoStream)
    (media_packet : MediaPacket) : M unit :=
  stream ← GetStream (GetId stream_info);
  match stream with
  | None => mret tt
  | Some stream => act (StreamSendAudioFrame stream media_packet)
  end.

(** The session pointer is used without a test. *)
Definition OnPacketReceived (session_info : option SessionRef)
    (data : option Data) : M unit :=
  match session_info with
  | None => abort NullDereference
  | Some session => act (SessionOnPacketReceived session data)
  end.

(** *** The worker (lines 241-282) *)

(** Lines 260-265: the video part of one pass. *)
Definition WorkerThread_video : M unit :=
  video_data ← PopVideoStreamData;
  match video_data with
  | Some {| _stream := Some stream; _media_packet := Some media_packet |} =>
      SendVideoFrame stream media_packet
  | _ => mret tt
  end.

(** Lines 268-273: the audio part. *)
Definition WorkerThread_audio : M unit :=
  audio_data ← PopAudioStreamData;
  match audio_data with
  | Some {| _stream := Some stream; _media_packet := Some media_packet |} =>
      SendAudioFrame stream media_packet
  | _ => mret tt
  end.

(** Lines 276-280: the packet part. *)
Definition WorkerThread_packet : M unit :=
  packet ← PopIncomingPacket;
  match packet with
  | Some packet => OnPacketReceived (_session_info packet) (_data packet)
  | None => mret tt
  end.

(** What follows [_queue_event.Wait()] in the loop body. *)
Definition WorkerThread_drain : M unit :=
  WorkerThread_video;;
  WorkerThread_audio;;
  WorkerThread_packet.

(** One move of the worker thread.  At the loop head it tests
    [!_stop_thread_flag] and either leaves the function or enters
    [Wait()]; in [Wait()] it stays put while no signal is pending ([None])
    and otherwise consumes one, runs the rest of the body and is back at the
    loop head. *)
Definition WorkerThread_step (s : Application) : option (Outcome unit) :=
  match _worker_thread s with
  | Some LoopHead =>
      if _stop_thread_flag s
      then Some ((modify (set_worker_thread (Some Exited));;
                  act ThreadExit) s)
      else Some (modify (set_worker_thread (Some InWait)) s)
  | Some InWait =>
      match ov.Wait (_queue_event s) with
      | None => None
      | Some e =>
          Some ((modify (set_queue_event e);;
                 act QueueWait;;
                 WorkerThread_drain;;
                 modify (set_worker_thread (Some LoopHead))) s)
      end
  | Some Exited | None => None
  end.

(** The worker left to run on its own for at most [fuel] moves; the result
    tells whether it has returned from [WorkerThread]. *)
Fixpoint WorkerThread_run (fuel : nat) (s : Application) : Outcome bool :=
  match _worker_thread s with
  | Some Exited => Ok true s
  | _ =>
      match fuel with
      | O => Ok false s
      | S fuel' =>
          match WorkerThread_step s with
          | None => Ok false s
          | Some (Ok _ s') => WorkerThread_run fuel' s'
          | Some (Abort e s') => Abort e s'
          end
      end
  end.

(** [_worker_thread.join()]: returns once the worker has left
    [WorkerThread], after which the thread object is no longer joinable.
    While the caller is blocked here only the worker moves.  Two moves are
    all a worker needs once the stop flag is set and a signal is pending
    (see [WorkerThread_run_more_fuel]); a worker that has not left by then
    is blocked for good, and so is the caller. *)
Definition join_fuel : nat := 2.

Definition worker_thread_join : M unit :=
  exited ← WorkerThread_run join_fuel;
  if exited : bool
  then modify (set_worker_thread None);; act ThreadJoin
  else abort NeverReturns.

(** *** Lifecycle (lines 35-63) *)

(** [_worker_thread = std::thread(...)]: the new thread is started by the
    constructor of the temporary; move-assigning it to a thread object that
    is still joinable calls [std::terminate]. *)
Definition Start : M bool :=
  modify (set_stop_thread_flag false);;
  act ThreadSpawn;;
  previous ← gets _worker_thread;
  match previous with
  | Some _ => abort Terminate
  | None => modify (set_worker_thread (Some LoopHead));; mret true
  end.

Definition Stop : M bool :=
  stopped ← gets _stop_thread_flag;
  if stopped : bool then mret true
  else
    modify (set_stop_thread_flag true);;
    queue_event_Notify;;
    is_joinable ← gets (fun s => joinable (_worker_thread s));
    (if is_joinable : bool then worker_thread_join else mret tt);;
    mret true.

(** *** Stream creation and deletion (lines 67-111)

    The descriptor is passed as a non-null pointer: both functions
    dereference it unconditionally. *)

Definition OnCreateStream (info : InfoStream) : M bool :=
  worker_count ← gets (fun s => cfg.GetThreadCount (_app_config s));
  stream ← call_CreateStream info worker_count;
  match stream with
  | None => mret false
  | Some stream =>
      lock stream_map_mutex;;
      streams_assign (GetId info) stream;;
      unlock stream_map_mutex;;
      mret true
  end.

Definition OnDeleteStream (info : InfoStream) : M bool :=
  lock stream_map_mutex;;
  stream_it ← gets (fun s => _streams s !! GetId info);
  match stream_it with
  | None =>
      act LogError;;
      unlock stream_map_mutex;;
      mret false
  | Some stream =>
      unlock stream_map_mutex;;
      deleted ← call_DeleteStream info;
      if negb deleted then mret false
      else
        lock stream_map_mutex;;
        streams_erase (GetId info);;
        act (StreamStop stream);;
        unlock stream_map_mutex;;
        mret true
  end.

(** The application as the deletion hook finds it when the stream is
    registered: the map mutex has been taken and released again, nothing
    else has changed. *)
Definition before_DeleteStream (s : Application) : Application :=
  set_trace (trace s ++ [Lock stream_map_mutex; Unlock stream_map_mutex]) s.

(** *** Producers (lines 113-159) *)

(** [media_packet->GetPts() *
     stream->GetTrack(media_packet->GetTrackId())->GetTimeBase().GetExpr()
     * 1000]: three pointers are dereferenced without a test. *)
Definition timestamp_ms (stream : option InfoStream)
    (media_packet : option MediaPacket) : M TimestampMs :=
  match media_packet, stream with
  | Some media_packet, Some stream =>
      match GetTrack stream (GetTrackId media_packet) with
      | Some time_base => mret (mkTimestampMs (GetPts media_packet) time_base)
      | None => abort NullDereference
      end
  | _, _ => abort NullDereference
  end.

Definition OnSendVideoFrame (stream : option InfoStream)
    (media_packet : option MediaPacket) : M bool :=
  let data := mkStreamData stream media_packet in
  lock video_stream_queue_guard;;
  modify (fun s =>
    set_video_stream_queue (_video_stream_queue s ++ [data]) s);;
  act (QueuePush video_stream_queue);;
  ts ← timestamp_ms stream media_packet;
  modify (set_last_video_ts_ms (Some ts));;
  unlock video_stream_queue_guard;;
  queue_event_Notify;;
  mret true.

Definition OnSendAudioFrame (stream : option InfoStream)
    (media_packet : option MediaPacket) : M bool :=
  let data := mkStreamData stream media_packet in
  lock audio_stream_queue_guard;;
  modify (fun s =>
    set_audio_stream_queue (_audio_stream_queue s ++ [data]) s);;
  act (QueuePush audio_stream_queue);;
  ts ← timestamp_ms stream media_packet;
  modify (set_last_audio_ts_ms (Some ts));;
  unlock audio_stream_queue_guard;;
  queue_event_Notify;;
  mret true.

Definition PushIncomingPacket (session_info : option SessionRef)
    (data : option Data) : M bool :=
  let packet := mkIncomingPacket session_info data in
  lock incoming_packet_queue_guard;;
  modify (fun s =>
    set_incoming_packet_queue (_incoming_packet_queue s ++ [packet]) s);;
  act (QueuePush incoming_packet_queue);;
  unlock incoming_packet_queue_guard;;
  queue_event_Notify;;
  mret true.

End Members.

(** ** The application among its callers

    The calls of the public interface and the moves of the worker thread, one
    after the other in some order.  A call runs to its end before the next
    thing happens, except that a [Stop()] blocked in [join()] lets the worker
    run. *)

Inductive Call :=
| call_Start
| call_Stop
| call_OnCreateStream (info : InfoStream)
| call_OnDeleteStream (info : InfoStream)
| call_OnSendVideoFrame (stream : option InfoStream)
    (media_packet : option MediaPacket)
| call_OnSendAudioFrame (stream : option InfoStream)
    (media_packet : option MediaPacket)
| call_PushIncomingPacket (session_info : option SessionRef)
    (data : option Data)
| worker_moves.

(** The state a call leaves, when it returns. *)
Definition completed {A} (o : Outcome A) : option Application :=
  match o with
  | Ok _ s => Some s
  | Abort _ _ => None
  end.

Section Callers.

Context {subclass : Subclass}.

Definition run_call (c : Call) (s : Application) : option Application :=
  match c with
  | call_Start => completed (Start s)
  | call_Stop => completed (Stop s)
  | call_OnCreateStream info => completed (OnCreateStream info s)
  | call_OnDeleteStream info => completed (OnDeleteStream info s)
  | call_OnSendVideoFrame stream media_packet =>
      completed (OnSendVideoFrame stream media_packet s)
  | call_OnSendAudioFrame stream media_packet =>
      completed (OnSendAudioFrame stream media_packet s)
  | call_PushIncomingPacket session_info data =>
      completed (PushIncomingPacket session_info data s)
  | worker_moves =>
      match WorkerThread_step s with
      | Some o => completed o
      | None => None
      end
  end.

Fixpoint run_calls (cs : list Call) (s : Application) : option Application :=
  match cs with
  | [] => Some s
  | c :: cs' =>
      match run_call c s with
      | Some s' => run_calls cs' s'
      | None => None
      end
  end.

(** The states a freshly constructed application can be brought to. *)
Definition reachable (k : ov.EventKind) (config : cfg.CmafPublisher)
    (s : Application) : Prop :=
  exists cs, run_calls cs (Application_new k config) = Some s.

End Callers.

(** The number of items waiting in the three queues. *)
Definition queued (s : Application) : nat :=
  (length (_video_stream_queue s) + length (_audio_stream_queue s)
   + length (_incoming_packet_queue s))%nat.

(** The worker sleeps: it is inside [Wait()] and cannot move. *)
Definition worker_blocked (s : Application) : Prop :=
  _worker_thread s = Some InWait /\ WorkerThread_step s = None.

(** The packet at the front of the packet queue, if any, names a session. *)
Definition front_packet_has_session (s : Application) : bool :=
  match _incoming_packet_queue s with
  | packet :: _ =>
      match _session_info packet with Some _ => true | None => false end
  | [] => true
  end.

(** The three queues after one pass of the loop body. *)
Definition after_drain (s : Application) : Application :=
  set_incoming_packet_queue (tail (_incoming_packet_queue s))
    (set_audio_stream_queue (tail (_audio_stream_queue s))
       (set_video_stream_queue (tail (_video_stream_queue s)) s)).

(** The event is of kind [k] and, when it counts, has at least as many
    signals pending as there are items queued. *)
Definition signals_cover_queue (k : ov.EventKind) (s : Application) : Prop :=
  ov.kind (_queue_event s) = k /\
  (k = ov.Counting -> (queued s <= ov.pending (_queue_event s))%nat).

Definition is_ThreadSpawn (a : Action) : bool :=
  match a with ThreadSpawn => true | _ => false end.

(** The number of worker execution contexts started so far. *)
Definition spawned (s : Application) : nat :=
  length (List.filter is_ThreadSpawn (trace s)).

(** ** The destructor (lines 15-18) *)

(** [~Application() { Stop(); }] *)
Definition Application_destroy : M unit :=
  Stop;; mret tt.

(** ** Lookup by name (lines 173-186)

    [GetStream(ov::String stream_name)] walks [_streams] from its first
    element and returns the first stream whose name is the given one.  A
    [std::map] is walked in increasing key order.  The name is read off the
    stream object; [GetName] gives the name of each object. *)

Section ByName.

Context (GetName : StreamRef -> string).

(** The order of the map's keys, on its elements. *)
Definition key_le (x y : N * StreamRef) : Prop := (x.1 <= y.1)%N.

#[global] Instance key_le_dec (x y : N * StreamRef) : Decision (key_le x y) :=
  decide (x.1 <= y.1)%N.

(** The elements of the map in the order [for (auto const &x : _streams)]
    visits them. *)
Definition streams_in_order (m : gmap N StreamRef) : list (N * StreamRef) :=
  merge_sort key_le (map_to_list m).

(** The loop: return at the first element whose stream has the name. *)
Fixpoint first_named (stream_name : string) (l : list (N * StreamRef))
  : option StreamRef :=
  match l with
  | [] => None
  | x :: rest =>
      let stream := x.2 in
      if String.eqb (GetName stream) stream_name
      then Some stream
      else first_named stream_name rest
  end.

Definition GetStream_by_name (stream_name : string) : M (option StreamRef) :=
  act (LockShared stream_map_mutex);;
  found ← gets (fun s =>
             first_named stream_name (streams_in_order (_streams s)));
  act (UnlockShared stream_map_mutex);;
  mret found.

End ByName.

(** ** The application type name (lines 20-33) *)

Module type_name.

(** The two members [GetApplicationTypeName] works on: the publisher, of
    which only [GetPublisherName()] is read and which may be null, and the
    cached name, empty until first computed. *)
Record Members := mkMembers {
  _publisher : option string;
  _app_type_name : string
}.

(** [_app_type_name.Format("%s %s", name, "Application")] *)
Definition Format (publisher_name : string) : string :=
  publisher_name +:+ " " +:+ "Application".

(** Returns the string handed back and the members as the call leaves
    them. *)
Definition GetApplicationTypeName (a : Members) : string * Members :=
  match _publisher a with
  | None => (EmptyString, a)
  | Some publisher_name =>
      let a' := if String.eqb (_app_type_name a) EmptyString
                then mkMembers (_publisher a) (Format publisher_name)
                else a in
      (_app_type_name a', a')
  end.

End type_name.

(** ** Reading the trace *)

(** The frames handed to streams' video ingest, oldest first. *)
Definition sent_video (t : list Action) : list (StreamRef * MediaPacket) :=
  omap (fun a => match a with
                 | StreamSendVideoFrame stream media_packet =>
                     Some (stream, media_packet)
                 | _ => None
                 end) t.

(** The same for audio. *)
Definition sent_audio (t : list Action) : list (StreamRef * MediaPacket) :=
  omap (fun a => match a with
                 | StreamSendAudioFrame stream media_packet =>
                     Some (stream, media_packet)
                 | _ => None
                 end) t.

(** The packets handed to sessions, oldest first. *)
Definition received (t : list Action) : list (SessionRef * option Data) :=
  omap (fun a => match a with
                 | SessionOnPacketReceived session data => Some (session, data)
                 | _ => None
                 end) t.

(** The streams whose [Stop()] has been called, oldest first. *)
Definition stopped (t : list Action) : list StreamRef :=
  omap (fun a => match a with
                 | StreamStop stream => Some stream
                 | _ => None
                 end) t.

Definition Queue_eqb (p q : Queue) : bool :=
  match p, q with
  | video_stream_queue, video_stream_queue
  | audio_stream_queue, audio_stream_queue
  | incoming_packet_queue, incoming_packet_queue => true
  | _, _ => false
  end.

(** How often an item has been pushed on, and popped off, queue [q]. *)
Definition pushes (q : Queue) (t : list Action) : nat :=
  length (List.filter (fun a => match a with
                                | QueuePush p => Queue_eqb p q
                                | _ => false
                                end) t).

Definition pops (q : Queue) (t : list Action) : nat :=
  length (List.filter (fun a => match a with
                                | QueuePop p => Queue_eqb p q
                                | _ => false
                                end) t).

(** The number of items waiting in queue [q]. *)
Definition queue_length (q : Queue) (s : Application) : nat :=
  match q with
  | video_stream_queue => length (_video_stream_queue s)
  | audio_stream_queue => length (_audio_stream_queue s)
  | incoming_packet_queue => length (_incoming_packet_queue s)
  end.

(** Where the loop body sends a frame item under registry [m]: nowhere when
    one of its pointers is null or the id is not registered. *)
Definition route (m : gmap N StreamRef) (data : StreamData)
  : option (StreamRef * MediaPacket) :=
  match _stream data, _media_packet data with
  | Some info, Some media_packet =>
      match m !! GetId info with
      | Some stream => Some (stream, media_packet)
      | None => None
      end
  | _, _ => None
  end.

(** Where the loop body sends a packet item: to its session, with its data;
    nowhere when the session pointer is null. *)
Definition delivery (packet : IncomingPacket)
  : option (SessionRef * option Data) :=
  match _session_info packet with
  | Some session => Some (session, _data packet)
  | None => None
  end.

(** From [s] to [s'] the trace has grown by moves of the worker alone: no
    push, no [Stop()] of a stream, and one pop for every item that has left a
    queue. *)
Definition worker_only (s s' : Application) : Prop :=
  exists w,
    trace s' = trace s ++ w /\
    stopped w = [] /\
    forall q, pushes q w = 0%nat /\
              queue_length q s = (pops q w + queue_length q s')%nat.

(** The streams whose [Stop()] a call issues from state [s]: the stream
    registered under the id, when the call is a deletion that the hook
    agrees to; none otherwise. *)
Definition stops_of {subclass : Subclass} (c : Call) (s : Application)
  : list StreamRef :=
  match c with
  | call_OnDeleteStream info =>
      match _streams s !! GetId info with
      | Some stream =>
          if DeleteStream (before_DeleteStream s) info then [stream] else []
      | None => []
      end
  | _ => []
  end.

(** The actions of the video or audio part of the loop body, given the
    queue's lock [g], the queue [q], the stream call [send], the registry
    and the items queued: the lock around the pop, and for a popped item
    with both pointers set the shared lock around the lookup and the call on
    the stream found. *)
Definition frame_part_actions (g : Mutex) (q : Queue)
    (send : StreamRef -> MediaPacket -> Action)
    (m : gmap N StreamRef) (items : list StreamData) : list Action :=
  match items with
  | [] => [Lock g; Unlock g]
  | data :: _ =>
      [Lock g; QueuePop q; Unlock g]
        ++ match _stream data, _media_packet data with
           | Some info, Some media_packet =>
               [LockShared stream_map_mutex; UnlockShared stream_map_mutex]
                 ++ match m !! GetId info with
                    | Some stream => [send stream media_packet]
                    | None => []
                    end
           | _, _ => []
           end
  end.

(** The actions of the packet part, up to the call on the session. *)
Definition packet_part_actions (items : list IncomingPacket) : list Action :=
  match items with
  | [] => [Lock incoming_packet_queue_guard;
           Unlock incoming_packet_queue_guard]
  | packet :: _ =>
      [Lock incoming_packet_queue_guard; QueuePop incoming_packet_queue;
       Unlock incoming_packet_queue_guard]
        ++ match _session_info packet with
           | Some session => [SessionOnPacketReceived session (_data packet)]
           | None => []
           end
  end.

(** The actions of the whole body after [Wait()]. *)
Definition pass_actions (s : Application) : list Action :=
  frame_part_actions video_stream_queue_guard video_stream_queue
    StreamSendVideoFrame (_streams s) (_video_stream_queue s)
  ++ frame_part_actions audio_stream_queue_guard audio_stream_queue
       StreamSendAudioFrame (_streams s) (_audio_stream_queue s)
  ++ packet_part_actions (_incoming_packet_queue s).

(** ** The threads, statement by statement

    Among its callers the application was taken one call, and one pass of
    the worker, at a time.  The threads of the program interleave more
    finely: a producer that has released its queue's lock has not yet called
    [Notify()], and the worker may stand between two parts of its pass when
    a producer pushes or when [Stop()] sets the flag.  Here every thread
    moves by one statement, a region under a lock counting as one. *)

(** Where the worker stands in [WorkerThread]: at the loop condition
    (line 246), in [_queue_event.Wait()] (line 257), before the video part
    (line 260), before the audio part (line 268), before the packet part
    (line 276), or returned from the function. *)
Inductive WorkerPoint :=
| AtLoopHead
| AtWait
| AtVideo
| AtAudio
| AtPacket
| AtReturn.

(** What a producer hands over: the arguments of [OnSendVideoFrame], of
    [OnSendAudioFrame] or of [PushIncomingPacket]. *)
Inductive Submission :=
| video_frame (stream : option InfoStream) (media_packet : option MediaPacket)
| audio_frame (stream : option InfoStream) (media_packet : option MediaPacket)
| incoming_packet (session_info : option SessionRef) (data : option Data).

(** A producer up to and including [lock.unlock()] (lines 116-124, 133-142
    and 150-155): everything but the [Notify()] and the [return true]. *)
Definition enqueue (x : Submission) : M unit :=
  match x with
  | video_frame stream media_packet =>
      let data := mkStreamData stream media_packet in
      lock video_stream_queue_guard;;
      modify (fun s =>
        set_video_stream_queue (_video_stream_queue s ++ [data]) s);;
      act (QueuePush video_stream_queue);;
      ts ← timestamp_ms stream media_packet;
      modify (set_last_video_ts_ms (Some ts));;
      unlock video_stream_queue_guard
  | audio_frame stream media_packet =>
      let data := mkStreamData stream media_packet in
      lock audio_stream_queue_guard;;
      modify (fun s =>
        set_audio_stream_queue (_audio_stream_queue s ++ [data]) s);;
      act (QueuePush audio_stream_queue);;
      ts ← timestamp_ms stream media_packet;
      modify (set_last_audio_ts_ms (Some ts));;
      unlock audio_stream_queue_guard
  | incoming_packet session_info data =>
      let packet := mkIncomingPacket session_info data in
      lock incoming_packet_queue_guard;;
      modify (fun s =>
        set_incoming_packet_queue (_incoming_packet_queue s ++ [packet]) s);;
      act (QueuePush incoming_packet_queue);;
      unlock incoming_packet_queue_guard
  end.

(** The producer's whole call, as the callers' view has it. *)
Definition submit (x : Submission) : M bool :=
  match x with
  | video_frame stream media_packet => OnSendVideoFrame stream media_packet
  | audio_frame stream media_packet => OnSendAudioFrame stream media_packet
  | incoming_packet session_info data => PushIncomingPacket session_info data
  end.

(** The next statement of the worker standing at [p]: its outcome and where
    the worker stands afterwards; [None] when the worker cannot move, asleep
    in [Wait()] or returned.  [Wait()] and the three parts of the body are
    the ones of [WorkerThread_step], taken one at a time. *)
Definition WorkerThread_advance (p : WorkerPoint) (s : Application)
  : option (Outcome unit * WorkerPoint) :=
  match p with
  | AtLoopHead =>
      if _stop_thread_flag s
      then Some (act ThreadExit s, AtReturn)
      else Some (Ok tt s, AtWait)
  | AtWait =>
      match ov.Wait (_queue_event s) with
      | None => None
      | Some e => Some ((modify (set_queue_event e);; act QueueWait) s, AtVideo)
      end
  | AtVideo => Some (WorkerThread_video s, AtAudio)
  | AtAudio => Some (WorkerThread_audio s, AtPacket)
  | AtPacket => Some (WorkerThread_packet s, AtLoopHead)
  | AtReturn => None
  end.

(** The object and the threads at work on it.  [object] holds the members,
    its [_worker_thread] telling only whether the thread object is joinable;
    [worker_at] is where the worker stands; [unsignalled] counts the
    producers that have released their queue's lock and have not yet called
    [Notify()]; [stopping] tells that a [Stop()] has set the flag and has not
    yet called [Notify()]. *)
Record Threads := mkThreads {
  object : Application;
  worker_at : WorkerPoint;
  unsignalled : nat;
  stopping : bool
}.

(** One statement of one thread.  [Stop()] is followed up to its
    [join()], where it waits for the worker to return. *)
Inductive Move :=
| producer_enqueues (x : Submission)
| producer_notifies
| stop_sets_flag
| stop_notifies
| stream_created (info : InfoStream)
| stream_deleted (info : InfoStream)
| worker_advances.

Section Interleaving.

Context {subclass : Subclass}.

Definition run_move (m : Move) (f : Threads) : option Threads :=
  match m with
  | producer_enqueues x =>
      match completed (enqueue x (object f)) with
      | Some s' =>
          Some (mkThreads s' (worker_at f) (S (unsignalled f)) (stopping f))
      | None => None
      end
  | producer_notifies =>
      match unsignalled f, completed (queue_event_Notify (object f)) with
      | S n, Some s' => Some (mkThreads s' (worker_at f) n (stopping f))
      | _, _ => None
      end
  | stop_sets_flag =>
      if _stop_thread_flag (object f) then None
      else Some (mkThreads (set_stop_thread_flag true (object f))
                   (worker_at f) (unsignalled f) true)
  | stop_notifies =>
      match stopping f, completed (queue_event_Notify (object f)) with
      | true, Some s' => Some (mkThreads s' (worker_at f) (unsignalled f) false)
      | _, _ => None
      end
  | stream_created info =>
      match completed (OnCreateStream info (object f)) with
      | Some s' =>
          Some (mkThreads s' (worker_at f) (unsignalled f) (stopping f))
      | None => None
      end
  | stream_deleted info =>
      match completed (OnDeleteStream info (object f)) with
      | Some s' =>
          Some (mkThreads s' (worker_at f) (unsignalled f) (stopping f))
      | None => None
      end
  | worker_advances =>
      match WorkerThread_advance (worker_at f) (object f) with
      | Some (o, p) =>
          match completed o with
          | Some s' => Some (mkThreads s' p (unsignalled f) (stopping f))
          | None => None
          end
      | None => None
      end
  end.

Fixpoint run_moves (ms : list Move) (f : Threads) : option Threads :=
  match ms with
  | [] => Some f
  | m :: ms' =>
      match run_move m f with
      | Some f' => run_moves ms' f'
      | None => None
      end
  end.

(** The threads as the callers' view leaves them: no producer and no
    [Stop()] under way, the worker at its loop condition or in [Wait()], or
    no worker running. *)
Definition threads_of (s : Application) : Threads :=
  mkThreads s
    match _worker_thread s with
    | Some LoopHead => AtLoopHead
    | Some InWait => AtWait
    | Some Exited | None => AtReturn
    end
    0 false.

(** What the threads can come to: any calls first, then any interleaving of
    the threads' statements. *)
Definition interleaved (k : ov.EventKind) (config : cfg.CmafPublisher)
    (f : Threads) : Prop :=
  exists cs s ms,
    run_calls cs (Application_new k config) = Some s /\
    run_moves ms (threads_of s) = Some f.

End Interleaving.

(** Every queued item is covered: by a pending signal, by the [Notify()]
    its producer is about to call, or by the signal the worker has consumed
    for the pass it is in, as long as that pass has taken nothing.  A part
    of the pass that found its queue empty has left nothing uncovered
    there. *)
Definition signals_cover_threads (f : Threads) : Prop :=
  let s := object f in
  let n := (ov.pending (_queue_event s) + unsignalled f)%nat in
  match worker_at f with
  | AtLoopHead | AtWait | AtReturn => (queued s <= n)%nat
  | AtVideo => (queued s <= S n)%nat
  | AtAudio =>
      (queued s <= S n)%nat /\
      ((queued s <= n)%nat \/ (length (_video_stream_queue s) <= n)%nat)
  | AtPacket =>
      (queued s <= S n)%nat /\
      ((queued s <= n)%nat \/
       (length (_video_stream_queue s) + length (_audio_stream_queue s)
        <= n)%nat)
  end.

(** The queues when the worker, found at [p] by a [Stop()], has returned:
    it finishes the pass it is in, and a worker found in [Wait()] makes one
    whole pass. *)
Definition after_last_pass (p : WorkerPoint) (s : Application)
  : list VideoStreamData * list AudioStreamData * list IncomingPacket :=
  match p with
  | AtLoopHead | AtReturn =>
      (_video_stream_queue s, _audio_stream_queue s, _incoming_packet_queue s)
  | AtWait | AtVideo =>
      (tail (_video_stream_queue s), tail (_audio_stream_queue s),
       tail (_incoming_packet_queue s))
  | AtAudio =>
      (_video_stream_queue s, tail (_audio_stream_queue s),
       tail (_incoming_packet_queue s))
  | AtPacket =>
      (_video_stream_queue s, _audio_stream_queue s,
       tail (_incoming_packet_queue s))
  end.

(** The three queues are in [s'] what they are in [s]. *)
Definition same_queues (s s' : Application) : Prop :=
  _video_stream_queue s' = _video_stream_queue s /\
  _audio_stream_queue s' = _audio_stream_queue s /\
  _incoming_packet_queue s' = _incoming_packet_queue s.

(** The worker is left to itself: the event counts and its signals cover
    the queues, no producer stands between its [unlock()] and its
    [Notify()], the stop flag is clear and every queued packet names a
    session. *)
Definition undisturbed (f : Threads) : Prop :=
  ov.kind (_queue_event (object f)) = ov.Counting /\
  signals_cover_threads f /\
  unsignalled f = 0%nat /\
  _stop_thread_flag (object f) = false /\
  Forall (fun packet => _session_info packet <> None)
    (_incoming_packet_queue (object f)).

(** The statement after the one at [p]. *)
Definition next_point (p : WorkerPoint) : WorkerPoint :=
  match p with
  | AtLoopHead => AtWait
  | AtWait => AtVideo
  | AtVideo => AtAudio
  | AtAudio => AtPacket
  | AtPacket => AtLoopHead
  | AtReturn => AtReturn
  end.

(** The frames and packets the calls [cs] have submitted, oldest first. *)
Definition submitted_video (cs : list Call) : list VideoStreamData :=
  omap (fun c => match c with
                 | call_OnSendVideoFrame stream media_packet =>
                     Some (mkStreamData stream media_packet)
                 | _ => None
                 end) cs.

Definition submitted_audio (cs : list Call) : list AudioStreamData :=
  omap (fun c => match c with
                 | call_OnSendAudioFrame stream media_packet =>
                     Some (mkStreamData stream media_packet)
                 | _ => None
                 end) cs.

Definition submitted_packets (cs : list Call) : list IncomingPacket :=
  omap (fun c => match c with
                 | call_PushIncomingPacket session_info data =>
                     Some (mkIncomingPacket session_info data)
                 | _ => None
                 end) cs.

(** From [s] to [s'] the items [pv], [pa] and [pp] have been pushed at the
    back of the queues and the items [tv], [ta] and [tp] taken off their
    fronts, one pop each; the packets handed to streams are among the
    packets of the frames taken, in order and at most once each; every
    packet taken names a session and has been handed to it. *)
Definition accounted (pv : list VideoStreamData) (pa : list AudioStreamData)
    (pp : list IncomingPacket) (s s' : Application) : Prop :=
  exists tv ta tp w,
    trace s' = trace s ++ w /\
    _video_stream_queue s ++ pv = tv ++ _video_stream_queue s' /\
    _audio_stream_queue s ++ pa = ta ++ _audio_stream_queue s' /\
    _incoming_packet_queue s ++ pp = tp ++ _incoming_packet_queue s' /\
    length tv = pops video_stream_queue w /\
    length ta = pops audio_stream_queue w /\
    length tp = pops incoming_packet_queue w /\
    map snd (sent_video w) `sublist_of` omap _media_packet tv /\
    map snd (sent_audio w) `sublist_of` omap _media_packet ta /\
    received w = omap delivery tp /\
    Forall (fun packet => _session_info packet <> None) tp.

(** [n] times the same part of the loop body, one after the other. *)
Fixpoint passes (n : nat) (pass : M unit) : M unit :=
  match n with
  | O => mret tt
  | S n' => pass;; passes n' pass
  end.

(** ** A concrete publisher and some concrete data *)

Module Scenario.

Definition is_HookCreateStream (a : Action) : bool :=
  match a with HookCreateStream _ _ => true | _ => false end.

(** A publisher whose n-th call of the creation hook constructs stream
    object n, and whose deletion hook always agrees. *)
Definition numbering : Subclass :=
  {| CreateStream := fun s _ _ =>
       Some (length (List.filter is_HookCreateStream (trace s)));
     DeleteStream := fun _ _ => true |}.

(** A publisher whose hooks always fail. *)
Definition refusing : Subclass :=
  {| CreateStream := fun _ _ _ => None;
     DeleteStream := fun _ _ => false |}.

Definition app0 : Application :=
  Application_new ov.Counting cfg.unconfigured.

Definition info7 : InfoStream :=
  mkInfoStream 7 {[ 0 := mkTimeBase 1 90000 ]}.

Definition packet1 : MediaPacket := mkMediaPacket 9000 0.

(** [app0] after stream 7 has been created once. *)
Definition app_with_7 : Application :=
  state_of (OnCreateStream (subclass := numbering) info7 app0).

(** [app0] after [Start()]. *)
Definition app_running : Application := state_of (Start app0).

(** A video frame, and an audio frame, for stream 7 queued while no stream
    is registered. *)
Definition app_video_queued : Application :=
  state_of (OnSendVideoFrame (Some info7) (Some packet1) app0).

Definition app_audio_queued : Application :=
  state_of (OnSendAudioFrame (Some info7) (Some packet1) app0).

(** A started worker goes to sleep in [Wait()]; then one frame arrives. *)
Definition one_frame : list Call :=
  [call_Start; worker_moves;
   call_OnSendVideoFrame (Some info7) (Some packet1)].

(** The same with two frames in a row. *)
Definition two_frames : list Call :=
  [call_Start; worker_moves;
   call_OnSendVideoFrame (Some info7) (Some packet1);
   call_OnSendVideoFrame (Some info7) (Some packet1)].

(** The application after [two_frames]: a worker asleep in [Wait()] and two
    video frames queued. *)
Definition app_two_frames : Application :=
  default app0 (run_calls (subclass := numbering) two_frames app0).

End Scenario.

(** ** Proof support *)

(** Unfolds the monad, so that the body of a member function computes down to
    its outcome on a record given field by field. *)
Ltac run_m :=
  cbv [mbind mret M_bind M_ret gets modify act abort lock unlock
       queue_event_Notify streams_assign streams_erase
       call_CreateStream call_DeleteStream
       set_stop_thread_flag set_worker_thread set_streams
       set_video_stream_queue set_audio_stream_queue
       set_incoming_packet_queue set_queue_event set_last_video_ts_ms
       set_last_audio_ts_ms set_trace
       _stop_thread_flag _worker_thread _streams _video_stream_queue
       _audio_stream_queue _incoming_packet_queue _queue_event
       _last_video_ts_ms _last_audio_ts_ms _app_config trace];
  cbn;
  rewrite <- ?app_assoc; cbn.

(** The members as a call finds them after the monad's steps are unfolded,
    leaving [WorkerThread_run] as it stands. *)
Ltac step_m :=
  cbv [mbind mret M_bind M_ret gets modify act abort lock unlock
       queue_event_Notify joinable
       set_stop_thread_flag set_worker_thread set_streams
       set_video_stream_queue set_audio_stream_queue
       set_incoming_packet_queue set_queue_event set_last_video_ts_ms
       set_last_audio_ts_ms set_trace
       _stop_thread_flag _worker_thread _streams _video_stream_queue
       _audio_stream_queue _incoming_packet_queue _queue_event
       _last_video_ts_ms _last_audio_ts_ms _app_config trace];
  cbn [_stop_thread_flag _worker_thread _streams _video_stream_queue
       _audio_stream_queue _incoming_packet_queue _queue_event
       _last_video_ts_ms _last_audio_ts_ms _app_config trace].

Lemma GetThreadCount_ge_1 (c : cfg.CmafPublisher) : 1 <= cfg.GetThreadCount c.
Proof.
  unfold cfg.GetThreadCount.
  destruct (Z.gtb_spec (cfg._thread_count c) 0); lia.
Qed.

(** ** The thread-count policy *)

(** C10. For every configuration, [GetThreadCount] is the configured thread
    count when that is greater than zero and 1 otherwise, hence at least 1; it
    is 4 when the count is left unconfigured; and the worker count that
    [OnCreateStream] passes to the creation hook is this value. *)
Theorem GetThreadCount_positive :
  (forall c : cfg.CmafPublisher,
      cfg.GetThreadCount c
      = if 0 <? cfg._thread_count c then cfg._thread_count c else 1) /\
  (forall c : cfg.CmafPublisher, 1 <= cfg.GetThreadCount c) /\
  (forall configured : option Z,
      cfg.GetThreadCount (cfg.with_thread_count configured cfg.unconfigured)
      = match configured with
        | Some n => if 0 <? n then n else 1
        | None => 4
        end) /\
  (forall (subclass : Subclass) (s : Application) (info : InfoStream),
      exists worker_count rest,
        trace (state_of (OnCreateStream info s))
        = trace s ++ HookCreateStream info worker_count :: rest /\
        worker_count = cfg.GetThreadCount (_app_config s) /\
        1 <= worker_count).
Proof.
  split; [| split; [| split]].
  - intros c. unfold cfg.GetThreadCount. now rewrite Z.gtb_ltb.
  - apply GetThreadCount_ge_1.
  - intros [n|]; [| reflexivity].
    unfold cfg.GetThreadCount; cbn. now rewrite Z.gtb_ltb.
  - intros subclass s info. destruct s; unfold OnCreateStream; run_m.
    match goal with |- context [CreateStream ?a ?b ?c] =>
      destruct (CreateStream a b c) end; cbn; rewrite <- ?app_assoc; cbn.
    + do 2 eexists; split; [reflexivity |].
      split; [reflexivity | apply GetThreadCount_ge_1].
    + do 2 eexists; split; [reflexivity |].
      split; [reflexivity | apply GetThreadCount_ge_1].
Qed.

(** ** Stream creation and deletion *)

(** C1, as the code has it: with stream 7 registered as object 0 and a
    creation hook that succeeds with object 1, [OnCreateStream] for id 7 does
    not fail and does not leave the entry in place; it returns [true] and the
    registry maps 7 to object 1. *)
Lemma OnCreateStream_duplicate_id_accepted :
  _streams Scenario.app_with_7 !! 7%N = Some 0%nat /\
  CreateStream (Subclass := Scenario.numbering) Scenario.app_with_7
    Scenario.info7 (cfg.GetThreadCount (_app_config Scenario.app_with_7))
  = Some 1%nat /\
  ~ (exists s',
        OnCreateStream (subclass := Scenario.numbering) Scenario.info7
          Scenario.app_with_7 = Ok false s' /\
        _streams s' !! 7%N = _streams Scenario.app_with_7 !! 7%N) /\
  exists s',
    OnCreateStream (subclass := Scenario.numbering) Scenario.info7
      Scenario.app_with_7 = Ok true s' /\
    _streams s' !! 7%N = Some 1%nat.
Proof.
  split; [reflexivity |]. split; [reflexivity |]. split.
  - intros [s' [Hcall _]]. vm_compute in Hcall. discriminate.
  - eexists; split; reflexivity.
Qed.

(** C1, amended. Whenever the creation hook succeeds, [OnCreateStream]
    returns [true] and the registry maps the id to the stream the hook
    produced, whether or not the id was registered before; the entries of all
    other ids are left as they were. *)
Theorem OnCreateStream_assigns {subclass : Subclass}
    (s : Application) (info : InfoStream) (stream : StreamRef) :
  CreateStream s info (cfg.GetThreadCount (_app_config s)) = Some stream ->
  exists s',
    OnCreateStream info s = Ok true s' /\
    _streams s' = <[GetId info := stream]> (_streams s) /\
    _streams s' !! GetId info = Some stream /\
    (forall id, id <> GetId info -> _streams s' !! id = _streams s !! id).
Proof.
  intros Hcreate. destruct s; cbn in *.
  unfold OnCreateStream; run_m. rewrite Hcreate; run_m.
  eexists; split; [reflexivity |]; cbn.
  split; [reflexivity |]. split.
  - apply lookup_insert_eq.
  - intros id Hid. now apply lookup_insert_ne.
Qed.

Lemma OnCreateStream_assigns_witness :
  exists s',
    OnCreateStream (subclass := Scenario.numbering) Scenario.info7
      Scenario.app_with_7 = Ok true s' /\
    _streams s' = <[7%N := 1%nat]> (_streams Scenario.app_with_7) /\
    _streams s' !! 7%N = Some 1%nat /\
    (forall id, id <> 7%N ->
                _streams s' !! id = _streams Scenario.app_with_7 !! id).
Proof.
  apply (OnCreateStream_assigns (subclass := Scenario.numbering)
           Scenario.app_with_7 Scenario.info7 1%nat).
  reflexivity.
Defined.

(** C4. When the id is registered, [OnDeleteStream] first calls the deletion
    hook, which still finds the registry as it was on entry; only when the
    hook returns [true] is the entry erased, and the stream's [Stop()] comes
    after the erase.  When the hook returns [false] there is neither an erase
    nor a [Stop()]. *)
Theorem OnDeleteStream_order {subclass : Subclass}
    (s : Application) (info : InfoStream) (stream : StreamRef) :
  _streams s !! GetId info = Some stream ->
  _streams (before_DeleteStream s) = _streams s /\
  if DeleteStream (before_DeleteStream s) info
  then exists s',
      OnDeleteStream info s = Ok true s' /\
      trace s' = trace s ++ [Lock stream_map_mutex; Unlock stream_map_mutex;
                             HookDeleteStream info;
                             Lock stream_map_mutex; MapErase (GetId info);
                             StreamStop stream; Unlock stream_map_mutex] /\
      _streams s' = delete (GetId info) (_streams s)
  else exists s',
      OnDeleteStream info s = Ok false s' /\
      trace s' = trace s ++ [Lock stream_map_mutex; Unlock stream_map_mutex;
                             HookDeleteStream info] /\
      _streams s' = _streams s.
Proof.
  intros Hfind. split; [reflexivity |].
  destruct s; unfold before_DeleteStream; cbn in *.
  unfold OnDeleteStream; run_m. rewrite Hfind; run_m.
  match goal with |- context [DeleteStream ?a ?b] =>
    destruct (DeleteStream a b) end; run_m;
    eexists; repeat split; reflexivity.
Qed.

Lemma OnDeleteStream_order_witness :
  _streams Scenario.app_with_7 !! 7%N = Some 0%nat /\
  exists s',
    OnDeleteStream (subclass := Scenario.numbering) Scenario.info7
      Scenario.app_with_7 = Ok true s' /\
    trace s' = trace Scenario.app_with_7
                 ++ [Lock stream_map_mutex; Unlock stream_map_mutex;
                     HookDeleteStream Scenario.info7;
                     Lock stream_map_mutex; MapErase 7%N;
                     StreamStop 0%nat; Unlock stream_map_mutex] /\
    _streams s' = delete 7%N (_streams Scenario.app_with_7).
Proof.
  split; [reflexivity |].
  exact (proj2 (OnDeleteStream_order (subclass := Scenario.numbering)
                  Scenario.app_with_7 Scenario.info7 0%nat eq_refl)).
Defined.

(** A failed deletion or creation changes no member variable. *)
Lemma OnDeleteStream_false_unchanged {subclass : Subclass}
    (s s' : Application) (info : InfoStream) :
  OnDeleteStream info s = Ok false s' -> s' = set_trace (trace s') s.
Proof.
  destruct s; unfold OnDeleteStream; run_m.
  match goal with |- context [?m !! ?k] => destruct (m !! k) end; run_m.
  - match goal with |- context [DeleteStream ?a ?b] =>
      destruct (DeleteStream a b) end; run_m;
      intros Heq; inversion Heq; reflexivity.
  - intros Heq; inversion Heq; reflexivity.
Qed.

Lemma OnCreateStream_false_unchanged {subclass : Subclass}
    (s s' : Application) (info : InfoStream) :
  OnCreateStream info s = Ok false s' -> s' = set_trace (trace s') s.
Proof.
  destruct s; unfold OnCreateStream; run_m.
  match goal with |- context [CreateStream ?a ?b ?c] =>
    destruct (CreateStream a b c) end; run_m;
    intros Heq; inversion Heq; reflexivity.
Qed.

(** C5. [OnDeleteStream] returns [false] and leaves the registry as it was
    both when the id is not registered and when the deletion hook returns
    [false]; [OnCreateStream] returns [false] and leaves the registry as it
    was when the creation hook returns null.  In fact no call that returns
    [false] changes any member variable. *)
Theorem failure_leaves_registry {subclass : Subclass}
    (s : Application) (info : InfoStream) :
  (_streams s !! GetId info = None ->
   exists s', OnDeleteStream info s = Ok false s' /\
              _streams s' = _streams s) /\
  (is_Some (_streams s !! GetId info) ->
   DeleteStream (before_DeleteStream s) info = false ->
   exists s', OnDeleteStream info s = Ok false s' /\
              _streams s' = _streams s) /\
  (CreateStream s info (cfg.GetThreadCount (_app_config s)) = None ->
   exists s', OnCreateStream info s = Ok false s' /\
              _streams s' = _streams s) /\
  (forall s', OnDeleteStream info s = Ok false s' \/
              OnCreateStream info s = Ok false s' ->
              s' = set_trace (trace s') s).
Proof.
  split; [| split; [| split]].
  - intros Hfind. destruct s; cbn in *.
    unfold OnDeleteStream; run_m. rewrite Hfind; run_m.
    eexists; split; reflexivity.
  - intros [stream Hfind] Hhook.
    destruct s; unfold before_DeleteStream, set_trace in Hhook; cbn in *.
    unfold OnDeleteStream; run_m. rewrite Hfind; run_m.
    rewrite Hhook; run_m.
    eexists; split; reflexivity.
  - intros Hhook. destruct s; cbn in *.
    unfold OnCreateStream; run_m. rewrite Hhook; run_m.
    eexists; split; reflexivity.
  - intros s' [H | H].
    + now apply OnDeleteStream_false_unchanged in H.
    + now apply OnCreateStream_false_unchanged in H.
Qed.

Lemma failure_leaves_registry_witness :
  (exists s', OnDeleteStream (subclass := Scenario.refusing) Scenario.info7
                Scenario.app0 = Ok false s' /\
              _streams s' = _streams Scenario.app0) /\
  (exists s', OnDeleteStream (subclass := Scenario.refusing) Scenario.info7
                Scenario.app_with_7 = Ok false s' /\
              _streams s' = _streams Scenario.app_with_7) /\
  (exists s', OnCreateStream (subclass := Scenario.refusing) Scenario.info7
                Scenario.app_with_7 = Ok false s' /\
              _streams s' = _streams Scenario.app_with_7).
Proof.
  split; [| split].
  - apply (proj1 (failure_leaves_registry (subclass := Scenario.refusing)
                    Scenario.app0 Scenario.info7)).
    reflexivity.
  - apply (proj1 (proj2 (failure_leaves_registry
                           (subclass := Scenario.refusing)
                           Scenario.app_with_7 Scenario.info7))).
    + exists 0%nat. reflexivity.
    + reflexivity.
  - apply (proj1 (proj2 (proj2 (failure_leaves_registry
                                  (subclass := Scenario.refusing)
                                  Scenario.app_with_7 Scenario.info7)))).
    reflexivity.
Defined.

(** C6. Right after an [OnCreateStream] that returned [true], [GetStream] of
    that id returns the stream the creation hook produced; right after an
    [OnDeleteStream] that returned [true], [GetStream] of that id returns
    null. *)
Theorem GetStream_round_trip {subclass : Subclass}
    (s s' : Application) (info : InfoStream) :
  (OnCreateStream info s = Ok true s' ->
   exists stream,
     CreateStream s info (cfg.GetThreadCount (_app_config s)) = Some stream /\
     returned (GetStream (GetId info) s') = Some (Some stream)) /\
  (OnDeleteStream info s = Ok true s' ->
   returned (GetStream (GetId info) s') = Some None).
Proof.
  split.
  - destruct s; unfold OnCreateStream; run_m.
    match goal with |- context [CreateStream ?a ?b ?c] =>
      destruct (CreateStream a b c) as [stream |] end; run_m;
      intros Heq; inversion Heq; subst.
    exists stream. split; [reflexivity |].
    unfold GetStream; run_m. now rewrite lookup_insert_eq.
  - destruct s; unfold OnDeleteStream; run_m.
    match goal with |- context [?m !! ?k] => destruct (m !! k) end; run_m.
    + match goal with |- context [DeleteStream ?a ?b] =>
        destruct (DeleteStream a b) end; run_m;
        intros Heq; inversion Heq; subst.
      unfold GetStream; run_m. now rewrite lookup_delete_eq.
    + intros Heq; inversion Heq.
Qed.

Lemma GetStream_round_trip_witness :
  returned (GetStream 7%N Scenario.app_with_7) = Some (Some 0%nat) /\
  returned (GetStream 7%N
              (state_of (OnDeleteStream (subclass := Scenario.numbering)
                           Scenario.info7 Scenario.app_with_7)))
  = Some None.
Proof.
  split.
  - destruct (proj1 (GetStream_round_trip (subclass := Scenario.numbering)
                       Scenario.app0 Scenario.app_with_7 Scenario.info7)
                eq_refl) as [stream [Hhook Hget]].
    cbn in Hhook. inversion Hhook; subst. exact Hget.
  - apply (proj2 (GetStream_round_trip (subclass := Scenario.numbering)
                    Scenario.app_with_7
                    (state_of (OnDeleteStream (subclass := Scenario.numbering)
                                 Scenario.info7 Scenario.app_with_7))
                    Scenario.info7)).
    reflexivity.
Defined.

(** ** Start and Stop *)

(** C2, as the code has it: [Start()] on an application whose worker is
    running is not a successful no-op; it starts a second worker context and
    does not return. *)
Lemma Start_while_running_not_idempotent :
  _worker_thread Scenario.app_running = Some LoopHead /\
  _stop_thread_flag Scenario.app_running = false /\
  spawned Scenario.app_running = 1%nat /\
  ~ (exists s', Start Scenario.app_running = Ok true s' /\
                spawned s' = spawned Scenario.app_running) /\
  spawned (state_of (Start Scenario.app_running)) = 2%nat /\
  returned (Start Scenario.app_running) = None.
Proof.
  split; [reflexivity |]. split; [reflexivity |]. split; [reflexivity |].
  split; [| split; reflexivity].
  intros [s' [Hcall _]]. vm_compute in Hcall. discriminate.
Qed.

(** C2, amended. [Start()] has no test for a worker that is already running:
    every call clears the stop flag and starts one more worker execution
    context.  Called while no worker thread is attached, it returns [true]
    and leaves exactly that one new worker attached, at the head of its
    loop. *)
Theorem Start_spawns_worker (s : Application) :
  _stop_thread_flag (state_of (Start s)) = false /\
  spawned (state_of (Start s)) = S (spawned s) /\
  (_worker_thread s = None ->
   exists s', Start s = Ok true s' /\
              _worker_thread s' = Some LoopHead /\
              trace s' = trace s ++ [ThreadSpawn] /\
              s' = set_trace (trace s')
                     (set_worker_thread (Some LoopHead)
                        (set_stop_thread_flag false s))).
Proof.
  destruct s as [flag worker streams vq aq pq ev vts ats config tr].
  unfold Start, spawned; run_m.
  destruct worker; run_m; rewrite List.filter_app, length_app; cbn.
  - split; [reflexivity |]. split; [lia | discriminate].
  - split; [reflexivity |]. split; [lia |].
    intros _. eexists; repeat split; reflexivity.
Qed.

Lemma Start_spawns_worker_witness :
  exists s', Start Scenario.app0 = Ok true s' /\
             _worker_thread s' = Some LoopHead /\
             trace s' = trace Scenario.app0 ++ [ThreadSpawn] /\
             s' = set_trace (trace s')
                    (set_worker_thread (Some LoopHead)
                       (set_stop_thread_flag false Scenario.app0)).
Proof.
  apply (proj2 (proj2 (Start_spawns_worker Scenario.app0))).
  reflexivity.
Defined.

(** ** Producers *)

(** C9. Each of the three enqueue functions, when it returns, has returned
    [true] after doing exactly this, in this order: take the queue's lock,
    append the item at the back of the queue, release the lock, signal the
    queue event once.  The two frame functions return whenever their
    arguments are non-null and the packet's track exists;
    [PushIncomingPacket] always returns. *)
Theorem enqueue_then_signal (s : Application) :
  (forall stream media_packet r s',
      OnSendVideoFrame stream media_packet s = Ok r s' ->
      r = true /\
      _video_stream_queue s'
      = _video_stream_queue s ++ [mkStreamData stream media_packet] /\
      trace s' = trace s ++ [Lock video_stream_queue_guard;
                             QueuePush video_stream_queue;
                             Unlock video_stream_queue_guard;
                             QueueNotify] /\
      _queue_event s' = ov.Notify (_queue_event s)) /\
  (forall stream media_packet time_base,
      GetTrack stream (GetTrackId media_packet) = Some time_base ->
      exists s',
        OnSendVideoFrame (Some stream) (Some media_packet) s = Ok true s') /\
  (forall stream media_packet r s',
      OnSendAudioFrame stream media_packet s = Ok r s' ->
      r = true /\
      _audio_stream_queue s'
      = _audio_stream_queue s ++ [mkStreamData stream media_packet] /\
      trace s' = trace s ++ [Lock audio_stream_queue_guard;
                             QueuePush audio_stream_queue;
                             Unlock audio_stream_queue_guard;
                             QueueNotify] /\
      _queue_event s' = ov.Notify (_queue_event s)) /\
  (forall stream media_packet time_base,
      GetTrack stream (GetTrackId media_packet) = Some time_base ->
      exists s',
        OnSendAudioFrame (Some stream) (Some media_packet) s = Ok true s') /\
  (forall session_info data,
      exists s',
        PushIncomingPacket session_info data s = Ok true s' /\
        _incoming_packet_queue s'
        = _incoming_packet_queue s ++ [mkIncomingPacket session_info data] /\
        trace s' = trace s ++ [Lock incoming_packet_queue_guard;
                               QueuePush incoming_packet_queue;
                               Unlock incoming_packet_queue_guard;
                               QueueNotify] /\
        _queue_event s' = ov.Notify (_queue_event s)).
Proof.
  destruct s as [flag worker streams vq aq pq ev vts ats config tr].
  split; [| split; [| split; [| split]]].
  - intros [stream |] [media_packet |] r s';
      unfold OnSendVideoFrame, timestamp_ms; run_m; try discriminate.
    destruct (GetTrack stream (GetTrackId media_packet)); run_m;
      [| discriminate].
    intros Heq; inversion Heq; subst. repeat split; reflexivity.
  - intros stream media_packet time_base Htrack.
    unfold OnSendVideoFrame, timestamp_ms; run_m. rewrite Htrack; run_m.
    eexists; reflexivity.
  - intros [stream |] [media_packet |] r s';
      unfold OnSendAudioFrame, timestamp_ms; run_m; try discriminate.
    destruct (GetTrack stream (GetTrackId media_packet)); run_m;
      [| discriminate].
    intros Heq; inversion Heq; subst. repeat split; reflexivity.
  - intros stream media_packet time_base Htrack.
    unfold OnSendAudioFrame, timestamp_ms; run_m. rewrite Htrack; run_m.
    eexists; reflexivity.
  - intros session_info data. unfold PushIncomingPacket; run_m.
    eexists; repeat split; reflexivity.
Qed.

Lemma enqueue_then_signal_witness :
  (exists s',
      OnSendVideoFrame (Some Scenario.info7) (Some Scenario.packet1)
        Scenario.app0 = Ok true s' /\
      _video_stream_queue s'
      = [mkStreamData (Some Scenario.info7) (Some Scenario.packet1)] /\
      trace s' = [Lock video_stream_queue_guard;
                  QueuePush video_stream_queue;
                  Unlock video_stream_queue_guard;
                  QueueNotify] /\
      ov.pending (_queue_event s') = 1%nat) /\
  (exists s',
      OnSendAudioFrame (Some Scenario.info7) (Some Scenario.packet1)
        Scenario.app0 = Ok true s' /\
      _audio_stream_queue s'
      = [mkStreamData (Some Scenario.info7) (Some Scenario.packet1)] /\
      trace s' = [Lock audio_stream_queue_guard;
                  QueuePush audio_stream_queue;
                  Unlock audio_stream_queue_guard;
                  QueueNotify] /\
      ov.pending (_queue_event s') = 1%nat).
Proof.
  pose proof (enqueue_then_signal Scenario.app0)
    as [Hv [Hv_ok [Ha [Ha_ok _]]]].
  split.
  - destruct (Hv_ok Scenario.info7 Scenario.packet1 (mkTimeBase 1 90000)
                eq_refl) as [s' Hs'].
    exists s'. destruct (Hv _ _ _ _ Hs') as [_ [Hq [Ht He]]].
    split; [exact Hs' |]. split; [exact Hq |]. split; [exact Ht |].
    now rewrite He.
  - destruct (Ha_ok Scenario.info7 Scenario.packet1 (mkTimeBase 1 90000)
                eq_refl) as [s' Hs'].
    exists s'. destruct (Ha _ _ _ _ Hs') as [_ [Hq [Ht He]]].
    split; [exact Hs' |]. split; [exact Hq |]. split; [exact Ht |].
    now rewrite He.
Defined.

(** ** The dispatch loop *)

(** What the loop body does to the members: each part takes the front item
    off its queue, if there is one, and changes nothing else. *)
Lemma WorkerThread_video_pops (s : Application) :
  exists s' w,
    WorkerThread_video s = Ok tt s' /\
    s' = set_trace (trace s ++ w)
           (set_video_stream_queue (tail (_video_stream_queue s)) s).
Proof.
  destruct s as [flag worker streams vq aq pq ev vts ats config tr].
  unfold WorkerThread_video, PopVideoStreamData, SendVideoFrame, GetStream.
  destruct vq as [| [[info |] [media_packet |]] rest]; run_m;
    try (do 2 eexists; split; reflexivity).
  destruct (streams !! GetId info); run_m;
    do 2 eexists; split; reflexivity.
Qed.

Lemma WorkerThread_audio_pops (s : Application) :
  exists s' w,
    WorkerThread_audio s = Ok tt s' /\
    s' = set_trace (trace s ++ w)
           (set_audio_stream_queue (tail (_audio_stream_queue s)) s).
Proof.
  destruct s as [flag worker streams vq aq pq ev vts ats config tr].
  unfold WorkerThread_audio, PopAudioStreamData, SendAudioFrame, GetStream.
  destruct aq as [| [[info |] [media_packet |]] rest]; run_m;
    try (do 2 eexists; split; reflexivity).
  destruct (streams !! GetId info); run_m;
    do 2 eexists; split; reflexivity.
Qed.

Lemma WorkerThread_packet_pops (s : Application) :
  if front_packet_has_session s
  then exists s' w,
      WorkerThread_packet s = Ok tt s' /\
      s' = set_trace (trace s ++ w)
             (set_incoming_packet_queue (tail (_incoming_packet_queue s)) s)
  else exists s', WorkerThread_packet s = Abort NullDereference s'.
Proof.
  destruct s as [flag worker streams vq aq pq ev vts ats config tr].
  unfold WorkerThread_packet, PopIncomingPacket, OnPacketReceived,
    front_packet_has_session.
  destruct pq as [| [[session |] data] rest]; run_m.
  - exists (mkApplication flag worker streams vq aq [] ev vts ats config
              (tr ++ [Lock incoming_packet_queue_guard;
                      Unlock incoming_packet_queue_guard])).
    eexists; split; reflexivity.
  - do 2 eexists; split; reflexivity.
  - eexists; reflexivity.
Qed.

Lemma WorkerThread_drain_pops (s : Application) :
  if front_packet_has_session s
  then exists s' w,
      WorkerThread_drain s = Ok tt s' /\
      s' = set_trace (trace s ++ w) (after_drain s)
  else exists s', WorkerThread_drain s = Abort NullDereference s'.
Proof.
  unfold WorkerThread_drain.
  destruct (WorkerThread_video_pops s) as (s1 & w1 & E1 & ->).
  cbv [mbind M_bind]. rewrite E1.
  match goal with |- context [WorkerThread_audio ?a] =>
    destruct (WorkerThread_audio_pops a) as (s2 & w2 & E2 & ->) end.
  rewrite E2.
  match goal with |- context [WorkerThread_packet ?a] =>
    pose proof (WorkerThread_packet_pops a) as Hp end.
  destruct s as [flag worker streams vq aq pq ev vts ats config tr].
  unfold front_packet_has_session, after_drain in *.
  cbv [set_trace set_video_stream_queue set_audio_stream_queue
       set_incoming_packet_queue
       _stop_thread_flag _worker_thread _streams _video_stream_queue
       _audio_stream_queue _incoming_packet_queue _queue_event
       _last_video_ts_ms _last_audio_ts_ms _app_config trace] in *;
    cbn in *.
  destruct (match pq with
            | [] => true
            | packet :: _ =>
                match _session_info packet with
                | Some _ => true
                | None => false
                end
            end).
  - destruct Hp as (s3 & w3 & E3 & ->). rewrite E3.
    exists (mkApplication flag worker streams (tail vq) (tail aq) (tail pq)
              ev vts ats config (tr ++ (w1 ++ w2 ++ w3))).
    exists (w1 ++ w2 ++ w3). split; [| reflexivity].
    now rewrite <- !app_assoc.
  - destruct Hp as (s3 & E3). rewrite E3. eexists; reflexivity.
Qed.

(** C7. A video or audio item taken off its queue is handed to a stream's
    ingest operation exactly when its stream pointer and its packet pointer
    are both non-null and the registry has a stream under the pointer's id,
    and then to that stream.  When the registry has none, the item is just
    gone: the pass goes on without a fault, the only other actions are the
    shared lock and unlock of the lookup, and besides the item leaving its
    queue no member variable changes. *)
Theorem frame_routing
    (s : Application) (data : StreamData) (rest : list StreamData) :
  (_video_stream_queue s = data :: rest ->
   exists s' w,
     WorkerThread_video s = Ok tt s' /\
     s' = set_trace (trace s ++ [Lock video_stream_queue_guard;
                                 QueuePop video_stream_queue;
                                 Unlock video_stream_queue_guard] ++ w)
            (set_video_stream_queue rest s) /\
     (forall stream media_packet,
         In (StreamSendVideoFrame stream media_packet) w <->
         exists info,
           _stream data = Some info /\
           _media_packet data = Some media_packet /\
           _streams s !! GetId info = Some stream) /\
     (forall info media_packet,
         _stream data = Some info ->
         _media_packet data = Some media_packet ->
         _streams s !! GetId info = None ->
         w = [LockShared stream_map_mutex; UnlockShared stream_map_mutex])) /\
  (_audio_stream_queue s = data :: rest ->
   exists s' w,
     WorkerThread_audio s = Ok tt s' /\
     s' = set_trace (trace s ++ [Lock audio_stream_queue_guard;
                                 QueuePop audio_stream_queue;
                                 Unlock audio_stream_queue_guard] ++ w)
            (set_audio_stream_queue rest s) /\
     (forall stream media_packet,
         In (StreamSendAudioFrame stream media_packet) w <->
         exists info,
           _stream data = Some info /\
           _media_packet data = Some media_packet /\
           _streams s !! GetId info = Some stream) /\
     (forall info media_packet,
         _stream data = Some info ->
         _media_packet data = Some media_packet ->
         _streams s !! GetId info = None ->
         w = [LockShared stream_map_mutex; UnlockShared stream_map_mutex])).
Proof.
  destruct s as [flag worker streams vq aq pq ev vts ats config tr].
  destruct data as [[info |] [media_packet |]]; cbn; split; intros ->.
  all: unfold WorkerThread_video, PopVideoStreamData, SendVideoFrame,
         WorkerThread_audio, PopAudioStreamData, SendAudioFrame, GetStream;
       run_m.
  all: try (destruct (streams !! GetId info) as [stream |] eqn:Hfind; run_m).
  all: do 2 eexists; split; [reflexivity |]; split; [reflexivity |]; cbn.
  all: split.
  all: try (intros; congruence).
  all: try (intros stream' media_packet'; split;
            [ intros [Hin | [Hin | [Hin | []]]]; try discriminate;
              inversion Hin; subst; eauto
            | intros (info' & Hi & Hp & Hs); inversion Hi; inversion Hp;
              subst; rewrite Hfind in Hs; inversion Hs; subst;
              right; right; left; reflexivity ]).
  all: try (intros stream' media_packet'; split;
            [ intros [Hin | [Hin | []]]; discriminate
            | intros (info' & Hi & Hp & Hs); inversion Hi; subst;
              rewrite Hfind in Hs; discriminate ]).
  all: try (intros stream' media_packet'; split;
            [ intros []
            | intros (info' & Hi & Hp & Hs); discriminate ]).
Qed.

Lemma frame_routing_witness :
  (exists s' w,
     WorkerThread_video Scenario.app_video_queued = Ok tt s' /\
     s' = set_trace (trace Scenario.app_video_queued
                       ++ [Lock video_stream_queue_guard;
                           QueuePop video_stream_queue;
                           Unlock video_stream_queue_guard] ++ w)
            (set_video_stream_queue [] Scenario.app_video_queued) /\
     w = [LockShared stream_map_mutex; UnlockShared stream_map_mutex]) /\
  (exists s' w,
     WorkerThread_audio Scenario.app_audio_queued = Ok tt s' /\
     s' = set_trace (trace Scenario.app_audio_queued
                       ++ [Lock audio_stream_queue_guard;
                           QueuePop audio_stream_queue;
                           Unlock audio_stream_queue_guard] ++ w)
            (set_audio_stream_queue [] Scenario.app_audio_queued) /\
     w = [LockShared stream_map_mutex; UnlockShared stream_map_mutex]).
Proof.
  split.
  - destruct (proj1 (frame_routing Scenario.app_video_queued
                       (mkStreamData (Some Scenario.info7)
                          (Some Scenario.packet1)) []) eq_refl)
      as (s' & w & Hrun & Hs' & _ & Hmiss).
    exists s', w. split; [exact Hrun |]. split; [exact Hs' |].
    apply (Hmiss Scenario.info7 Scenario.packet1); reflexivity.
  - destruct (proj2 (frame_routing Scenario.app_audio_queued
                       (mkStreamData (Some Scenario.info7)
                          (Some Scenario.packet1)) []) eq_refl)
      as (s' & w & Hrun & Hs' & _ & Hmiss).
    exists s', w. split; [exact Hrun |]. split; [exact Hs' |].
    apply (Hmiss Scenario.info7 Scenario.packet1); reflexivity.
Defined.

(** ** Stopping *)

(** The loop body changes neither the stop flag, the thread object, the
    event nor the registry. *)
Lemma WorkerThread_step_InWait (s : Application) (e : ov.Event) :
  _worker_thread s = Some InWait ->
  ov.Wait (_queue_event s) = Some e ->
  if front_packet_has_session s
  then exists w,
      WorkerThread_step s
      = Some (Ok tt (set_trace (trace s ++ QueueWait :: w)
                       (set_worker_thread (Some LoopHead)
                          (set_queue_event e (after_drain s)))))
  else exists s', WorkerThread_step s = Some (Abort NullDereference s').
Proof.
  intros Hpc Hwait. unfold WorkerThread_step. rewrite Hpc, Hwait.
  cbv [mbind M_bind modify act].
  match goal with |- context [WorkerThread_drain ?a] =>
    pose proof (WorkerThread_drain_pops a) as Hd end.
  destruct s as [flag worker streams vq aq pq ev vts ats config tr].
  unfold front_packet_has_session, after_drain in *.
  cbv [set_trace set_video_stream_queue set_audio_stream_queue
       set_incoming_packet_queue set_queue_event set_worker_thread
       _stop_thread_flag _worker_thread _streams _video_stream_queue
       _audio_stream_queue _incoming_packet_queue _queue_event
       _last_video_ts_ms _last_audio_ts_ms _app_config trace] in *;
    cbn in *.
  destruct (match pq with
            | [] => true
            | packet :: _ =>
                match _session_info packet with
                | Some _ => true
                | None => false
                end
            end).
  - destruct Hd as (s' & w & Hrun & ->). rewrite Hrun; cbn.
    exists w. now rewrite <- !app_assoc.
  - destruct Hd as (s' & Hrun). rewrite Hrun. eexists; reflexivity.
Qed.

(** Once the stop flag is set, two moves are all the worker can need: more
    fuel does not change what [WorkerThread_run] finds. *)
Lemma WorkerThread_run_more_fuel (s : Application) (n : nat) :
  _stop_thread_flag s = true ->
  WorkerThread_run (join_fuel + n) s = WorkerThread_run join_fuel s.
Proof.
  intros Hflag. unfold join_fuel.
  destruct (_worker_thread s) as [[| |] |] eqn:Hpc.
  - (* at the loop head: leaves at once *)
    cbn. rewrite Hpc. unfold WorkerThread_step. rewrite Hpc, Hflag.
    destruct s; run_m. now destruct n.
  - (* in Wait *)
    cbn. rewrite Hpc.
    destruct (ov.Wait (_queue_event s)) as [e |] eqn:Hwait.
    + pose proof (WorkerThread_step_InWait s e Hpc Hwait) as Hstep.
      destruct (front_packet_has_session s).
      * destruct Hstep as [w ->].
        destruct s; cbn in *; subst. unfold WorkerThread_step; run_m.
        now destruct n.
      * destruct Hstep as [s' ->]. reflexivity.
    + unfold WorkerThread_step. now rewrite Hpc, Hwait.
  - cbn. now rewrite Hpc.
  - cbn. rewrite Hpc. unfold WorkerThread_step. now rewrite Hpc.
Qed.

(** A worker found in [Wait()] when the flag is set and a signal is pending
    makes one last pass and leaves. *)
Lemma WorkerThread_run_last_pass (s : Application) (e : ov.Event) :
  _stop_thread_flag s = true ->
  _worker_thread s = Some InWait ->
  ov.Wait (_queue_event s) = Some e ->
  front_packet_has_session s = true ->
  exists w,
    WorkerThread_run join_fuel s
    = Ok true (set_trace (trace s ++ QueueWait :: w ++ [ThreadExit])
                 (set_worker_thread (Some Exited)
                    (set_queue_event e (after_drain s)))).
Proof.
  intros Hflag Hpc Hwait Hsafe.
  pose proof (WorkerThread_step_InWait s e Hpc Hwait) as Hstep.
  rewrite Hsafe in Hstep. destruct Hstep as [w Hstep].
  exists w. unfold join_fuel. cbn [WorkerThread_run].
  rewrite Hpc, Hstep.
  destruct s; cbn in *; subst. unfold WorkerThread_step; run_m.
  reflexivity.
Qed.

(** C8. [Stop()] on an application whose stop flag is already set returns
    [true] at once and does nothing.  Otherwise it sets the flag, signals the
    queue event, and, when a worker thread is attached, returns [true] only
    after that worker has left [WorkerThread] and has been joined. *)
Theorem Stop_joins_worker (s : Application) :
  (_stop_thread_flag s = true -> Stop s = Ok true s) /\
  (_stop_thread_flag s = false ->
   (_worker_thread s = Some InWait -> front_packet_has_session s = true) ->
   exists s' w,
     Stop s = Ok true s' /\
     _stop_thread_flag s' = true /\
     _worker_thread s' = None /\
     trace s' = trace s ++ QueueNotify :: w /\
     match _worker_thread s with
     | None => w = [] /\ _queue_event s' = ov.Notify (_queue_event s)
     | Some Exited => w = [ThreadJoin]
     | Some LoopHead => w = [ThreadExit; ThreadJoin]
     | Some InWait => exists w', w = QueueWait :: w' ++ [ThreadExit; ThreadJoin]
     end).
Proof.
  split.
  - intros Hflag. destruct s; cbn in *; subst. reflexivity.
  - intros Hflag Hsafe.
    destruct (_worker_thread s) as [[| |] |] eqn:Hpc.
    + destruct s; cbn in *; subst.
      unfold Stop, worker_thread_join, WorkerThread_run, WorkerThread_step,
        join_fuel; run_m.
      do 2 eexists; repeat split; reflexivity.
    + specialize (Hsafe eq_refl).
      destruct s as [flag worker streams vq aq pq ev vts ats config tr];
        cbn in *; subst.
      unfold Stop, worker_thread_join; step_m.
      match goal with |- context [WorkerThread_run join_fuel ?a] =>
        set (s1 := a) end.
      assert (Hwait : exists e, ov.Wait (_queue_event s1) = Some e).
      { unfold ov.Wait, ov.Notify; cbn. destruct (ov.kind ev); eauto. }
      destruct Hwait as [e Hwait].
      destruct (WorkerThread_run_last_pass s1 e eq_refl eq_refl Hwait Hsafe)
        as [w ->].
      subst s1; unfold after_drain; run_m.
      do 2 eexists. split; [reflexivity |]; cbn.
      repeat split. exists w. now rewrite <- app_assoc.
    + destruct s; cbn in *; subst.
      unfold Stop, worker_thread_join, WorkerThread_run, join_fuel; run_m.
      do 2 eexists; repeat split; reflexivity.
    + destruct s; cbn in *; subst.
      unfold Stop; run_m.
      do 2 eexists; repeat split; reflexivity.
Qed.

Lemma Stop_joins_worker_witness :
  exists s_wait s' w,
    run_calls (subclass := Scenario.numbering) Scenario.one_frame
      Scenario.app0 = Some s_wait /\
    _worker_thread s_wait = Some InWait /\
    Stop s_wait = Ok true s' /\
    _stop_thread_flag s' = true /\
    _worker_thread s' = None /\
    trace s' = trace s_wait ++ QueueNotify :: w /\
    exists w', w = QueueWait :: w' ++ [ThreadExit; ThreadJoin].
Proof.
  eexists.
  match goal with |- exists s' w, ?R = Some ?a /\ _ =>
    let v := eval vm_compute in R in
    match v with Some ?b => unify a b end end.
  match goal with |- exists s' w, _ = Some ?a /\ _ =>
    destruct (proj2 (Stop_joins_worker a) eq_refl (fun _ => eq_refl))
      as (s' & w & Hstop & Hflag & Hpc & Htrace & Hw)
  end.
  exists s', w. split; [reflexivity |]. split; [reflexivity |].
  repeat split; assumption.
Defined.

(** ** When the loop sleeps *)

(** C3, as the code has it: the worker, asleep in [Wait()], is woken by one
    frame; its pass takes that frame off the queue; and on the very next
    iteration it sleeps again, although the pass before drained an item. *)
Lemma WorkerThread_sleeps_after_draining_pass :
  exists s_a s_b s_c,
    run_calls (subclass := Scenario.numbering) Scenario.one_frame
      Scenario.app0 = Some s_a /\
    _worker_thread s_a = Some InWait /\
    queued s_a = 1%nat /\
    WorkerThread_step s_a = Some (Ok tt s_b) /\
    queued s_b = 0%nat /\
    WorkerThread_step s_b = Some (Ok tt s_c) /\
    worker_blocked s_c /\
    ~ (worker_blocked s_c -> queued s_b = queued s_a).
Proof.
  do 3 eexists.
  split; [vm_compute; reflexivity |].
  split; [reflexivity |]. split; [reflexivity |].
  split; [vm_compute; reflexivity |]. split; [reflexivity |].
  split; [vm_compute; reflexivity |].
  match goal with |- worker_blocked ?s /\ _ =>
    assert (Hblocked : worker_blocked s) by (split; reflexivity) end.
  split; [exact Hblocked |].
  intros Himp. specialize (Himp Hblocked).
  vm_compute in Himp. discriminate Himp.
Qed.

(** Under the binary reading of the event the second half of the sentence
    fails as well: of two frames queued in a row the worker drains one and
    then sleeps with the other still queued. *)
Lemma binary_event_strands_a_burst :
  exists s_a s_b s_c,
    run_calls (subclass := Scenario.numbering) Scenario.two_frames
      (Application_new ov.Binary cfg.unconfigured) = Some s_a /\
    WorkerThread_step s_a = Some (Ok tt s_b) /\
    WorkerThread_step s_b = Some (Ok tt s_c) /\
    queued s_c = 1%nat /\
    worker_blocked s_c.
Proof.
  do 3 eexists.
  split; [vm_compute; reflexivity |].
  split; [vm_compute; reflexivity |].
  split; [vm_compute; reflexivity |].
  split; [reflexivity |].
  split; reflexivity.
Qed.

Lemma Wait_Some (ev e : ov.Event) :
  ov.Wait ev = Some e ->
  ov.kind e = ov.kind ev /\
  (ov.kind ev = ov.Counting -> ov.pending ev = S (ov.pending e)).
Proof.
  unfold ov.Wait. destruct ev as [k [| n]]; cbn; [discriminate |].
  intros Heq; inversion Heq; subst; cbn. split; [reflexivity |].
  now intros ->.
Qed.

Lemma queued_after_drain (s : Application) :
  (queued (after_drain s) <= queued s)%nat /\
  ((0 < queued s)%nat -> (queued (after_drain s) < queued s)%nat).
Proof.
  destruct s as [flag worker streams vq aq pq ev vts ats config tr].
  unfold queued, after_drain; cbn.
  destruct vq, aq, pq; cbn; lia.
Qed.

(** One move of the worker keeps the signals covering the queues. *)
Lemma WorkerThread_step_covers (k : ov.EventKind) (s s' : Application)
    (u : unit) :
  signals_cover_queue k s ->
  WorkerThread_step s = Some (Ok u s') ->
  signals_cover_queue k s'.
Proof.
  intros [Hk Hcover] Hstep.
  destruct (_worker_thread s) as [[| |] |] eqn:Hpc.
  - unfold WorkerThread_step in Hstep. rewrite Hpc in Hstep.
    destruct s; cbn in *.
    destruct _stop_thread_flag0; cbv in Hstep; inversion Hstep; subst s';
      (split; [exact Hk | exact Hcover]).
  - destruct (ov.Wait (_queue_event s)) as [e |] eqn:Hwait.
    + pose proof (WorkerThread_step_InWait s e Hpc Hwait) as Hs.
      destruct (Wait_Some _ _ Hwait) as [Hke Hpe].
      destruct (front_packet_has_session s).
      * destruct Hs as [w Hs]. rewrite Hs in Hstep.
        inversion Hstep; subst s'.
        pose proof (queued_after_drain s) as [Hle Hlt].
        split.
        -- destruct s; cbn in *. congruence.
        -- intros Hc. specialize (Hcover Hc).
           assert (Hp : ov.pending (_queue_event s) = S (ov.pending e))
             by (apply Hpe; congruence).
           destruct s; unfold queued, after_drain in *; cbn in *. lia.
      * destruct Hs as [s'' Hs]. rewrite Hs in Hstep. discriminate.
    + unfold WorkerThread_step in Hstep. rewrite Hpc, Hwait in Hstep.
      discriminate.
  - unfold WorkerThread_step in Hstep. rewrite Hpc in Hstep. discriminate.
  - unfold WorkerThread_step in Hstep. rewrite Hpc in Hstep. discriminate.
Qed.

Lemma WorkerThread_run_covers (k : ov.EventKind) (fuel : nat) :
  forall (s s' : Application) (r : bool),
    signals_cover_queue k s ->
    WorkerThread_run fuel s = Ok r s' ->
    signals_cover_queue k s'.
Proof.
  induction fuel as [| fuel IH]; intros s s' r Hcover Hrun; cbn in Hrun.
  - destruct (_worker_thread s) as [[| |] |]; inversion Hrun; now subst.
  - assert (Hmove :
      match WorkerThread_step s with
      | Some (Ok _ s1) => WorkerThread_run fuel s1
      | Some (Abort f s1) => Abort f s1
      | None => Ok false s
      end = Ok r s' -> signals_cover_queue k s').
    { destruct (WorkerThread_step s) as [[u s1 | f s1] |] eqn:Hstep;
        intros Hmove.
      - eapply IH; [| exact Hmove].
        eapply WorkerThread_step_covers; [exact Hcover | exact Hstep].
      - discriminate.
      - inversion Hmove; now subst. }
    destruct (_worker_thread s) as [[| |] |]; auto.
    inversion Hrun; now subst.
Qed.

Lemma Notify_covers (k : ov.EventKind) (ev : ov.Event) (n : nat) :
  ov.kind ev = k ->
  (k = ov.Counting -> (n <= ov.pending ev)%nat) ->
  ov.kind (ov.Notify ev) = k /\
  (k = ov.Counting -> (S n <= ov.pending (ov.Notify ev))%nat).
Proof.
  intros Hk Hcover. unfold ov.Notify; cbn. split; [assumption |].
  intros Hc. specialize (Hcover Hc). rewrite Hk, Hc. lia.
Qed.

Lemma Stop_covers (k : ov.EventKind) (s s' : Application) (r : bool) :
  signals_cover_queue k s ->
  Stop s = Ok r s' ->
  signals_cover_queue k s'.
Proof.
  intros Hcover.
  destruct s as [flag worker streams vq aq pq ev vts ats config tr].
  assert (Hsig : forall f w, signals_cover_queue k
            (mkApplication f w streams vq aq pq (ov.Notify ev) vts ats
               config (tr ++ [QueueNotify]))).
  { intros f w. destruct Hcover as [Hk Hc]; cbn in *.
    destruct (Notify_covers k ev _ Hk Hc) as [Hk' Hc'].
    split; cbn; [assumption |]. intros Hcount.
    specialize (Hc' Hcount). unfold queued in *; cbn in *. lia. }
  destruct flag, worker as [pc |];
    unfold Stop, worker_thread_join; step_m; intros Hstop;
    try (inversion Hstop; subst s'; first [exact Hcover | apply Hsig]).
  match type of Hstop with context [WorkerThread_run join_fuel ?a] =>
    destruct (WorkerThread_run join_fuel a) as [[|] s1 | f s1] eqn:Hrun
  end; try discriminate.
  apply (WorkerThread_run_covers k _ _ _ _ (Hsig true (Some pc))) in Hrun.
  inversion Hstop; subst s'. destruct s1; exact Hrun.
Qed.

(** Every call that returns keeps the signals covering the queues. *)
Lemma run_call_covers {subclass : Subclass} (k : ov.EventKind)
    (c : Call) (s s' : Application) :
  signals_cover_queue k s ->
  run_call c s = Some s' ->
  signals_cover_queue k s'.
Proof.
  intros Hcover Hcall.
  destruct c as [| | info | info | stream media_packet
                 | stream media_packet | session_info data |];
    cbn in Hcall.
  - (* Start *)
    destruct s as [flag [pc |] streams vq aq pq ev vts ats config tr];
      unfold Start in Hcall; run_m; cbn in Hcall; inversion Hcall.
    exact Hcover.
  - (* Stop *)
    destruct (Stop s) as [r s1 | f s1] eqn:Hstop; inversion Hcall; subst.
    eapply Stop_covers; eauto.
  - (* OnCreateStream *)
    destruct s; unfold OnCreateStream in Hcall; revert Hcall; run_m.
    match goal with |- context [CreateStream ?a ?b ?c] =>
      destruct (CreateStream a b c) end; run_m;
      intros Hcall; inversion Hcall; exact Hcover.
  - (* OnDeleteStream *)
    destruct s; unfold OnDeleteStream in Hcall; revert Hcall; run_m.
    match goal with |- context [?m !! ?i] => destruct (m !! i) end; run_m.
    + match goal with |- context [DeleteStream ?a ?b] =>
        destruct (DeleteStream a b) end; run_m;
        intros Hcall; inversion Hcall; exact Hcover.
    + intros Hcall; inversion Hcall; exact Hcover.
  - (* OnSendVideoFrame *)
    destruct s as [flag worker streams vq aq pq ev vts ats config tr].
    destruct stream as [stream |], media_packet as [media_packet |];
      unfold OnSendVideoFrame, timestamp_ms in Hcall; revert Hcall; run_m;
      try discriminate.
    destruct (GetTrack stream (GetTrackId media_packet)); run_m;
      [| discriminate].
    intros Hcall; inversion Hcall; subst.
    destruct Hcover as [Hk Hc]; unfold queued in *; cbn in *.
    destruct (Notify_covers k ev _ Hk Hc) as [Hk' Hc'].
    split; cbn; [assumption |]. intros Hcount. specialize (Hc' Hcount).
    rewrite length_app; cbn in *. lia.
  - (* OnSendAudioFrame *)
    destruct s as [flag worker streams vq aq pq ev vts ats config tr].
    destruct stream as [stream |], media_packet as [media_packet |];
      unfold OnSendAudioFrame, timestamp_ms in Hcall; revert Hcall; run_m;
      try discriminate.
    destruct (GetTrack stream (GetTrackId media_packet)); run_m;
      [| discriminate].
    intros Hcall; inversion Hcall; subst.
    destruct Hcover as [Hk Hc]; unfold queued in *; cbn in *.
    destruct (Notify_covers k ev _ Hk Hc) as [Hk' Hc'].
    split; cbn; [assumption |]. intros Hcount. specialize (Hc' Hcount).
    rewrite length_app; cbn in *. lia.
  - (* PushIncomingPacket *)
    destruct s as [flag worker streams vq aq pq ev vts ats config tr].
    unfold PushIncomingPacket in Hcall; revert Hcall; run_m.
    intros Hcall; inversion Hcall; subst.
    destruct Hcover as [Hk Hc]; unfold queued in *; cbn in *.
    destruct (Notify_covers k ev _ Hk Hc) as [Hk' Hc'].
    split; cbn; [assumption |]. intros Hcount. specialize (Hc' Hcount).
    rewrite length_app; cbn in *. lia.
  - (* the worker moves *)
    destruct (WorkerThread_step s) as [[[] s1 | f s1] |] eqn:Hstep;
      inversion Hcall; subst.
    eapply WorkerThread_step_covers; eauto.
Qed.

Lemma run_calls_covers {subclass : Subclass} (k : ov.EventKind)
    (cs : list Call) :
  forall s s' : Application,
    signals_cover_queue k s ->
    run_calls cs s = Some s' ->
    signals_cover_queue k s'.
Proof.
  induction cs as [| c cs IH]; intros s s' Hcover Hrun; cbn in Hrun.
  - inversion Hrun; now subst.
  - destruct (run_call c s) as [s1 |] eqn:Hcall; [| discriminate].
    eapply IH; [| exact Hrun].
    eapply run_call_covers; [exact Hcover | exact Hcall].
Qed.


(** ** What the calls leave alone *)

(** A move of the worker changes neither the stop flag nor the registry,
    keeps the thread object joinable, and takes at most the front item off
    each queue. *)
Lemma WorkerThread_step_frame (s s' : Application) (u : unit) :
  WorkerThread_step s = Some (Ok u s') ->
  _stop_thread_flag s' = _stop_thread_flag s /\
  _streams s' = _streams s /\
  joinable (_worker_thread s') = true /\
  (_video_stream_queue s' = _video_stream_queue s \/
   _video_stream_queue s' = tail (_video_stream_queue s)) /\
  (_audio_stream_queue s' = _audio_stream_queue s \/
   _audio_stream_queue s' = tail (_audio_stream_queue s)) /\
  (_incoming_packet_queue s' = _incoming_packet_queue s \/
   _incoming_packet_queue s' = tail (_incoming_packet_queue s)).
Proof.
  intros Hstep.
  destruct (_worker_thread s) as [[| |] |] eqn:Hpc.
  - unfold WorkerThread_step in Hstep. rewrite Hpc in Hstep.
    destruct s as [flag worker streams vq aq pq ev vts ats config tr].
    destruct flag; cbv in Hstep; inversion Hstep; subst s'; cbn;
      repeat split; auto.
  - destruct (ov.Wait (_queue_event s)) as [e |] eqn:Hwait.
    + pose proof (WorkerThread_step_InWait s e Hpc Hwait) as Hs.
      destruct (front_packet_has_session s).
      * destruct Hs as [w Hs]. rewrite Hs in Hstep.
        inversion Hstep; subst s'.
        destruct s; cbn. repeat split; auto.
      * destruct Hs as [s'' Hs]. rewrite Hs in Hstep. discriminate.
    + unfold WorkerThread_step in Hstep. rewrite Hpc, Hwait in Hstep.
      discriminate.
  - unfold WorkerThread_step in Hstep. rewrite Hpc in Hstep. discriminate.
  - unfold WorkerThread_step in Hstep. rewrite Hpc in Hstep. discriminate.
Qed.

Lemma WorkerThread_run_frame (fuel : nat) :
  forall (s s' : Application) (r : bool),
    WorkerThread_run fuel s = Ok r s' ->
    _stop_thread_flag s' = _stop_thread_flag s /\
    _streams s' = _streams s /\
    (joinable (_worker_thread s) = true ->
     joinable (_worker_thread s') = true).
Proof.
  induction fuel as [| fuel IH]; intros s s' r Hrun; cbn in Hrun.
  - destruct (_worker_thread s) as [[| |] |] eqn:Hpc; inversion Hrun; subst;
      repeat split; auto; rewrite Hpc; auto.
  - assert (Hmove :
      match WorkerThread_step s with
      | Some (Ok _ s1) => WorkerThread_run fuel s1
      | Some (Abort f s1) => Abort f s1
      | None => Ok false s
      end = Ok r s' ->
      _stop_thread_flag s' = _stop_thread_flag s /\
      _streams s' = _streams s /\
      (joinable (_worker_thread s) = true ->
       joinable (_worker_thread s') = true)).
    { destruct (WorkerThread_step s) as [[u s1 | f s1] |] eqn:Hstep;
        intros Hmove.
      - destruct (WorkerThread_step_frame _ _ _ Hstep)
          as (Hf & Hm & Hj & _).
        destruct (IH _ _ _ Hmove) as (Hf' & Hm' & Hj').
        repeat split; [congruence | congruence | auto].
      - discriminate.
      - inversion Hmove; subst; repeat split; auto. }
    destruct (_worker_thread s) as [[| |] |] eqn:Hpc; auto.
    inversion Hrun; subst; repeat split; auto; rewrite Hpc; auto.
Qed.

(** A [Stop()] that returns has returned [true], leaves the stop flag set and
    the registry as it was; when the flag was clear before, no thread is
    attached afterwards. *)
Lemma Stop_frame (s s' : Application) (r : bool) :
  Stop s = Ok r s' ->
  r = true /\
  _stop_thread_flag s' = true /\
  _streams s' = _streams s /\
  (_stop_thread_flag s = false -> _worker_thread s' = None).
Proof.
  destruct s as [flag worker streams vq aq pq ev vts ats config tr].
  destruct flag, worker as [pc |];
    unfold Stop, worker_thread_join; step_m; intros Hstop;
    try (inversion Hstop; subst; repeat split; auto; discriminate).
  match type of Hstop with context [WorkerThread_run join_fuel ?a] =>
    destruct (WorkerThread_run join_fuel a) as [[|] s1 | f s1] eqn:Hrun
  end; try discriminate.
  apply WorkerThread_run_frame in Hrun as (Hf & Hm & _).
  inversion Hstop; subst; cbn in *. repeat split; auto.
Qed.

(** X1. Stopping twice: whenever [Stop()] has returned, a further [Stop()],
    and so the destructor, returns at once and changes nothing, whatever the
    state was before the first call. *)
Theorem Stop_twice (s s' : Application) (r : bool) :
  Stop s = Ok r s' ->
  Stop s' = Ok true s' /\ Application_destroy s' = Ok tt s'.
Proof.
  intros Hstop. apply Stop_frame in Hstop as (_ & Hflag & _).
  destruct s'; cbn in Hflag; subst.
  split; reflexivity.
Qed.

Lemma Stop_twice_witness :
  exists s',
    Stop Scenario.app_running = Ok true s' /\
    Stop s' = Ok true s' /\ Application_destroy s' = Ok tt s'.
Proof.
  eexists.
  match goal with |- ?R = Ok true ?a /\ _ =>
    let v := eval vm_compute in R in
    match v with Ok true ?b => unify a b end end.
  split; [reflexivity |].
  match goal with |- Stop ?a = _ /\ _ =>
    exact (Stop_twice Scenario.app_running a true eq_refl) end.
Defined.

(** X2. Restarting: after a [Stop()] on an application whose stop flag was
    clear, no worker is attached, so [Start()] returns [true] with a fresh
    worker at the head of its loop and the flag clear again; the registry is
    the one from before the [Stop()]. *)
Theorem Start_after_Stop (s s' : Application) (r : bool) :
  _stop_thread_flag s = false ->
  Stop s = Ok r s' ->
  exists s'',
    Start s' = Ok true s'' /\
    _stop_thread_flag s'' = false /\
    _worker_thread s'' = Some LoopHead /\
    spawned s'' = S (spawned s') /\
    _streams s'' = _streams s.
Proof.
  intros Hflag Hstop.
  apply Stop_frame in Hstop as (_ & _ & Hm & Hw). specialize (Hw Hflag).
  destruct s' as [flag' worker' streams' vq aq pq ev vts ats config tr];
    cbn in *; subst.
  unfold Start, spawned; run_m.
  eexists; split; [reflexivity |]; cbn.
  repeat split. rewrite List.filter_app, length_app; cbn. lia.
Qed.

Lemma Start_after_Stop_witness :
  exists s' s'',
    Stop Scenario.app_running = Ok true s' /\
    Start s' = Ok true s'' /\
    _stop_thread_flag s'' = false /\
    _worker_thread s'' = Some LoopHead /\
    spawned s'' = S (spawned s') /\
    _streams s'' = _streams Scenario.app_running.
Proof.
  eexists.
  match goal with |- exists s'', ?R = Ok true ?a /\ _ =>
    let v := eval vm_compute in R in
    match v with Ok true ?b => unify a b end end.
  match goal with |- exists s'', _ = Ok true ?a /\ _ =>
    destruct (Start_after_Stop Scenario.app_running a true eq_refl eq_refl)
      as (s'' & H)
  end.
  exists s''. split; [reflexivity | exact H].
Defined.


(** ** What one pass does *)

Lemma pushes_app (q : Queue) (t w : list Action) :
  pushes q (t ++ w) = (pushes q t + pushes q w)%nat.
Proof. unfold pushes. now rewrite List.filter_app, length_app. Qed.

Lemma pops_app (q : Queue) (t w : list Action) :
  pops q (t ++ w) = (pops q t + pops q w)%nat.
Proof. unfold pops. now rewrite List.filter_app, length_app. Qed.

(** The video part of a pass: the front item, if any, leaves the queue and
    goes where [route] says; nothing else happens. *)
Lemma WorkerThread_video_acts (s : Application) :
  exists w,
    WorkerThread_video s
    = Ok tt (set_trace (trace s ++ w)
               (set_video_stream_queue (tail (_video_stream_queue s)) s)) /\
    sent_video w = omap (route (_streams s)) (take 1 (_video_stream_queue s)) /\
    sent_audio w = [] /\ received w = [] /\ stopped w = [] /\
    (forall q, pushes q w = 0%nat) /\
    (forall q, pops q w = if Queue_eqb q video_stream_queue
                          then length (take 1 (_video_stream_queue s))
                          else 0%nat).
Proof.
  destruct s as [flag worker streams vq aq pq ev vts ats config tr].
  unfold WorkerThread_video, PopVideoStreamData, SendVideoFrame, GetStream,
    route.
  destruct vq as [| [[info |] [media_packet |]] rest]; run_m.
  2: destruct (streams !! GetId info); run_m.
  all: eexists; split; [reflexivity |]; cbn.
  all: repeat split; try reflexivity; intros []; reflexivity.
Qed.

Lemma WorkerThread_audio_acts (s : Application) :
  exists w,
    WorkerThread_audio s
    = Ok tt (set_trace (trace s ++ w)
               (set_audio_stream_queue (tail (_audio_stream_queue s)) s)) /\
    sent_audio w = omap (route (_streams s)) (take 1 (_audio_stream_queue s)) /\
    sent_video w = [] /\ received w = [] /\ stopped w = [] /\
    (forall q, pushes q w = 0%nat) /\
    (forall q, pops q w = if Queue_eqb q audio_stream_queue
                          then length (take 1 (_audio_stream_queue s))
                          else 0%nat).
Proof.
  destruct s as [flag worker streams vq aq pq ev vts ats config tr].
  unfold WorkerThread_audio, PopAudioStreamData, SendAudioFrame, GetStream,
    route.
  destruct aq as [| [[info |] [media_packet |]] rest]; run_m.
  2: destruct (streams !! GetId info); run_m.
  all: eexists; split; [reflexivity |]; cbn.
  all: repeat split; try reflexivity; intros []; reflexivity.
Qed.

Lemma WorkerThread_packet_acts (s : Application) :
  if front_packet_has_session s
  then exists w,
      WorkerThread_packet s
      = Ok tt (set_trace (trace s ++ w)
                 (set_incoming_packet_queue
                    (tail (_incoming_packet_queue s)) s)) /\
      received w = omap delivery (take 1 (_incoming_packet_queue s)) /\
      sent_video w = [] /\ sent_audio w = [] /\ stopped w = [] /\
      (forall q, pushes q w = 0%nat) /\
      (forall q, pops q w = if Queue_eqb q incoming_packet_queue
                            then length (take 1 (_incoming_packet_queue s))
                            else 0%nat)
  else exists s', WorkerThread_packet s = Abort NullDereference s'.
Proof.
  destruct s as [flag worker streams vq aq pq ev vts ats config tr].
  unfold WorkerThread_packet, PopIncomingPacket, OnPacketReceived,
    front_packet_has_session, delivery.
  destruct pq as [| [[session |] data] rest]; run_m.
  3: eexists; reflexivity.
  all: eexists; split; [reflexivity |]; cbn.
  all: repeat split; try reflexivity; intros []; reflexivity.
Qed.

(** The whole body after [Wait()], from its three parts. *)
Lemma WorkerThread_drain_acts (s : Application) :
  if front_packet_has_session s
  then exists w,
      WorkerThread_drain s = Ok tt (set_trace (trace s ++ w) (after_drain s)) /\
      sent_video w
      = omap (route (_streams s)) (take 1 (_video_stream_queue s)) /\
      sent_audio w
      = omap (route (_streams s)) (take 1 (_audio_stream_queue s)) /\
      received w = omap delivery (take 1 (_incoming_packet_queue s)) /\
      stopped w = [] /\
      (forall q, pushes q w = 0%nat) /\
      pops video_stream_queue w = length (take 1 (_video_stream_queue s)) /\
      pops audio_stream_queue w = length (take 1 (_audio_stream_queue s)) /\
      pops incoming_packet_queue w
      = length (take 1 (_incoming_packet_queue s))
  else exists s', WorkerThread_drain s = Abort NullDereference s'.
Proof.
  destruct s as [flag worker streams vq aq pq ev vts ats config tr].
  unfold WorkerThread_drain; cbv [mbind M_bind].
  match goal with |- context [WorkerThread_video ?a] =>
    destruct (WorkerThread_video_acts a)
      as (w1 & E1 & Hv1 & Ha1 & Hr1 & Hs1 & Hpu1 & Hpo1) end.
  cbn in E1, Hv1, Hpo1.
  match goal with |- context [front_packet_has_session ?a] =>
    change (front_packet_has_session a)
      with (match pq with
            | [] => true
            | packet :: _ =>
                match _session_info packet with
                | Some _ => true
                | None => false
                end
            end) end.
  rewrite E1.
  match goal with |- context [WorkerThread_audio ?a] =>
    destruct (WorkerThread_audio_acts a)
      as (w2 & E2 & Ha2 & Hv2 & Hr2 & Hs2 & Hpu2 & Hpo2) end.
  cbn in E2, Ha2, Hpo2. rewrite E2.
  match goal with |- context [WorkerThread_packet ?a] =>
    pose proof (WorkerThread_packet_acts a) as Hp end.
  unfold front_packet_has_session in Hp; cbn in Hp.
  destruct (match pq with
            | [] => true
            | packet :: _ =>
                match _session_info packet with
                | Some _ => true
                | None => false
                end
            end).
  - destruct Hp as (w3 & E3 & Hr3 & Hv3 & Ha3 & Hs3 & Hpu3 & Hpo3).
    rewrite E3. exists (w1 ++ w2 ++ w3).
    unfold after_drain; cbn. rewrite <- !app_assoc.
    split; [reflexivity |].
    unfold sent_video, sent_audio, received, stopped in *.
    rewrite !omap_app, Hv1, Hv2, Hv3, Ha1, Ha2, Ha3, Hr1, Hr2, Hr3,
      Hs1, Hs2, Hs3, !app_nil_r; cbn.
    repeat split; try reflexivity.
    + intros q. now rewrite !pushes_app, Hpu1, Hpu2, Hpu3.
    + rewrite !pops_app, Hpo1, Hpo2, Hpo3; cbn. lia.
    + rewrite !pops_app, Hpo1, Hpo2, Hpo3; cbn. lia.
    + rewrite !pops_app, Hpo1, Hpo2, Hpo3; cbn. lia.
  - destruct Hp as (s' & E3). rewrite E3. eexists; reflexivity.
Qed.

(** ** What the calls add to the trace *)

(** Reads the members off a state built by setters. *)
Ltac members :=
  cbn [_stop_thread_flag _worker_thread _streams _video_stream_queue
       _audio_stream_queue _incoming_packet_queue _queue_event
       _last_video_ts_ms _last_audio_ts_ms _app_config trace
       set_stop_thread_flag set_worker_thread set_streams
       set_video_stream_queue set_audio_stream_queue
       set_incoming_packet_queue set_queue_event set_last_video_ts_ms
       set_last_audio_ts_ms set_trace after_drain queue_length].

Ltac members_in H :=
  cbn [_stop_thread_flag _worker_thread _streams _video_stream_queue
       _audio_stream_queue _incoming_packet_queue _queue_event
       _last_video_ts_ms _last_audio_ts_ms _app_config trace
       set_stop_thread_flag set_worker_thread set_streams
       set_video_stream_queue set_audio_stream_queue
       set_incoming_packet_queue set_queue_event set_last_video_ts_ms
       set_last_audio_ts_ms set_trace] in H.

Lemma stopped_app (t w : list Action) :
  stopped (t ++ w) = stopped t ++ stopped w.
Proof. unfold stopped. apply omap_app. Qed.

Lemma worker_only_refl (s : Application) : worker_only s s.
Proof.
  exists []. rewrite app_nil_r. repeat split; reflexivity.
Qed.

Lemma worker_only_trans (s1 s2 s3 : Application) :
  worker_only s1 s2 -> worker_only s2 s3 -> worker_only s1 s3.
Proof.
  intros (w1 & Ht1 & Hs1 & Hq1) (w2 & Ht2 & Hs2 & Hq2).
  exists (w1 ++ w2). rewrite Ht2, Ht1, app_assoc.
  split; [reflexivity |]. split.
  - now rewrite stopped_app, Hs1, Hs2.
  - intros q. destruct (Hq1 q) as [Hp1 Hl1], (Hq2 q) as [Hp2 Hl2].
    rewrite pushes_app, pops_app. lia.
Qed.

Lemma WorkerThread_step_only (s s' : Application) (u : unit) :
  WorkerThread_step s = Some (Ok u s') -> worker_only s s'.
Proof.
  intros Hstep. unfold WorkerThread_step in Hstep.
  destruct s as [flag [[| |] |] streams vq aq pq ev vts ats config tr];
    cbn in Hstep; try discriminate.
  - destruct flag; cbv in Hstep; inversion Hstep; subst s'.
    + exists [ThreadExit]. repeat split; try reflexivity; lia.
    + exists []. cbn. rewrite app_nil_r. repeat split; reflexivity.
  - destruct (ov.Wait ev) as [e |]; [| discriminate].
    revert Hstep. cbv [mbind M_bind modify act]. intros Hstep.
    match type of Hstep with context [WorkerThread_drain ?a] =>
      pose proof (WorkerThread_drain_acts a) as Hd end.
    destruct (front_packet_has_session _).
    + destruct Hd as (w & Hrun & _ & _ & _ & Hs & Hpu & Hpv & Hpa & Hpp).
      rewrite Hrun in Hstep. inversion Hstep; subst s'.
      exists (QueueWait :: w). members. rewrite <- app_assoc.
      split; [reflexivity |]. split; [exact Hs |].
      intros q. split; [exact (Hpu q) |].
      change (pops q (QueueWait :: w)) with (pops q w).
      members_in Hpv. members_in Hpa. members_in Hpp.
      destruct q; members;
        [rewrite Hpv; destruct vq | rewrite Hpa; destruct aq
         | rewrite Hpp; destruct pq]; cbn; rewrite ?take_0; cbn; lia.
    + destruct Hd as (s'' & Hrun). rewrite Hrun in Hstep. discriminate.
Qed.

Lemma WorkerThread_run_only (fuel : nat) :
  forall (s s' : Application) (r : bool),
    WorkerThread_run fuel s = Ok r s' -> worker_only s s'.
Proof.
  induction fuel as [| fuel IH]; intros s s' r Hrun; cbn in Hrun.
  - destruct (_worker_thread s) as [[| |] |]; inversion Hrun; subst;
      apply worker_only_refl.
  - assert (Hmove :
      match WorkerThread_step s with
      | Some (Ok _ s1) => WorkerThread_run fuel s1
      | Some (Abort f s1) => Abort f s1
      | None => Ok false s
      end = Ok r s' -> worker_only s s').
    { destruct (WorkerThread_step s) as [[u s1 | f s1] |] eqn:Hstep;
        intros Hmove.
      - eapply worker_only_trans;
          [eapply WorkerThread_step_only; exact Hstep | eapply IH; eauto].
      - discriminate.
      - inversion Hmove; subst. apply worker_only_refl. }
    destruct (_worker_thread s) as [[| |] |]; auto.
    inversion Hrun; subst. apply worker_only_refl.
Qed.

(** What [Stop()] adds to the trace is a signal, moves of the worker, and a
    join. *)
Lemma Stop_effect (s s' : Application) (r : bool) :
  Stop s = Ok r s' ->
  exists w,
    trace s' = trace s ++ w /\
    stopped w = [] /\
    forall q, pushes q w = 0%nat /\
              queue_length q s = (pops q w + queue_length q s')%nat.
Proof.
  destruct s as [flag worker streams vq aq pq ev vts ats config tr].
  destruct flag, worker as [pc |];
    unfold Stop, worker_thread_join; step_m; intros Hstop.
  1, 2: inversion Hstop; subst; exists []; rewrite app_nil_r;
    repeat split; reflexivity.
  - match type of Hstop with context [WorkerThread_run join_fuel ?a] =>
      destruct (WorkerThread_run join_fuel a) as [[|] s1 | f s1] eqn:Hrun
    end; try discriminate.
    apply WorkerThread_run_only in Hrun as (w & Ht & Hs & Hq).
    destruct s1 as [flag1 worker1 streams1 vq1 aq1 pq1 ev1 vts1 ats1
                    config1 tr1].
    members_in Ht. subst tr1.
    cbv beta iota in Hstop. inversion Hstop; subst s'.
    exists (QueueNotify :: w ++ [ThreadJoin]). members.
    rewrite <- !app_assoc. split; [reflexivity |].
    split.
    + change (stopped (QueueNotify :: w ++ [ThreadJoin]))
        with (stopped (w ++ [ThreadJoin])).
      now rewrite stopped_app, Hs.
    + intros q. destruct (Hq q) as [Hpu Hl].
      change (pushes q (QueueNotify :: w ++ [ThreadJoin]))
        with (pushes q (w ++ [ThreadJoin])).
      change (pops q (QueueNotify :: w ++ [ThreadJoin]))
        with (pops q (w ++ [ThreadJoin])).
      rewrite pushes_app, pops_app, Hpu.
      destruct q; cbn in *; lia.
  - inversion Hstop; subst s'. exists [QueueNotify].
    repeat split; reflexivity.
Qed.

(** What a call that returns adds to the trace: the [Stop()] calls on
    streams listed by [stops_of], and pushes and pops that account for the
    change of every queue's length. *)
Lemma run_call_effect {subclass : Subclass} (c : Call) (s s' : Application) :
  run_call c s = Some s' ->
  exists w,
    trace s' = trace s ++ w /\
    stopped w = stops_of c s /\
    forall q, (queue_length q s + pushes q w
               = pops q w + queue_length q s')%nat.
Proof.
  intros Hcall.
  destruct c as [| | info | info | stream media_packet
                 | stream media_packet | session_info data |];
    cbn in Hcall.
  - (* Start *)
    destruct s as [flag [pc |] streams vq aq pq ev vts ats config tr];
      unfold Start in Hcall; run_m; cbn in Hcall; inversion Hcall.
    exists [ThreadSpawn]. repeat split. intros []; cbn; lia.
  - (* Stop *)
    destruct (Stop s) as [r s1 | f s1] eqn:Hstop; inversion Hcall; subst.
    destruct (Stop_effect _ _ _ Hstop) as (w & Ht & Hs & Hq).
    exists w. repeat split; try assumption.
    intros q. destruct (Hq q) as [Hpu Hl]. lia.
  - (* OnCreateStream *)
    destruct s; unfold OnCreateStream in Hcall; revert Hcall; run_m.
    match goal with |- context [CreateStream ?a ?b ?c] =>
      destruct (CreateStream a b c) end; run_m;
      intros Hcall; inversion Hcall; eexists;
      (split; [reflexivity |]); (split; [reflexivity |]);
      intros []; cbn; lia.
  - (* OnDeleteStream *)
    destruct s; unfold OnDeleteStream, stops_of, before_DeleteStream in *;
      revert Hcall; run_m.
    match goal with |- context [?m !! ?i] => destruct (m !! i) end; run_m.
    + match goal with |- context [DeleteStream ?a ?b] =>
        destruct (DeleteStream a b) end; run_m;
        intros Hcall; inversion Hcall; eexists;
        (split; [reflexivity |]); (split; [reflexivity |]);
        intros []; cbn; lia.
    + intros Hcall; inversion Hcall; eexists;
        (split; [reflexivity |]); (split; [reflexivity |]);
        intros []; cbn; lia.
  - (* OnSendVideoFrame *)
    destruct s as [flag worker streams vq aq pq ev vts ats config tr].
    destruct stream as [stream |], media_packet as [media_packet |];
      unfold OnSendVideoFrame, timestamp_ms in Hcall; revert Hcall; run_m;
      try discriminate.
    destruct (GetTrack stream (GetTrackId media_packet)); run_m;
      [| discriminate].
    intros Hcall; inversion Hcall; eexists;
      (split; [reflexivity |]); (split; [reflexivity |]).
    intros []; cbn; rewrite ?length_app; cbn; lia.
  - (* OnSendAudioFrame *)
    destruct s as [flag worker streams vq aq pq ev vts ats config tr].
    destruct stream as [stream |], media_packet as [media_packet |];
      unfold OnSendAudioFrame, timestamp_ms in Hcall; revert Hcall; run_m;
      try discriminate.
    destruct (GetTrack stream (GetTrackId media_packet)); run_m;
      [| discriminate].
    intros Hcall; inversion Hcall; eexists;
      (split; [reflexivity |]); (split; [reflexivity |]).
    intros []; cbn; rewrite ?length_app; cbn; lia.
  - (* PushIncomingPacket *)
    destruct s as [flag worker streams vq aq pq ev vts ats config tr].
    unfold PushIncomingPacket in Hcall; revert Hcall; run_m.
    intros Hcall; inversion Hcall; eexists;
      (split; [reflexivity |]); (split; [reflexivity |]).
    intros []; cbn; rewrite ?length_app; cbn; lia.
  - (* the worker moves *)
    destruct (WorkerThread_step s) as [[[] s1 | f s1] |] eqn:Hstep;
      inversion Hcall; subst.
    destruct (WorkerThread_step_only _ _ _ Hstep) as (w & Ht & Hs & Hq).
    exists w. repeat split; try assumption.
    intros q. destruct (Hq q) as [Hpu Hl]. lia.
Qed.

(** X4. The only [Stop()] the application ever calls on a stream is the one
    in [OnDeleteStream], on the stream it has just taken out of the registry
    with the hook's agreement, once.  No other call stops a stream: not a
    dispatch pass, not [Stop()] of the application, and not [OnCreateStream]
    when it replaces a registered stream. *)
Theorem Stream_Stop_only_on_delete {subclass : Subclass}
    (c : Call) (s s' : Application) :
  run_call c s = Some s' ->
  stopped (trace s') = stopped (trace s) ++ stops_of c s /\
  (forall stream, In stream (stops_of c s) ->
     exists info, c = call_OnDeleteStream info /\
                  _streams s !! GetId info = Some stream /\
                  _streams s' !! GetId info = None).
Proof.
  intros Hcall.
  destruct (run_call_effect c s s' Hcall) as (w & Ht & Hs & _).
  split; [now rewrite Ht, stopped_app, Hs |].
  intros stream Hin. destruct c; try contradiction.
  cbn in Hin. exists info. split; [reflexivity |].
  destruct (_streams s !! GetId info) as [registered |] eqn:Hfind;
    [| contradiction].
  destruct (DeleteStream (before_DeleteStream s) info) eqn:Hhook;
    [| contradiction].
  destruct Hin as [<- | []]. split; [reflexivity |].
  destruct s; unfold before_DeleteStream, set_trace in Hhook; cbn in *.
  revert Hcall. unfold OnDeleteStream; run_m. rewrite Hfind; run_m.
  rewrite Hhook; run_m.
  intros Hcall; inversion Hcall; cbn. apply lookup_delete_eq.
Qed.

Lemma Stream_Stop_only_on_delete_witness :
  exists s',
    run_call (subclass := Scenario.numbering)
      (call_OnDeleteStream Scenario.info7) Scenario.app_with_7 = Some s' /\
    stopped (trace s') = [0%nat] /\
    _streams s' !! 7%N = None.
Proof.
  eexists.
  match goal with |- ?R = Some ?a /\ _ =>
    let v := eval vm_compute in R in
    match v with Some ?b => unify a b end end.
  split; [reflexivity |].
  match goal with |- stopped (trace ?a) = _ /\ _ =>
    destruct (Stream_Stop_only_on_delete (subclass := Scenario.numbering)
                (call_OnDeleteStream Scenario.info7) Scenario.app_with_7 a
                eq_refl) as [Hstopped Hwhich]
  end.
  split; [exact Hstopped |].
  destruct (Hwhich 0%nat (or_introl eq_refl)) as (info & Hc & _ & Hgone).
  inversion Hc; subst. exact Hgone.
Defined.

(** X6. The registry belongs to [OnCreateStream] and [OnDeleteStream]: every
    other call, and every move of the worker, leaves it exactly as it was,
    and those two change at most the entry of the id they are called
    with. *)
Theorem registry_changes_only_at_id {subclass : Subclass}
    (c : Call) (s s' : Application) :
  run_call c s = Some s' ->
  match c with
  | call_OnCreateStream info | call_OnDeleteStream info =>
      forall id, id <> GetId info -> _streams s' !! id = _streams s !! id
  | _ => _streams s' = _streams s
  end.
Proof.
  intros Hcall.
  destruct c as [| | info | info | stream media_packet
                 | stream media_packet | session_info data |];
    cbn in Hcall.
  - destruct s as [flag [pc |] streams vq aq pq ev vts ats config tr];
      unfold Start in Hcall; run_m; cbn in Hcall; inversion Hcall.
    reflexivity.
  - destruct (Stop s) as [r s1 | f s1] eqn:Hstop; inversion Hcall; subst.
    now apply Stop_frame in Hstop as (_ & _ & Hm & _).
  - destruct s; unfold OnCreateStream in Hcall; revert Hcall; run_m.
    match goal with |- context [CreateStream ?a ?b ?c] =>
      destruct (CreateStream a b c) end; run_m;
      intros Hcall; inversion Hcall; intros id Hid; cbn;
      [now apply lookup_insert_ne | reflexivity].
  - destruct s; unfold OnDeleteStream in Hcall; revert Hcall; run_m.
    match goal with |- context [?m !! ?i] => destruct (m !! i) end; run_m.
    + match goal with |- context [DeleteStream ?a ?b] =>
        destruct (DeleteStream a b) end; run_m;
        intros Hcall; inversion Hcall; intros id Hid; cbn;
        [now apply lookup_delete_ne | reflexivity].
    + intros Hcall; inversion Hcall; reflexivity.
  - destruct s as [flag worker streams vq aq pq ev vts ats config tr].
    destruct stream as [stream |], media_packet as [media_packet |];
      unfold OnSendVideoFrame, timestamp_ms in Hcall; revert Hcall; run_m;
      try discriminate.
    destruct (GetTrack stream (GetTrackId media_packet)); run_m;
      [| discriminate].
    intros Hcall; inversion Hcall; reflexivity.
  - destruct s as [flag worker streams vq aq pq ev vts ats config tr].
    destruct stream as [stream |], media_packet as [media_packet |];
      unfold OnSendAudioFrame, timestamp_ms in Hcall; revert Hcall; run_m;
      try discriminate.
    destruct (GetTrack stream (GetTrackId media_packet)); run_m;
      [| discriminate].
    intros Hcall; inversion Hcall; reflexivity.
  - destruct s as [flag worker streams vq aq pq ev vts ats config tr].
    unfold PushIncomingPacket in Hcall; revert Hcall; run_m.
    intros Hcall; inversion Hcall; reflexivity.
  - destruct (WorkerThread_step s) as [[[] s1 | f s1] |] eqn:Hstep;
      inversion Hcall; subst.
    now apply WorkerThread_step_frame in Hstep as (_ & Hm & _).
Qed.

Lemma registry_changes_only_at_id_witness :
  exists s',
    run_call (subclass := Scenario.numbering)
      (call_OnDeleteStream (mkInfoStream 8 ∅)) Scenario.app_with_7
    = Some s' /\
    _streams s' !! 7%N = Some 0%nat.
Proof.
  eexists.
  match goal with |- ?R = Some ?a /\ _ =>
    let v := eval vm_compute in R in
    match v with Some ?b => unify a b end end.
  split; [reflexivity |].
  match goal with |- _streams ?a !! _ = _ =>
    pose proof (registry_changes_only_at_id (subclass := Scenario.numbering)
                  (call_OnDeleteStream (mkInfoStream 8 ∅))
                  Scenario.app_with_7 a eq_refl 7%N) as Hkept
  end.
  transitivity (_streams Scenario.app_with_7 !! 7%N); [| reflexivity].
  apply Hkept. discriminate.
Defined.

(** ** Order of delivery *)

Lemma sent_video_app (t w : list Action) :
  sent_video (t ++ w) = sent_video t ++ sent_video w.
Proof. unfold sent_video. apply omap_app. Qed.

Lemma sent_audio_app (t w : list Action) :
  sent_audio (t ++ w) = sent_audio t ++ sent_audio w.
Proof. unfold sent_audio. apply omap_app. Qed.

Lemma video_passes_in_order (q : list VideoStreamData) :
  forall s : Application,
    _video_stream_queue s = q ->
    exists w,
      passes (length q) WorkerThread_video s
      = Ok tt (set_trace (trace s ++ w) (set_video_stream_queue [] s)) /\
      sent_video w = omap (route (_streams s)) q /\
      sent_audio w = [] /\ received w = [] /\ stopped w = [].
Proof.
  induction q as [| data rest IH]; intros s Hq.
  - exists []. destruct s; cbn in *; subst. rewrite app_nil_r.
    repeat split; reflexivity.
  - destruct (WorkerThread_video_acts s)
      as (w1 & E1 & Hv1 & Ha1 & Hr1 & Hs1 & _).
    rewrite Hq in E1, Hv1. cbn [tail] in E1.
    destruct (IH (set_trace (trace s ++ w1) (set_video_stream_queue rest s)))
      as (w2 & E2 & Hv2 & Ha2 & Hr2 & Hs2); [now destruct s |].
    exists (w1 ++ w2).
    cbn [passes length]. cbv [mbind M_bind]. rewrite E1, E2.
    split; [destruct s; cbn; now rewrite <- app_assoc |].
    unfold sent_audio, received, stopped in *.
    rewrite sent_video_app, !omap_app, Hv1, Hv2, Ha1, Ha2, Hr1, Hr2,
      Hs1, Hs2.
    repeat split; try reflexivity.
    destruct s; cbn. now destruct (route _ data).
Qed.

Lemma audio_passes_in_order (q : list AudioStreamData) :
  forall s : Application,
    _audio_stream_queue s = q ->
    exists w,
      passes (length q) WorkerThread_audio s
      = Ok tt (set_trace (trace s ++ w) (set_audio_stream_queue [] s)) /\
      sent_audio w = omap (route (_streams s)) q /\
      sent_video w = [] /\ received w = [] /\ stopped w = [].
Proof.
  induction q as [| data rest IH]; intros s Hq.
  - exists []. destruct s; cbn in *; subst. rewrite app_nil_r.
    repeat split; reflexivity.
  - destruct (WorkerThread_audio_acts s)
      as (w1 & E1 & Ha1 & Hv1 & Hr1 & Hs1 & _).
    rewrite Hq in E1, Ha1. cbn [tail] in E1.
    destruct (IH (set_trace (trace s ++ w1) (set_audio_stream_queue rest s)))
      as (w2 & E2 & Ha2 & Hv2 & Hr2 & Hs2); [now destruct s |].
    exists (w1 ++ w2).
    cbn [passes length]. cbv [mbind M_bind]. rewrite E1, E2.
    split; [destruct s; cbn; now rewrite <- app_assoc |].
    unfold sent_video, received, stopped in *.
    rewrite sent_audio_app, !omap_app, Hv1, Hv2, Ha1, Ha2, Hr1, Hr2,
      Hs1, Hs2.
    repeat split; try reflexivity.
    destruct s; cbn. now destruct (route _ data).
Qed.

(** X7. First in, first out: as many video passes as the video queue has
    items empty it and hand the items to their streams in the order in which
    they were queued, leaving out exactly those whose stream or packet
    pointer is null or whose id is not registered; no audio frame, packet or
    [Stop()] is issued on the way and no other member changes.  The same
    holds for the audio queue. *)
Theorem frames_in_order (s : Application) :
  (exists s',
      passes (length (_video_stream_queue s)) WorkerThread_video s
      = Ok tt s' /\
      s' = set_trace (trace s') (set_video_stream_queue [] s) /\
      sent_video (trace s')
      = sent_video (trace s)
          ++ omap (route (_streams s)) (_video_stream_queue s) /\
      sent_audio (trace s') = sent_audio (trace s)) /\
  (exists s',
      passes (length (_audio_stream_queue s)) WorkerThread_audio s
      = Ok tt s' /\
      s' = set_trace (trace s') (set_audio_stream_queue [] s) /\
      sent_audio (trace s')
      = sent_audio (trace s)
          ++ omap (route (_streams s)) (_audio_stream_queue s) /\
      sent_video (trace s') = sent_video (trace s)).
Proof.
  split.
  - destruct (video_passes_in_order (_video_stream_queue s) s eq_refl)
      as (w & Hrun & Hv & Ha & _).
    eexists. split; [exact Hrun |].
    destruct s; cbn. split; [reflexivity |].
    now rewrite sent_video_app, sent_audio_app, Hv, Ha, app_nil_r.
  - destruct (audio_passes_in_order (_audio_stream_queue s) s eq_refl)
      as (w & Hrun & Ha & Hv & _).
    eexists. split; [exact Hrun |].
    destruct s; cbn. split; [reflexivity |].
    now rewrite sent_video_app, sent_audio_app, Hv, Ha, app_nil_r.
Qed.

(** ** Frames and the registry *)

(** X8. Frames follow the registry.  A video frame submitted for an id right
    after that id's [OnCreateStream] returned [true] is handed to the stream
    the creation hook produced: whatever was queued before it, the video
    passes that empty the queue first route the older frames by the registry
    as the creation left it and then hand this frame, last, to the new
    stream.  Submitted right after that id's [OnDeleteStream] returned
    [true], the frame is taken off the queue in its turn and handed to
    nobody. *)
Theorem frames_follow_registry {subclass : Subclass}
    (s s1 s2 : Application) (info : InfoStream) (media_packet : MediaPacket) :
  OnSendVideoFrame (Some info) (Some media_packet) s1 = Ok true s2 ->
  (OnCreateStream info s = Ok true s1 ->
   exists stream s3,
     CreateStream s info (cfg.GetThreadCount (_app_config s)) = Some stream /\
     passes (S (length (_video_stream_queue s))) WorkerThread_video s2
     = Ok tt s3 /\
     _video_stream_queue s3 = [] /\
     sent_video (trace s3)
     = sent_video (trace s2)
         ++ omap (route (_streams s1)) (_video_stream_queue s)
         ++ [(stream, media_packet)])
  /\
  (OnDeleteStream info s = Ok true s1 ->
   exists s3,
     passes (S (length (_video_stream_queue s))) WorkerThread_video s2
     = Ok tt s3 /\
     _video_stream_queue s3 = [] /\
     sent_video (trace s3)
     = sent_video (trace s2)
         ++ omap (route (_streams s1)) (_video_stream_queue s)).
Proof.
  intros Hsend.
  destruct (video_passes_in_order (_video_stream_queue s2) s2 eq_refl)
    as (w & Hrun & Hv & _).
  assert (Hs2 : _streams s2 = _streams s1 /\
                _video_stream_queue s2
                = _video_stream_queue s1
                    ++ [mkStreamData (Some info) (Some media_packet)]).
  { revert Hsend. destruct s1.
    unfold OnSendVideoFrame, timestamp_ms; run_m.
    destruct (GetTrack info (GetTrackId media_packet)); run_m;
      [| discriminate].
    intros Heq; inversion Heq; subst; cbn. split; reflexivity. }
  destruct Hs2 as [Hm2 Hq2].
  rewrite Hq2, Hm2, omap_app in Hv.
  rewrite Hq2, length_app, Nat.add_1_r in Hrun.
  cbn [omap list_omap] in Hv. unfold route at 2 in Hv.
  cbn [_stream _media_packet] in Hv.
  split.
  - intros Hcreate.
    assert (exists stream,
               CreateStream s info (cfg.GetThreadCount (_app_config s))
               = Some stream /\
               _streams s1 = <[GetId info := stream]> (_streams s) /\
               _video_stream_queue s1 = _video_stream_queue s)
      as (stream & Hhook & Hm & Hq1).
    { revert Hcreate. destruct s.
      unfold OnCreateStream; run_m.
      match goal with |- context [CreateStream ?a ?b ?c] =>
        destruct (CreateStream a b c) as [stream |] end; run_m;
        intros Heq; inversion Heq; subst.
      exists stream. repeat split; reflexivity. }
    rewrite Hq1 in Hv, Hrun.
    rewrite Hm, lookup_insert_eq, <- Hm in Hv.
    exists stream. eexists. split; [exact Hhook |].
    split; [exact Hrun |].
    destruct s2; cbn. split; [reflexivity |].
    now rewrite sent_video_app, Hv.
  - intros Hdelete.
    assert (_streams s1 !! GetId info = None /\
            _video_stream_queue s1 = _video_stream_queue s) as (Hm & Hq1).
    { revert Hdelete. destruct s.
      unfold OnDeleteStream; run_m.
      match goal with |- context [?m !! ?i] => destruct (m !! i) end; run_m.
      - match goal with |- context [DeleteStream ?a ?b] =>
          destruct (DeleteStream a b) end; run_m;
          intros Heq; inversion Heq; subst; cbn.
        split; [apply lookup_delete_eq | reflexivity].
      - intros Heq; inversion Heq. }
    rewrite Hq1 in Hv, Hrun. rewrite Hm, app_nil_r in Hv.
    eexists. split; [exact Hrun |].
    destruct s2; cbn. split; [reflexivity |].
    now rewrite sent_video_app, Hv.
Qed.

Lemma frames_follow_registry_witness :
  exists s0 s1 s2 s3,
    OnSendVideoFrame (Some Scenario.info7) (Some (mkMediaPacket 3000 0))
      Scenario.app0 = Ok true s0 /\
    OnCreateStream (subclass := Scenario.numbering) Scenario.info7 s0
    = Ok true s1 /\
    OnSendVideoFrame (Some Scenario.info7) (Some Scenario.packet1) s1
    = Ok true s2 /\
    passes 2 WorkerThread_video s2 = Ok tt s3 /\
    _video_stream_queue s3 = [] /\
    sent_video (trace s3)
    = [(0%nat, mkMediaPacket 3000 0); (0%nat, Scenario.packet1)].
Proof.
  eexists.
  match goal with |- exists s1 s2 s3, ?R = Ok true ?a /\ _ =>
    let v := eval vm_compute in R in
    match v with Ok true ?b => unify a b end end.
  eexists.
  match goal with |- exists s2 s3, _ /\ ?R = Ok true ?a /\ _ =>
    let v := eval vm_compute in R in
    match v with Ok true ?b => unify a b end end.
  eexists.
  match goal with |- exists s3, _ /\ _ /\ ?R = Ok true ?a /\ _ =>
    let v := eval vm_compute in R in
    match v with Ok true ?b => unify a b end end.
  match goal with
  | |- exists s3, _ = Ok true ?a /\ _ = Ok true ?b /\ _ = Ok true ?c /\ _ =>
    destruct (proj1 (frames_follow_registry (subclass := Scenario.numbering)
                       a b c Scenario.info7 Scenario.packet1
                       eq_refl) eq_refl)
      as (stream & s3 & Hhook & Hrun & Hq & Hsent)
  end.
  exists s3. split; [reflexivity |]. split; [reflexivity |].
  split; [reflexivity |].
  split; [exact Hrun |]. split; [exact Hq |].
  cbn in Hhook. inversion Hhook; subst. exact Hsent.
Defined.



(** ** Lookup by name *)

Lemma key_le_total : Total key_le.
Proof. intros x y. unfold key_le. lia. Qed.

Lemma key_le_trans : Transitive key_le.
Proof. intros x y z. unfold key_le. lia. Qed.

Lemma elem_of_streams_in_order (m : gmap N StreamRef) (id : N)
    (stream : StreamRef) :
  (id, stream) ∈ streams_in_order m <-> m !! id = Some stream.
Proof.
  unfold streams_in_order. rewrite merge_sort_Permutation.
  apply elem_of_map_to_list.
Qed.

Lemma streams_in_order_sorted (m : gmap N StreamRef) :
  StronglySorted key_le (streams_in_order m).
Proof.
  apply StronglySorted_merge_sort; [apply key_le_trans | apply key_le_total].
Qed.

(** On a list in key order the loop returns the matching stream with the
    smallest key. *)
Lemma first_named_sorted (GetName : StreamRef -> string) (stream_name : string)
    (l : list (N * StreamRef)) :
  StronglySorted key_le l ->
  match first_named GetName stream_name l with
  | Some stream =>
      exists id,
        (id, stream) ∈ l /\ GetName stream = stream_name /\
        forall id' stream',
          (id', stream') ∈ l -> (id' < id)%N -> GetName stream' <> stream_name
  | None =>
      forall id stream, (id, stream) ∈ l -> GetName stream <> stream_name
  end.
Proof.
  induction l as [| [id0 stream0] rest IH]; intros Hsorted; cbn.
  - intros id stream Hin. inversion Hin.
  - apply StronglySorted_inv in Hsorted as [Hrest Hall].
    rewrite Forall_forall in Hall.
    destruct (String.eqb (GetName stream0) stream_name) eqn:Hname.
    + apply String.eqb_eq in Hname.
      exists id0. split; [left |]. split; [exact Hname |].
      intros id' stream' Hin Hlt.
      apply elem_of_cons in Hin as [Heq | Hin].
      * inversion Heq; subst. lia.
      * specialize (Hall _ Hin). unfold key_le in Hall; cbn in Hall. lia.
    + apply String.eqb_neq in Hname. specialize (IH Hrest).
      destruct (first_named GetName stream_name rest) as [stream |].
      * destruct IH as (id & Hin & Hn & Hmin).
        exists id. split; [now right |]. split; [exact Hn |].
        intros id' stream' Hin' Hlt.
        apply elem_of_cons in Hin' as [Heq | Hin'].
        -- inversion Heq; subst. exact Hname.
        -- eauto.
      * intros id stream Hin.
        apply elem_of_cons in Hin as [Heq | Hin].
        -- inversion Heq; subst. exact Hname.
        -- eauto.
Qed.

(** X11. [GetStream] by name only reads: it takes and releases the shared
    lock and changes no member.  It returns a registered stream that has the
    name, namely the one registered under the smallest id among those that
    have it, and it returns null exactly when no registered stream has the
    name. *)
Theorem GetStream_by_name_first (GetName : StreamRef -> string)
    (stream_name : string) (s : Application) :
  exists found,
    GetStream_by_name GetName stream_name s
    = Ok found (set_trace (trace s ++ [LockShared stream_map_mutex;
                                       UnlockShared stream_map_mutex]) s) /\
    match found with
    | Some stream =>
        exists id,
          _streams s !! id = Some stream /\ GetName stream = stream_name /\
          forall id' stream',
            _streams s !! id' = Some stream' -> (id' < id)%N ->
            GetName stream' <> stream_name
    | None =>
        forall id stream,
          _streams s !! id = Some stream -> GetName stream <> stream_name
    end.
Proof.
  pose proof (first_named_sorted GetName stream_name
                (streams_in_order (_streams s))
                (streams_in_order_sorted (_streams s))) as Hfirst.
  exists (first_named GetName stream_name (streams_in_order (_streams s))).
  split.
  - destruct s; unfold GetStream_by_name; run_m. reflexivity.
  - destruct (first_named GetName stream_name
                (streams_in_order (_streams s))) as [stream |].
    + destruct Hfirst as (id & Hin & Hname & Hmin).
      exists id. split; [now apply elem_of_streams_in_order |].
      split; [exact Hname |].
      intros id' stream' Hin' Hlt.
      apply (Hmin id' stream'); [now apply elem_of_streams_in_order | exact Hlt].
    + intros id stream Hin.
      apply (Hfirst id stream). now apply elem_of_streams_in_order.
Qed.

(** ** The application type name *)

Lemma Format_not_empty (publisher_name : string) :
  String.eqb (type_name.Format publisher_name) EmptyString = false.
Proof. destruct publisher_name; reflexivity. Qed.

(** X12. [GetApplicationTypeName] returns the empty string, and caches
    nothing, while there is no publisher.  With a publisher it never returns
    the empty string: the first call computes "<publisher name> Application"
    and stores it, and from then on every call returns the stored string and
    changes nothing, so two calls in a row give the same answer. *)
Theorem GetApplicationTypeName_cached (a : type_name.Members) :
  let '(name, a') := type_name.GetApplicationTypeName a in
  (type_name._publisher a = None -> name = EmptyString /\ a' = a) /\
  (forall publisher_name,
      type_name._publisher a = Some publisher_name ->
      name <> EmptyString /\
      type_name._app_type_name a' = name /\
      (type_name._app_type_name a = EmptyString ->
       name = publisher_name +:+ " Application") /\
      (type_name._app_type_name a <> EmptyString ->
       name = type_name._app_type_name a /\ a' = a)) /\
  type_name.GetApplicationTypeName a' = (name, a').
Proof.
  destruct a as [[publisher_name |] cached];
    unfold type_name.GetApplicationTypeName; cbn.
  - destruct (String.eqb cached EmptyString) eqn:Hcached; cbn.
    + apply String.eqb_eq in Hcached; subst cached.
      split; [discriminate |]. split.
      * intros p Hp; inversion Hp; subst.
        split; [| split; [reflexivity | split; [reflexivity | congruence]]].
        intros Hempty.
        pose proof (Format_not_empty p) as Hne.
        rewrite Hempty in Hne. discriminate.
      * now rewrite Format_not_empty.
    + split; [discriminate |]. split.
      * intros p Hp; inversion Hp; subst.
        apply String.eqb_neq in Hcached.
        split; [exact Hcached |]. split; [reflexivity |].
        split; [congruence | now split].
      * now rewrite Hcached.
  - split; [now split |]. split; [discriminate | reflexivity].
Qed.

(** ** Packets in order *)

Lemma received_app (t w : list Action) :
  received (t ++ w) = received t ++ received w.
Proof. unfold received. apply omap_app. Qed.

Lemma packet_passes_in_order (q : list IncomingPacket) :
  forall s : Application,
    _incoming_packet_queue s = q ->
    Forall (fun packet => _session_info packet <> None) q ->
    exists w,
      passes (length q) WorkerThread_packet s
      = Ok tt (set_trace (trace s ++ w) (set_incoming_packet_queue [] s)) /\
      received w = omap delivery q /\
      sent_video w = [] /\ sent_audio w = [] /\ stopped w = [].
Proof.
  induction q as [| packet rest IH]; intros s Hq Hall.
  - exists []. destruct s; cbn in *; subst. rewrite app_nil_r.
    repeat split; reflexivity.
  - apply Forall_cons in Hall as [Hsession Hall].
    pose proof (WorkerThread_packet_acts s) as Hp.
    unfold front_packet_has_session in Hp. rewrite Hq in Hp.
    destruct (_session_info packet) as [session |] eqn:Hs;
      [| contradiction].
    destruct Hp as (w1 & E1 & Hr1 & Hv1 & Ha1 & Hs1 & _).
    cbn [tail] in E1.
    destruct (IH (set_trace (trace s ++ w1)
                    (set_incoming_packet_queue rest s)))
      as (w2 & E2 & Hr2 & Hv2 & Ha2 & Hs2); [now destruct s | exact Hall |].
    exists (w1 ++ w2).
    cbn [passes length]. cbv [mbind M_bind]. rewrite E1, E2.
    split; [destruct s; cbn; now rewrite <- app_assoc |].
    unfold sent_video, sent_audio, stopped in *.
    rewrite received_app, !omap_app, Hv1, Hv2, Ha1, Ha2, Hr1, Hr2,
      Hs1, Hs2.
    repeat split; try reflexivity.
    change (packet :: rest) with ([packet] ++ rest) at 2.
    now rewrite omap_app.
Qed.

(** ** The worker between calls *)

(** X14. Between calls an attached worker is always alive: in every state
    the application can reach, the worker is never found returned from
    [WorkerThread] with its thread object still attached, and whenever the
    stop flag is set no thread is attached at all.  The worker leaves its
    loop only inside [Stop()], which joins it before returning. *)
Theorem worker_alive_between_calls {subclass : Subclass}
    (k : ov.EventKind) (config : cfg.CmafPublisher) (s : Application) :
  reachable k config s ->
  (_stop_thread_flag s = true -> _worker_thread s = None) /\
  _worker_thread s <> Some Exited.
Proof.
  intros [cs Hreach].
  assert (Hstart :
            (_stop_thread_flag (Application_new k config) = true ->
             _worker_thread (Application_new k config) = None) /\
            _worker_thread (Application_new k config) <> Some Exited)
    by (split; [reflexivity | discriminate]).
  revert Hreach Hstart. generalize (Application_new k config).
  induction cs as [| c cs IH]; intros s0 Hrun Hinv; cbn in Hrun.
  - inversion Hrun; subst. exact Hinv.
  - destruct (run_call c s0) as [s1 |] eqn:Hcall; [| discriminate].
    apply (IH s1 Hrun). clear IH Hrun.
    destruct Hinv as [Hstopped Halive].
    destruct c as [| | info | info | stream media_packet
                   | stream media_packet | session_info data |];
      cbn in Hcall.
    + destruct s0 as [flag [pc |] streams vq aq pq ev vts ats config0 tr];
        unfold Start in Hcall; revert Hcall; run_m; intros Hcall;
        inversion Hcall; subst; cbn.
      split; discriminate.
    + destruct (Stop s0) as [r s2 | f s2] eqn:Hstop; inversion Hcall; subst.
      destruct (_stop_thread_flag s0) eqn:Hflag.
      * assert (s1 = s0) as ->.
        { revert Hstop. destruct s0; cbn in Hflag; subst.
          unfold Stop; run_m. intros Heq; now inversion Heq. }
        split; [intros _; now apply Hstopped | exact Halive].
      * apply Stop_frame in Hstop as (_ & _ & _ & Hnone).
        rewrite (Hnone Hflag). split; [reflexivity | discriminate].
    + destruct s0; unfold OnCreateStream in Hcall; revert Hcall; run_m.
      match goal with |- context [CreateStream ?a ?b ?c] =>
        destruct (CreateStream a b c) end; run_m;
        intros Hcall; inversion Hcall;
        (split; [exact Hstopped | exact Halive]).
    + destruct s0; unfold OnDeleteStream in Hcall; revert Hcall; run_m.
      match goal with |- context [?m !! ?i] => destruct (m !! i) end; run_m.
      * match goal with |- context [DeleteStream ?a ?b] =>
          destruct (DeleteStream a b) end; run_m;
          intros Hcall; inversion Hcall;
        (split; [exact Hstopped | exact Halive]).
      * intros Hcall; inversion Hcall;
        (split; [exact Hstopped | exact Halive]).
    + destruct s0 as [flag worker streams vq aq pq ev vts ats config0 tr].
      destruct stream as [stream |], media_packet as [media_packet |];
        unfold OnSendVideoFrame, timestamp_ms in Hcall; revert Hcall; run_m;
        try discriminate.
      destruct (GetTrack stream (GetTrackId media_packet)); run_m;
        [| discriminate].
      intros Hcall; inversion Hcall;
        (split; [exact Hstopped | exact Halive]).
    + destruct s0 as [flag worker streams vq aq pq ev vts ats config0 tr].
      destruct stream as [stream |], media_packet as [media_packet |];
        unfold OnSendAudioFrame, timestamp_ms in Hcall; revert Hcall; run_m;
        try discriminate.
      destruct (GetTrack stream (GetTrackId media_packet)); run_m;
        [| discriminate].
      intros Hcall; inversion Hcall;
        (split; [exact Hstopped | exact Halive]).
    + destruct s0 as [flag worker streams vq aq pq ev vts ats config0 tr].
      unfold PushIncomingPacket in Hcall; revert Hcall; run_m.
      intros Hcall; inversion Hcall;
        (split; [exact Hstopped | exact Halive]).
    + destruct (WorkerThread_step s0) as [[[] s2 | f s2] |] eqn:Hstep;
        inversion Hcall; subst.
      pose proof (WorkerThread_step_frame _ _ _ Hstep) as (Hf & _).
      assert (Hflag : _stop_thread_flag s0 = false).
      { destruct (_stop_thread_flag s0) eqn:Hflag; [| reflexivity].
        unfold WorkerThread_step in Hstep.
        rewrite (Hstopped eq_refl) in Hstep. discriminate. }
      split; [rewrite Hf, Hflag; discriminate |].
      unfold WorkerThread_step in Hstep.
      destruct s0 as [flag [[| |] |] streams vq aq pq ev vts ats config0 tr];
        cbn in Hflag, Hstep; subst; try discriminate.
      * cbv in Hstep. inversion Hstep; subst. discriminate.
      * destruct (ov.Wait ev) as [e |]; [| discriminate].
        revert Hstep. cbv [mbind M_bind modify act].
        match goal with |- context [WorkerThread_drain ?a] =>
          destruct (WorkerThread_drain a) as [[] s3 | f s3] end;
          [| discriminate].
        intros Heq; inversion Heq; subst. discriminate.
Qed.

Lemma worker_alive_between_calls_witness :
  exists s,
    run_calls (subclass := Scenario.numbering)
      (Scenario.two_frames ++ [call_Stop; call_Start]) Scenario.app0
    = Some s /\
    _stop_thread_flag s = false /\
    _worker_thread s = Some LoopHead /\
    _worker_thread s <> Some Exited.
Proof.
  eexists.
  match goal with |- ?R = Some ?a /\ _ =>
    let v := eval vm_compute in R in
    match v with Some ?b => unify a b end end.
  split; [reflexivity |]. split; [reflexivity |]. split; [reflexivity |].
  match goal with |- _worker_thread ?a <> _ =>
    exact (proj2 (worker_alive_between_calls
                    (subclass := Scenario.numbering)
                    ov.Counting cfg.unconfigured a
                    (ex_intro _ (Scenario.two_frames ++ [call_Stop; call_Start])
                       eq_refl)))
  end.
Defined.

(** ** The body of the loop, action by action *)

(** The exact actions of the three parts of the body. *)
Lemma WorkerThread_video_trace (s : Application) :
  WorkerThread_video s
  = Ok tt (set_trace
             (trace s ++ frame_part_actions video_stream_queue_guard
                           video_stream_queue StreamSendVideoFrame
                           (_streams s) (_video_stream_queue s))
             (set_video_stream_queue (tail (_video_stream_queue s)) s)).
Proof.
  destruct s as [flag worker streams vq aq pq ev vts ats config tr].
  unfold WorkerThread_video, PopVideoStreamData, SendVideoFrame, GetStream,
    frame_part_actions.
  destruct vq as [| [[info |] [media_packet |]] rest]; run_m;
    try reflexivity.
  destruct (streams !! GetId info); run_m; reflexivity.
Qed.

Lemma WorkerThread_audio_trace (s : Application) :
  WorkerThread_audio s
  = Ok tt (set_trace
             (trace s ++ frame_part_actions audio_stream_queue_guard
                           audio_stream_queue StreamSendAudioFrame
                           (_streams s) (_audio_stream_queue s))
             (set_audio_stream_queue (tail (_audio_stream_queue s)) s)).
Proof.
  destruct s as [flag worker streams vq aq pq ev vts ats config tr].
  unfold WorkerThread_audio, PopAudioStreamData, SendAudioFrame, GetStream,
    frame_part_actions.
  destruct aq as [| [[info |] [media_packet |]] rest]; run_m;
    try reflexivity.
  destruct (streams !! GetId info); run_m; reflexivity.
Qed.

Lemma WorkerThread_packet_trace (s : Application) :
  front_packet_has_session s = true ->
  WorkerThread_packet s
  = Ok tt (set_trace
             (trace s ++ packet_part_actions (_incoming_packet_queue s))
             (set_incoming_packet_queue
                (tail (_incoming_packet_queue s)) s)).
Proof.
  destruct s as [flag worker streams vq aq pq ev vts ats config tr].
  unfold WorkerThread_packet, PopIncomingPacket, OnPacketReceived,
    front_packet_has_session, packet_part_actions.
  destruct pq as [| [[session |] data] rest]; run_m;
    try reflexivity; discriminate.
Qed.

Lemma WorkerThread_drain_trace (s : Application) :
  front_packet_has_session s = true ->
  WorkerThread_drain s
  = Ok tt (set_trace (trace s ++ pass_actions s) (after_drain s)).
Proof.
  intros Hsafe.
  destruct s as [flag worker streams vq aq pq ev vts ats config tr].
  unfold WorkerThread_drain; cbv [mbind M_bind].
  rewrite WorkerThread_video_trace. members.
  rewrite WorkerThread_audio_trace. members.
  rewrite WorkerThread_packet_trace by exact Hsafe. members.
  unfold pass_actions. members. now rewrite <- !app_assoc.
Qed.

Lemma pass_actions_pops (s : Application) (q : Queue) :
  pops q (pass_actions s) = Nat.min 1 (queue_length q s) /\
  pushes q (pass_actions s) = 0%nat /\
  ~ In QueueWait (pass_actions s).
Proof.
  destruct s as [flag worker streams vq aq pq ev vts ats config tr].
  unfold pass_actions, frame_part_actions, packet_part_actions; members.
  destruct vq as [| [[vi |] [vp |]] vrest];
    destruct aq as [| [[ai |] [ap |]] arest];
    destruct pq as [| [[session |] data] prest];
    cbn [_stream _media_packet _session_info _data];
    repeat match goal with
           | |- context [streams !! ?i] => destruct (streams !! i)
           end;
    destruct q; cbn;
    (split; [reflexivity |]; split; [reflexivity |]);
    intros Hin; repeat (destruct Hin as [Hin | Hin]; [discriminate |]);
    exact Hin.
Qed.

(** A worker that leaves [Wait()] has consumed a signal, and only then runs
    the body. *)
Lemma WorkerThread_step_wakes (s s' : Application) :
  _worker_thread s = Some InWait ->
  WorkerThread_step s = Some (Ok tt s') ->
  ov.Wait (_queue_event s) = Some (_queue_event s') /\
  s' = set_trace (trace s ++ QueueWait :: pass_actions s)
         (set_worker_thread (Some LoopHead)
            (set_queue_event (_queue_event s') (after_drain s))).
Proof.
  intros Hpc Hstep. unfold WorkerThread_step in Hstep.
  destruct s as [flag worker streams vq aq pq ev vts ats config tr];
    cbn in Hpc; subst worker; cbn in Hstep.
  destruct (ov.Wait ev) as [e |] eqn:Hwait; [| discriminate].
  revert Hstep. cbv [mbind M_bind modify act]. intros Hstep.
  match type of Hstep with context [WorkerThread_drain ?a] =>
    pose proof (WorkerThread_drain_acts a) as Hd;
    pose proof (WorkerThread_drain_trace a) as Ht end.
  destruct (front_packet_has_session _).
  - rewrite (Ht eq_refl) in Hstep. inversion Hstep; subst s'.
    members. rewrite Hwait. split; [reflexivity |].
    unfold pass_actions; members. now rewrite <- app_assoc.
  - destruct Hd as (s'' & Hrun). rewrite Hrun in Hstep. discriminate.
Qed.

Lemma reachable_covers {subclass : Subclass}
    (k : ov.EventKind) (config : cfg.CmafPublisher) (s : Application) :
  reachable k config s -> signals_cover_queue k s.
Proof.
  intros [cs Hreach].
  eapply run_calls_covers; [| exact Hreach].
  split; cbn; [reflexivity |]. intros _. unfold queued; cbn. lia.
Qed.

(** X3. One pass of the loop body, action by action: each of the three parts
    takes its queue's lock, pops the front item if there is one, and releases
    the lock; a video or audio item with both pointers set is then looked up
    under the registry's shared lock and handed to the stream registered
    under its id, or to nobody; a packet is handed to its session with no
    look at the registry.  The pass does nothing else, so a wake-up with
    nothing queued only takes and releases the three queue locks.  The front
    item of every non-empty queue leaves its queue, and only that item; the
    pass pushes nothing, stops no stream and changes no other member.  It
    faults exactly when the front packet has a null session pointer. *)
Theorem one_pass (s : Application) :
  if front_packet_has_session s
  then
    WorkerThread_drain s
    = Ok tt (set_trace (trace s ++ pass_actions s) (after_drain s)) /\
    (queued s = 0%nat ->
     pass_actions s
     = [Lock video_stream_queue_guard; Unlock video_stream_queue_guard;
        Lock audio_stream_queue_guard; Unlock audio_stream_queue_guard;
        Lock incoming_packet_queue_guard;
        Unlock incoming_packet_queue_guard]) /\
    (forall g, In (Lock g) (pass_actions s) -> g <> stream_map_mutex) /\
    sent_video (pass_actions s)
    = omap (route (_streams s)) (take 1 (_video_stream_queue s)) /\
    sent_audio (pass_actions s)
    = omap (route (_streams s)) (take 1 (_audio_stream_queue s)) /\
    received (pass_actions s)
    = omap delivery (take 1 (_incoming_packet_queue s)) /\
    stopped (pass_actions s) = [] /\
    (forall q, pushes q (pass_actions s) = 0%nat) /\
    (forall q, pops q (pass_actions s) = Nat.min 1 (queue_length q s))
  else exists s', WorkerThread_drain s = Abort NullDereference s'.
Proof.
  pose proof (WorkerThread_drain_acts s) as H.
  pose proof (WorkerThread_drain_trace s) as Htrace.
  destruct (front_packet_has_session s); [| exact H].
  specialize (Htrace eq_refl).
  destruct H as (w & Hrun & Hv & Ha & Hr & Hs & Hpu & Hpv & Hpa & Hpp).
  assert (Hw : w = pass_actions s).
  { rewrite Htrace in Hrun. injection Hrun as Hrun.
    apply app_inv_head in Hrun. now symmetry. }
  subst w.
  split; [exact Htrace |]. split; [| split].
  - destruct s as [flag worker streams vq aq pq ev vts ats config tr].
    unfold queued, pass_actions; members.
    destruct vq, aq, pq; cbn; try discriminate. reflexivity.
  - destruct s as [flag worker streams vq aq pq ev vts ats config tr].
    unfold pass_actions, frame_part_actions, packet_part_actions; members.
    intros g Hin Hg. subst g.
    rewrite !in_app_iff in Hin.
    destruct vq as [| [[vi |] [vp |]] vrest];
      destruct aq as [| [[ai |] [ap |]] arest];
      destruct pq as [| [[session |] data] prest];
      cbn [_stream _media_packet _session_info _data] in Hin;
      repeat match type of Hin with
             | context [streams !! ?i] => destruct (streams !! i)
             end;
      cbn in Hin; intuition discriminate.
  - repeat split; try assumption.
    destruct s as [flag worker streams vq aq pq ev vts ats config tr].
    intros [];
      [rewrite Hpv; destruct vq | rewrite Hpa; destruct aq
       | rewrite Hpp; destruct pq]; reflexivity.
Qed.

(** ** Packets in order, action by action *)

Lemma packet_passes_trace (q : list IncomingPacket) :
  forall s : Application,
    _incoming_packet_queue s = q ->
    Forall (fun packet => _session_info packet <> None) q ->
    passes (length q) WorkerThread_packet s
    = Ok tt (set_trace
               (trace s
                  ++ flat_map (fun packet => packet_part_actions [packet]) q)
               (set_incoming_packet_queue [] s)).
Proof.
  induction q as [| packet rest IH]; intros s Hq Hall.
  - destruct s; cbn in *; subst. now rewrite app_nil_r.
  - apply Forall_cons in Hall as [Hsession Hall].
    pose proof (WorkerThread_packet_trace s) as Hp.
    unfold front_packet_has_session in Hp. rewrite Hq in Hp.
    destruct (_session_info packet) as [session |] eqn:Hs;
      [| contradiction].
    specialize (Hp eq_refl). cbn [tail] in Hp.
    cbn [passes length]. cbv [mbind M_bind]. rewrite Hp.
    rewrite IH; [| now destruct s | exact Hall].
    destruct s; cbn [flat_map packet_part_actions]; rewrite Hs.
    cbn. now rewrite <- !app_assoc.
Qed.

(** X13. Packets, too, come out first in, first out: when every queued
    packet names a session, as many packet passes as there are packets empty
    the queue and do, for one packet after the other in the order queued,
    exactly this: take the packet queue's lock, pop the packet, release the
    lock, and hand the packet's data to the packet's own session.  Nothing
    else happens: the registry's lock is never taken, shared or exclusive,
    so the registry is not consulted, and no other member changes. *)
Theorem packets_in_order (s : Application) :
  Forall (fun packet => _session_info packet <> None)
    (_incoming_packet_queue s) ->
  exists w,
    w = flat_map (fun packet => packet_part_actions [packet])
          (_incoming_packet_queue s) /\
    passes (length (_incoming_packet_queue s)) WorkerThread_packet s
    = Ok tt (set_trace (trace s ++ w) (set_incoming_packet_queue [] s)) /\
    received w = omap delivery (_incoming_packet_queue s) /\
    length (received w) = length (_incoming_packet_queue s) /\
    ~ In (LockShared stream_map_mutex) w /\
    ~ In (Lock stream_map_mutex) w /\
    sent_video w = [] /\ sent_audio w = [] /\ stopped w = [].
Proof.
  intros Hall. eexists. split; [reflexivity |].
  pose proof (packet_passes_trace _ s eq_refl Hall) as Hrun.
  split; [exact Hrun |].
  destruct (packet_passes_in_order (_incoming_packet_queue s) s eq_refl Hall)
    as (w & Hrun' & Hr & Hv & Ha & Hs).
  assert (Hw : w = flat_map (fun packet => packet_part_actions [packet])
                     (_incoming_packet_queue s)).
  { rewrite Hrun in Hrun'. injection Hrun' as Hrun'.
    apply app_inv_head in Hrun'. now symmetry. }
  rewrite <- Hw.
  assert (Hlen : length (omap delivery (_incoming_packet_queue s))
                 = length (_incoming_packet_queue s)).
  { clear Hrun Hrun' Hr Hw.
    induction Hall as [| packet rest Hsession _ IH]; [reflexivity |].
    cbn. unfold delivery at 1.
    destruct (_session_info packet); [| contradiction]. cbn. now rewrite IH. }
  split; [exact Hr |]. split; [now rewrite Hr |].
  assert (Hnone : forall a, In a w ->
            a <> LockShared stream_map_mutex /\ a <> Lock stream_map_mutex).
  { intros a Hin. rewrite Hw in Hin.
    apply in_flat_map in Hin as (packet & _ & Hin).
    unfold packet_part_actions in Hin.
    destruct (_session_info packet); cbn in Hin;
      intuition (subst; discriminate). }
  split; [intros Hin; now apply Hnone in Hin as [H _] |].
  split; [intros Hin; now apply Hnone in Hin as [_ H] |].
  repeat split; assumption.
Qed.

Lemma packets_in_order_witness :
  exists s1 s2 s',
    PushIncomingPacket (Some 5%nat) None Scenario.app0 = Ok true s1 /\
    PushIncomingPacket (Some 6%nat) None s1 = Ok true s2 /\
    passes 2 WorkerThread_packet s2 = Ok tt s' /\
    received (trace s') = [(5%nat, None); (6%nat, None)] /\
    _incoming_packet_queue s' = [].
Proof.
  eexists.
  match goal with |- exists s2 s', ?R = Ok true ?a /\ _ =>
    let v := eval vm_compute in R in
    match v with Ok true ?b => unify a b end end.
  eexists.
  match goal with |- exists s', _ /\ ?R = Ok true ?a /\ _ =>
    let v := eval vm_compute in R in
    match v with Ok true ?b => unify a b end end.
  match goal with |- exists s', _ /\ _ = Ok true ?a /\ _ =>
    destruct (packets_in_order a) as (w & Hw & Hrun & _)
  end.
  - repeat constructor; discriminate.
  - eexists. split; [reflexivity |]. split; [reflexivity |].
    split; [exact Hrun |]. subst w. split; reflexivity.
Defined.

(** ** The threads, statement by statement *)

(** A producer's call is its locked region, then [Notify()]. *)
Lemma submit_in_two_steps (x : Submission) (s : Application) :
  submit x s = (enqueue x;; queue_event_Notify;; mret true) s.
Proof.
  destruct s as [flag worker streams vq aq pq ev vts ats config tr].
  destruct x as [stream media_packet | stream media_packet
                 | session_info data];
    unfold submit, enqueue, OnSendVideoFrame, OnSendAudioFrame,
      PushIncomingPacket, timestamp_ms;
    try (destruct media_packet as [media_packet |];
         [destruct stream as [stream |];
          [destruct (GetTrack stream (GetTrackId media_packet)) |] |]);
    reflexivity.
Qed.

Lemma enqueue_frame (x : Submission) (s s' : Application) :
  enqueue x s = Ok tt s' ->
  _queue_event s' = _queue_event s /\
  _stop_thread_flag s' = _stop_thread_flag s /\
  match x with
  | video_frame stream media_packet =>
      _video_stream_queue s'
      = _video_stream_queue s ++ [mkStreamData stream media_packet] /\
      _audio_stream_queue s' = _audio_stream_queue s /\
      _incoming_packet_queue s' = _incoming_packet_queue s
  | audio_frame stream media_packet =>
      _video_stream_queue s' = _video_stream_queue s /\
      _audio_stream_queue s'
      = _audio_stream_queue s ++ [mkStreamData stream media_packet] /\
      _incoming_packet_queue s' = _incoming_packet_queue s
  | incoming_packet session_info data =>
      _video_stream_queue s' = _video_stream_queue s /\
      _audio_stream_queue s' = _audio_stream_queue s /\
      _incoming_packet_queue s'
      = _incoming_packet_queue s ++ [mkIncomingPacket session_info data]
  end.
Proof.
  destruct s as [flag worker streams vq aq pq ev vts ats config tr].
  destruct x as [stream media_packet | stream media_packet
                 | session_info data];
    unfold enqueue, timestamp_ms;
    try (destruct media_packet as [media_packet |];
         [destruct stream as [stream |];
          [destruct (GetTrack stream (GetTrackId media_packet)) |] |]);
    run_m; intros Heq; inversion Heq; subst; cbn; repeat split.
Qed.

Lemma Notify_frame (s s' : Application) :
  queue_event_Notify s = Ok tt s' ->
  _queue_event s' = ov.Notify (_queue_event s) /\
  _stop_thread_flag s' = _stop_thread_flag s /\
  same_queues s s'.
Proof.
  destruct s. unfold queue_event_Notify, same_queues; run_m.
  intros Heq; inversion Heq; subst; cbn. repeat split.
Qed.

Lemma OnCreateStream_frame {subclass : Subclass}
    (info : InfoStream) (s s' : Application) (r : bool) :
  OnCreateStream info s = Ok r s' ->
  _queue_event s' = _queue_event s /\
  _stop_thread_flag s' = _stop_thread_flag s /\
  same_queues s s'.
Proof.
  destruct s. unfold OnCreateStream, same_queues; run_m.
  match goal with |- context [CreateStream ?a ?b ?c] =>
    destruct (CreateStream a b c) end; run_m;
    intros Heq; inversion Heq; subst; cbn; repeat split.
Qed.

Lemma OnDeleteStream_frame {subclass : Subclass}
    (info : InfoStream) (s s' : Application) (r : bool) :
  OnDeleteStream info s = Ok r s' ->
  _queue_event s' = _queue_event s /\
  _stop_thread_flag s' = _stop_thread_flag s /\
  same_queues s s'.
Proof.
  destruct s. unfold OnDeleteStream, same_queues; run_m.
  match goal with |- context [?m !! ?i] => destruct (m !! i) end; run_m.
  - match goal with |- context [DeleteStream ?a ?b] =>
      destruct (DeleteStream a b) end; run_m;
      intros Heq; inversion Heq; subst; cbn; repeat split.
  - intros Heq; inversion Heq; subst; cbn; repeat split.
Qed.

(** The worker's statements, one by one. *)
Lemma WorkerThread_advance_AtWait (s : Application) (o : Outcome unit)
    (p : WorkerPoint) :
  WorkerThread_advance AtWait s = Some (o, p) ->
  exists e,
    ov.Wait (_queue_event s) = Some e /\
    o = Ok tt (set_trace (trace s ++ [QueueWait]) (set_queue_event e s)) /\
    p = AtVideo.
Proof.
  unfold WorkerThread_advance.
  destruct (ov.Wait (_queue_event s)) as [e |]; [| discriminate].
  intros Heq; inversion Heq; subst. exists e.
  destruct s; repeat split.
Qed.

Lemma run_move_covers {subclass : Subclass} (m : Move) (f f' : Threads) :
  ov.kind (_queue_event (object f)) = ov.Counting ->
  signals_cover_threads f ->
  run_move m f = Some f' ->
  ov.kind (_queue_event (object f')) = ov.Counting /\
  signals_cover_threads f'.
Proof.
  intros Hk Hcov Hmove.
  destruct f as [s p u st]. cbn [object] in Hk.
  destruct m as [x | | | | info | info |]; cbn in Hmove.
  - (* a producer pushes *)
    destruct (enqueue x s) as [[] s1 | e s1] eqn:Hx; [| discriminate].
    inversion Hmove; subst; clear Hmove.
    apply enqueue_frame in Hx as (He & _ & Hq).
    unfold signals_cover_threads, queued in *; cbn [object worker_at unsignalled] in *.
    rewrite He. split; [exact Hk |].
    destruct x; destruct Hq as (-> & -> & ->); rewrite ?length_app; cbn [length];
      destruct p; lia.
  - (* a producer notifies *)
    destruct u as [| n]; [discriminate |].
    destruct (queue_event_Notify s) as [[] s1 | e s1] eqn:Hn; [| discriminate].
    inversion Hmove; subst; clear Hmove.
    apply Notify_frame in Hn as (He & _ & Hv & Ha & Hp).
    unfold signals_cover_threads, queued in *; cbn [object worker_at unsignalled] in *.
    rewrite He, Hv, Ha, Hp. unfold ov.Notify; cbn. rewrite Hk.
    split; [reflexivity |]. destruct p; lia.
  - (* Stop sets the flag *)
    destruct (_stop_thread_flag s); [discriminate |].
    inversion Hmove; subst; clear Hmove.
    destruct s. split; [exact Hk | exact Hcov].
  - (* Stop notifies *)
    destruct st; [| discriminate].
    destruct (queue_event_Notify s) as [[] s1 | e s1] eqn:Hn; [| discriminate].
    inversion Hmove; subst; clear Hmove.
    apply Notify_frame in Hn as (He & _ & Hv & Ha & Hp).
    unfold signals_cover_threads, queued in *; cbn [object worker_at unsignalled] in *.
    rewrite He, Hv, Ha, Hp. unfold ov.Notify; cbn. rewrite Hk.
    split; [reflexivity |]. destruct p; lia.
  - destruct (OnCreateStream info s) as [r s1 | e s1] eqn:Hc; [| discriminate].
    inversion Hmove; subst; clear Hmove.
    apply OnCreateStream_frame in Hc as (He & _ & Hv & Ha & Hp).
    unfold signals_cover_threads, queued in *; cbn [object worker_at unsignalled] in *.
    rewrite He, Hv, Ha, Hp. split; [exact Hk | exact Hcov].
  - destruct (OnDeleteStream info s) as [r s1 | e s1] eqn:Hc; [| discriminate].
    inversion Hmove; subst; clear Hmove.
    apply OnDeleteStream_frame in Hc as (He & _ & Hv & Ha & Hp).
    unfold signals_cover_threads, queued in *; cbn [object worker_at unsignalled] in *.
    rewrite He, Hv, Ha, Hp. split; [exact Hk | exact Hcov].
  - (* the worker *)
    destruct p; cbn in Hmove.
    + destruct (_stop_thread_flag s) eqn:Hflag;
        cbn in Hmove; inversion Hmove; subst; clear Hmove;
        destruct s; split; [exact Hk | exact Hcov | exact Hk | exact Hcov].
    + unfold ov.Wait in Hmove. rewrite Hk in Hmove.
      destruct (ov.pending (_queue_event s)) as [| n] eqn:Hpending;
        [discriminate |].
      cbn in Hmove. inversion Hmove; subst; clear Hmove.
      unfold signals_cover_threads, queued in *;
        cbn [object worker_at unsignalled] in *.
      destruct s; cbn in *. split; [reflexivity |]. lia.
    + rewrite WorkerThread_video_trace in Hmove. cbn in Hmove.
      inversion Hmove; subst; clear Hmove.
      unfold signals_cover_threads, queued in *;
        cbn [object worker_at unsignalled] in *.
      destruct s as [flag worker streams vq aq pq ev vts ats config tr];
        cbn in *. split; [exact Hk |].
      destruct vq; cbn in *; lia.
    + rewrite WorkerThread_audio_trace in Hmove. cbn in Hmove.
      inversion Hmove; subst; clear Hmove.
      unfold signals_cover_threads, queued in *;
        cbn [object worker_at unsignalled] in *.
      destruct s as [flag worker streams vq aq pq ev vts ats config tr];
        cbn in *. split; [exact Hk |].
      destruct aq; cbn in *; lia.
    + destruct (WorkerThread_packet s) as [[] s1 | e s1] eqn:Hp;
        [| discriminate].
      cbn in Hmove. inversion Hmove; subst; clear Hmove.
      pose proof (WorkerThread_packet_acts s) as Hacts.
      destruct (front_packet_has_session s).
      * destruct Hacts as (w & Hrun & _). rewrite Hrun in Hp.
        inversion Hp; subst; clear Hp.
        unfold signals_cover_threads, queued in *;
          cbn [object worker_at unsignalled] in *.
        destruct s as [flag worker streams vq aq pq ev vts ats config tr];
          cbn in *. split; [exact Hk |].
        destruct pq; cbn in *; lia.
      * destruct Hacts as [s2 Hrun]. rewrite Hrun in Hp. discriminate.
    + discriminate.
Qed.

Lemma run_moves_app {subclass : Subclass} (ms1 ms2 : list Move) (f : Threads) :
  run_moves (ms1 ++ ms2) f
  = match run_moves ms1 f with
    | Some f' => run_moves ms2 f'
    | None => None
    end.
Proof.
  revert f. induction ms1 as [| m ms1 IH]; intros f; cbn; [reflexivity |].
  destruct (run_move m f); [apply IH | reflexivity].
Qed.

Lemma run_moves_covers {subclass : Subclass} (ms : list Move) :
  forall f f' : Threads,
    ov.kind (_queue_event (object f)) = ov.Counting ->
    signals_cover_threads f ->
    run_moves ms f = Some f' ->
    ov.kind (_queue_event (object f')) = ov.Counting /\
    signals_cover_threads f'.
Proof.
  induction ms as [| m ms IH]; intros f f' Hk Hcov Hrun; cbn in Hrun.
  - inversion Hrun; subst. split; assumption.
  - destruct (run_move m f) as [f1 |] eqn:Hmove; [| discriminate].
    destruct (run_move_covers m f f1 Hk Hcov Hmove) as [Hk1 Hcov1].
    exact (IH f1 f' Hk1 Hcov1 Hrun).
Qed.

Lemma run_move_kind {subclass : Subclass} (m : Move) (f f' : Threads) :
  run_move m f = Some f' ->
  ov.kind (_queue_event (object f')) = ov.kind (_queue_event (object f)).
Proof.
  intros Hmove. destruct f as [s p u st].
  destruct m as [x | | | | info | info |]; cbn in Hmove.
  - destruct (enqueue x s) as [[] s1 | e s1] eqn:Hx; [| discriminate].
    inversion Hmove; subst. apply enqueue_frame in Hx as (He & _).
    cbn. now rewrite He.
  - destruct u as [| n]; [discriminate |].
    destruct (queue_event_Notify s) as [[] s1 | e s1] eqn:Hn; [| discriminate].
    inversion Hmove; subst. apply Notify_frame in Hn as (He & _).
    cbn. now rewrite He.
  - destruct (_stop_thread_flag s); [discriminate |].
    inversion Hmove; subst. now destruct s.
  - destruct st; [| discriminate].
    destruct (queue_event_Notify s) as [[] s1 | e s1] eqn:Hn; [| discriminate].
    inversion Hmove; subst. apply Notify_frame in Hn as (He & _).
    cbn. now rewrite He.
  - destruct (OnCreateStream info s) as [r s1 | e s1] eqn:Hc; [| discriminate].
    inversion Hmove; subst. apply OnCreateStream_frame in Hc as (He & _).
    cbn. now rewrite He.
  - destruct (OnDeleteStream info s) as [r s1 | e s1] eqn:Hc; [| discriminate].
    inversion Hmove; subst. apply OnDeleteStream_frame in Hc as (He & _).
    cbn. now rewrite He.
  - destruct p; cbn in Hmove.
    + destruct (_stop_thread_flag s); cbn in Hmove; inversion Hmove; subst;
        now destruct s.
    + unfold ov.Wait in Hmove.
      destruct (ov.pending (_queue_event s)); [discriminate |].
      cbn in Hmove. inversion Hmove; subst. now destruct s.
    + rewrite WorkerThread_video_trace in Hmove. cbn in Hmove.
      inversion Hmove; subst. now destruct s.
    + rewrite WorkerThread_audio_trace in Hmove. cbn in Hmove.
      inversion Hmove; subst. now destruct s.
    + destruct (WorkerThread_packet s) as [[] s1 | e s1] eqn:Hp;
        [| discriminate].
      cbn in Hmove. inversion Hmove; subst.
      pose proof (WorkerThread_packet_acts s) as Hacts.
      destruct (front_packet_has_session s).
      * destruct Hacts as (w & Hrun & _). rewrite Hrun in Hp.
        inversion Hp; subst. now destruct s.
      * destruct Hacts as [s2 Hrun]. rewrite Hrun in Hp. discriminate.
    + discriminate.
Qed.

Lemma interleaved_kind {subclass : Subclass}
    (k : ov.EventKind) (config : cfg.CmafPublisher) (f : Threads) :
  interleaved k config f -> ov.kind (_queue_event (object f)) = k.
Proof.
  intros (cs & s & ms & Hcalls & Hmoves).
  assert (Hk : ov.kind (_queue_event (object (threads_of s))) = k).
  { apply (reachable_covers k config s). now exists cs. }
  revert Hmoves Hk. generalize (threads_of s). clear Hcalls.
  induction ms as [| m ms IH]; intros f0 Hrun Hk; cbn in Hrun.
  - injection Hrun as <-. exact Hk.
  - destruct (run_move m f0) as [f1 |] eqn:Hmove; [| discriminate].
    apply (IH f1 Hrun). rewrite (run_move_kind m f0 f1 Hmove). exact Hk.
Qed.

Lemma interleaved_covers {subclass : Subclass}
    (config : cfg.CmafPublisher) (f : Threads) :
  interleaved ov.Counting config f -> signals_cover_threads f.
Proof.
  intros (cs & s & ms & Hcalls & Hmoves).
  destruct (reachable_covers ov.Counting config s (ex_intro _ cs Hcalls))
    as [Hk Hle]. specialize (Hle eq_refl).
  eapply (run_moves_covers ms (threads_of s) f); [exact Hk | | exact Hmoves].
  unfold signals_cover_threads, threads_of; cbn.
  destruct (_worker_thread s) as [[| |] |]; lia.
Qed.

(** The three parts of the body, taken one after the other with no other
    thread in between, are the pass. *)
Lemma worker_pass {subclass : Subclass} (f : Threads) :
  worker_at f = AtVideo ->
  front_packet_has_session (object f) = true ->
  run_moves [worker_advances; worker_advances; worker_advances] f
  = Some (mkThreads
            (set_trace (trace (object f) ++ pass_actions (object f))
               (after_drain (object f)))
            AtLoopHead (unsignalled f) (stopping f)).
Proof.
  destruct f as [s p u st]; cbn [worker_at object unsignalled stopping].
  intros -> Hsafe.
  cbn [run_moves run_move worker_at object unsignalled stopping
       WorkerThread_advance].
  rewrite WorkerThread_video_trace. cbn [completed].
  cbn [run_moves run_move worker_at object unsignalled stopping
       WorkerThread_advance].
  rewrite WorkerThread_audio_trace. cbn [completed].
  cbn [run_moves run_move worker_at object unsignalled stopping
       WorkerThread_advance].
  rewrite WorkerThread_packet_trace by (now destruct s).
  cbn [completed]. do 2 f_equal.
  destruct s as [flag worker streams vq aq pq ev vts ats config tr].
  unfold pass_actions, after_drain; cbn. now rewrite <- !app_assoc.
Qed.

Lemma Forall_session_front (s : Application) :
  Forall (fun packet => _session_info packet <> None)
    (_incoming_packet_queue s) ->
  front_packet_has_session s = true.
Proof.
  intros Hall. unfold front_packet_has_session.
  destruct (_incoming_packet_queue s) as [| packet rest]; [reflexivity |].
  apply Forall_inv in Hall. now destruct (_session_info packet).
Qed.

Lemma Forall_session_tail (q : list IncomingPacket) :
  Forall (fun packet => _session_info packet <> None) q ->
  Forall (fun packet => _session_info packet <> None) (tail q).
Proof.
  intros Hall. destruct q; [constructor |]. now apply Forall_inv_tail in Hall.
Qed.

(** Left to itself with the stop flag clear, a worker that is not asleep
    takes its next statement, and the queues do not grow. *)
Lemma worker_advances_undisturbed {subclass : Subclass} (f : Threads) :
  undisturbed f ->
  worker_at f <> AtReturn ->
  (worker_at f = AtWait -> (0 < queued (object f))%nat) ->
  exists f',
    run_move worker_advances f = Some f' /\
    undisturbed f' /\
    worker_at f' = next_point (worker_at f) /\
    (queued (object f') <= queued (object f))%nat.
Proof.
  intros (Hk & Hcov & Hu & Hflag & Hall) Hp Hwait.
  assert (Hstep : exists f',
             run_move worker_advances f = Some f' /\
             worker_at f' = next_point (worker_at f) /\
             unsignalled f' = unsignalled f /\
             _stop_thread_flag (object f') = false /\
             Forall (fun packet => _session_info packet <> None)
               (_incoming_packet_queue (object f')) /\
             (queued (object f') <= queued (object f))%nat).
  { destruct f as [s p u st]; cbn [object worker_at unsignalled] in *.
    destruct p; cbn [run_move worker_at object unsignalled stopping
                     WorkerThread_advance next_point].
    - rewrite Hflag. eexists. split; [reflexivity |]. cbn.
      repeat split; try assumption. lia.
    - specialize (Hwait eq_refl).
      unfold signals_cover_threads in Hcov; cbn in Hcov.
      unfold ov.Wait.
      destruct (ov.pending (_queue_event s)) as [| n]; [lia |].
      eexists. split; [reflexivity |].
      destruct s; cbn in *. repeat split; try assumption. lia.
    - rewrite WorkerThread_video_trace. eexists. split; [reflexivity |].
      destruct s as [flag worker streams vq aq pq ev vts ats config tr];
        unfold queued; cbn in *.
      repeat split; try assumption. destruct vq; cbn; lia.
    - rewrite WorkerThread_audio_trace. eexists. split; [reflexivity |].
      destruct s as [flag worker streams vq aq pq ev vts ats config tr];
        unfold queued; cbn in *.
      repeat split; try assumption. destruct aq; cbn; lia.
    - rewrite WorkerThread_packet_trace by (now apply Forall_session_front).
      eexists. split; [reflexivity |].
      destruct s as [flag worker streams vq aq pq ev vts ats config tr];
        unfold queued; cbn in *.
      repeat split; try assumption.
      + now apply Forall_session_tail.
      + destruct pq; cbn; lia.
    - contradiction. }
  destruct Hstep as (f' & Hmove & Hnext & Hu' & Hflag' & Hall' & Hle).
  exists f'. split; [exact Hmove |].
  destruct (run_move_covers worker_advances f f' Hk Hcov Hmove)
    as [Hk' Hcov'].
  repeat split; try assumption. congruence.
Qed.

Lemma run_worker_S {subclass : Subclass} (n : nat) (f f1 f2 : Threads) :
  run_move worker_advances f = Some f1 ->
  run_moves (replicate n worker_advances) f1 = Some f2 ->
  run_moves (replicate (S n) worker_advances) f = Some f2.
Proof. intros H1 H2. cbn [replicate run_moves]. now rewrite H1. Qed.

Lemma run_worker_add {subclass : Subclass} (n1 n2 : nat) (f f1 f2 : Threads) :
  run_moves (replicate n1 worker_advances) f = Some f1 ->
  run_moves (replicate n2 worker_advances) f1 = Some f2 ->
  run_moves (replicate (n1 + n2) worker_advances) f = Some f2.
Proof.
  intros H1 H2. rewrite replicate_add, run_moves_app, H1. exact H2.
Qed.

(** The pass the worker is in comes to its end. *)
Lemma worker_finishes_pass {subclass : Subclass} (f : Threads) :
  undisturbed f ->
  worker_at f = AtVideo \/ worker_at f = AtAudio \/ worker_at f = AtPacket ->
  exists n f',
    run_moves (replicate n worker_advances) f = Some f' /\
    undisturbed f' /\
    worker_at f' = AtLoopHead /\
    (queued (object f') <= queued (object f))%nat.
Proof.
  intros Hf Hp.
  assert (Hpacket : forall f3, undisturbed f3 -> worker_at f3 = AtPacket ->
            exists n f',
              run_moves (replicate n worker_advances) f3 = Some f' /\
              undisturbed f' /\ worker_at f' = AtLoopHead /\
              (queued (object f') <= queued (object f3))%nat).
  { intros f3 H3 Hp3.
    destruct (worker_advances_undisturbed f3 H3) as (f4 & Hm & H4 & Hp4 & Hle);
      [congruence | congruence |].
    rewrite Hp3 in Hp4. exists 1%nat, f4.
    split; [now apply (run_worker_S 0 f3 f4 f4) |].
    split; [assumption |]. split; assumption. }
  assert (Haudio : forall f2, undisturbed f2 -> worker_at f2 = AtAudio ->
            exists n f',
              run_moves (replicate n worker_advances) f2 = Some f' /\
              undisturbed f' /\ worker_at f' = AtLoopHead /\
              (queued (object f') <= queued (object f2))%nat).
  { intros f2 H2 Hp2.
    destruct (worker_advances_undisturbed f2 H2) as (f3 & Hm & H3 & Hp3 & Hle);
      [congruence | congruence |].
    rewrite Hp2 in Hp3.
    destruct (Hpacket f3 H3 Hp3) as (n & f' & Hrun & H' & Hp' & Hle').
    exists (S n), f'. split; [now apply (run_worker_S n f2 f3 f') |].
    split; [assumption |]. split; [assumption | lia]. }
  destruct Hp as [Hp | [Hp | Hp]].
  - destruct (worker_advances_undisturbed f Hf) as (f2 & Hm & H2 & Hp2 & Hle);
      [congruence | congruence |].
    rewrite Hp in Hp2.
    destruct (Haudio f2 H2 Hp2) as (n & f' & Hrun & H' & Hp' & Hle').
    exists (S n), f'. split; [now apply (run_worker_S n f f2 f') |].
    split; [assumption |]. split; [assumption | lia].
  - now apply Haudio.
  - now apply Hpacket.
Qed.

(** A whole iteration from the loop condition takes something when
    something is queued. *)
Lemma worker_iteration {subclass : Subclass} (f : Threads) :
  undisturbed f ->
  worker_at f = AtLoopHead ->
  (0 < queued (object f))%nat ->
  exists f',
    run_moves (replicate 5 worker_advances) f = Some f' /\
    undisturbed f' /\
    worker_at f' = AtLoopHead /\
    (queued (object f') < queued (object f))%nat.
Proof.
  intros Hf Hp Hpos.
  destruct (worker_advances_undisturbed f Hf) as (f1 & Hm1 & H1 & Hp1 & Hle1);
    [congruence | congruence |].
  rewrite Hp in Hp1. cbn in Hp1.
  assert (Hq1 : queued (object f1) = queued (object f)).
  { destruct f as [s p u st]. cbn in Hp; subst p. cbn in Hm1.
    destruct Hf as (_ & _ & _ & Hflag & _). cbn in Hflag. rewrite Hflag in Hm1.
    cbn in Hm1. now inversion Hm1. }
  destruct (worker_advances_undisturbed f1 H1) as (f2 & Hm2 & H2 & Hp2 & Hle2);
    [congruence | lia |].
  rewrite Hp1 in Hp2. cbn in Hp2.
  assert (Hq2 : queued (object f2) = queued (object f1)).
  { destruct f1 as [s p u st]. cbn in Hp1; subst p. cbn in Hm2.
    destruct (ov.Wait (_queue_event s)); [| discriminate].
    cbn in Hm2. inversion Hm2. now destruct s. }
  pose proof (worker_pass f2 Hp2) as Hpass.
  destruct (H2) as (Hk2 & Hcov2 & Hu2 & Hflag2 & Hall2).
  specialize (Hpass (Forall_session_front _ Hall2)).
  match type of Hpass with _ = Some ?a => set (f' := a) in * end.
  exists f'. split.
  - apply (run_worker_S 4 f f1 f' Hm1).
    apply (run_worker_S 3 f1 f2 f' Hm2). exact Hpass.
  - destruct (run_moves_covers _ f2 f' Hk2 Hcov2 Hpass) as [Hk' Hcov'].
    pose proof (queued_after_drain (object f2)) as [_ Hlt].
    specialize (Hlt ltac:(lia)).
    assert (Hq' : queued (object f') = queued (after_drain (object f2)))
      by (subst f'; cbn; now destruct (object f2)).
    split; [| split; [reflexivity | lia]].
    split; [exact Hk' |]. split; [exact Hcov' |].
    split; [exact Hu2 |].
    subst f'; cbn [object].
    split; [destruct (object f2); exact Hflag2 |].
    destruct (object f2) as [flag worker streams vq aq pq ev vts ats config tr];
      cbn in *. now apply Forall_session_tail.
Qed.

Lemma worker_drains_from_loop_head {subclass : Subclass} (m : nat) :
  forall f : Threads,
    (queued (object f) <= m)%nat ->
    undisturbed f ->
    worker_at f = AtLoopHead ->
    exists n f',
      run_moves (replicate n worker_advances) f = Some f' /\
      queued (object f') = 0%nat.
Proof.
  induction m as [| m IH]; intros f Hle Hf Hp.
  - exists 0%nat, f. split; [reflexivity | lia].
  - destruct (Nat.eq_dec (queued (object f)) 0%nat) as [Hzero | Hpos].
    { exists 0%nat, f. split; [reflexivity | exact Hzero]. }
    destruct (worker_iteration f Hf Hp ltac:(lia))
      as (f1 & Hrun1 & H1 & Hp1 & Hlt).
    destruct (IH f1 ltac:(lia) H1 Hp1) as (n & f' & Hrun & Hdone).
    exists (5 + n)%nat, f'. split; [| exact Hdone].
    exact (run_worker_add 5 n f f1 f' Hrun1 Hrun).
Qed.

(** Left to itself, a running worker drains whatever is queued, wherever
    it stands, without sleeping. *)
Lemma worker_drains {subclass : Subclass} (f : Threads) :
  undisturbed f ->
  worker_at f <> AtReturn ->
  exists n f',
    run_moves (replicate n worker_advances) f = Some f' /\
    queued (object f') = 0%nat.
Proof.
  intros Hf Hp.
  destruct (Nat.eq_dec (queued (object f)) 0%nat) as [Hzero | Hpos].
  { exists 0%nat, f. split; [reflexivity | exact Hzero]. }
  assert (Hmid : forall f1, undisturbed f1 ->
            worker_at f1 = AtVideo \/ worker_at f1 = AtAudio \/
            worker_at f1 = AtPacket ->
            exists n f',
              run_moves (replicate n worker_advances) f1 = Some f' /\
              queued (object f') = 0%nat).
  { intros f1 H1 Hp1.
    destruct (worker_finishes_pass f1 H1 Hp1) as (n1 & f2 & Hrun1 & H2 & Hp2 & _).
    destruct (worker_drains_from_loop_head _ f2 (le_n _) H2 Hp2)
      as (n2 & f' & Hrun2 & Hdone).
    exists (n1 + n2)%nat, f'. split; [| exact Hdone].
    exact (run_worker_add n1 n2 f1 f2 f' Hrun1 Hrun2). }
  destruct (worker_at f) eqn:Hat.
  - now apply (worker_drains_from_loop_head (queued (object f))).
  - destruct (worker_advances_undisturbed f Hf) as (f1 & Hm & H1 & Hp1 & _);
      [congruence | lia |].
    rewrite Hat in Hp1. cbn in Hp1.
    destruct (Hmid f1 H1 (or_introl Hp1)) as (n & f' & Hrun & Hdone).
    exists (S n), f'. split; [| exact Hdone].
    exact (run_worker_S n f f1 f' Hm Hrun).
  - apply Hmid; auto.
  - apply Hmid; auto.
  - apply Hmid; auto.
  - contradiction.
Qed.

(** The worker comes to the body of the loop only out of [Wait()]. *)
Lemma body_entered_from_Wait {subclass : Subclass} (m : Move) (f f' : Threads) :
  run_move m f = Some f' ->
  worker_at f' = AtVideo ->
  worker_at f = AtVideo \/ (worker_at f = AtWait /\ m = worker_advances).
Proof.
  intros Hmove Hat. destruct f as [s p u st].
  destruct m as [x | | | | info | info |]; cbn in Hmove.
  - destruct (enqueue x s) as [[] s1 | e s1]; [| discriminate].
    inversion Hmove; subst. now left.
  - destruct u; [discriminate |].
    destruct (queue_event_Notify s) as [[] s1 | e s1]; [| discriminate].
    inversion Hmove; subst. now left.
  - destruct (_stop_thread_flag s); [discriminate |].
    inversion Hmove; subst. now left.
  - destruct st; [| discriminate].
    destruct (queue_event_Notify s) as [[] s1 | e s1]; [| discriminate].
    inversion Hmove; subst. now left.
  - destruct (OnCreateStream info s) as [r s1 | e s1]; [| discriminate].
    inversion Hmove; subst. now left.
  - destruct (OnDeleteStream info s) as [r s1 | e s1]; [| discriminate].
    inversion Hmove; subst. now left.
  - destruct p; cbn in Hmove.
    + destruct (_stop_thread_flag s); cbn in Hmove; inversion Hmove; subst;
        discriminate.
    + right. split; reflexivity.
    + now left.
    + destruct (WorkerThread_audio s); cbn in Hmove; inversion Hmove; subst;
        discriminate.
    + destruct (WorkerThread_packet s); cbn in Hmove; inversion Hmove; subst;
        discriminate.
    + discriminate.
Qed.

(** C3, amended. Every iteration of the dispatch loop first calls [Wait()]
    on the queue event, whatever the iteration before has drained: from the
    loop condition, with the stop flag clear, the worker goes into [Wait()]
    and nowhere else, and it comes to the body of the loop only out of
    [Wait()].  [Wait()] sleeps exactly when no signal is pending; otherwise
    it consumes a signal (one of the pending ones when the event counts, all
    of them when it is binary), and the three parts of the body that follow
    take the front item, and only that, off each non-empty queue.  When the
    event counts its signals, then at every point of every interleaving of
    the threads' statements each queued item is covered by a pending signal,
    by the [Notify()] its producer has yet to call, or by the signal consumed
    for the pass under way.  So a worker in [Wait()] with an item queued has
    a signal pending or one on its way, and is not asleep once the producers
    have notified; and a running worker left to itself drains a burst of
    enqueues to the last item, without sleeping and without a further
    signal. *)
Theorem WorkerThread_wait_policy {subclass : Subclass}
    (k : ov.EventKind) (config : cfg.CmafPublisher) (f : Threads) :
  interleaved k config f ->
  (worker_at f = AtLoopHead -> _stop_thread_flag (object f) = false ->
   run_move worker_advances f
   = Some (mkThreads (object f) AtWait (unsignalled f) (stopping f))) /\
  (forall m f', run_move m f = Some f' -> worker_at f' = AtVideo ->
     worker_at f = AtVideo \/ (worker_at f = AtWait /\ m = worker_advances)) /\
  (worker_at f = AtWait ->
   (run_move worker_advances f = None <->
    ov.pending (_queue_event (object f)) = 0%nat) /\
   forall f', run_move worker_advances f = Some f' ->
     worker_at f' = AtVideo /\
     object f' = set_trace (trace (object f) ++ [QueueWait])
                   (set_queue_event (_queue_event (object f')) (object f)) /\
     match k with
     | ov.Counting =>
         ov.pending (_queue_event (object f))
         = S (ov.pending (_queue_event (object f')))
     | ov.Binary =>
         (0 < ov.pending (_queue_event (object f)))%nat /\
         ov.pending (_queue_event (object f')) = 0%nat
     end) /\
  (worker_at f = AtVideo -> front_packet_has_session (object f) = true ->
   run_moves [worker_advances; worker_advances; worker_advances] f
   = Some (mkThreads
             (set_trace (trace (object f) ++ pass_actions (object f))
                (after_drain (object f)))
             AtLoopHead (unsignalled f) (stopping f)) /\
   ~ In QueueWait (pass_actions (object f)) /\
   forall q,
     pops q (pass_actions (object f)) = Nat.min 1 (queue_length q (object f))) /\
  (k = ov.Counting ->
   signals_cover_threads f /\
   (worker_at f = AtWait -> (0 < queued (object f))%nat ->
    (0 < ov.pending (_queue_event (object f)) + unsignalled f)%nat) /\
   (worker_at f = AtWait -> unsignalled f = 0%nat ->
    (0 < queued (object f))%nat ->
    run_move worker_advances f <> None) /\
   (unsignalled f = 0%nat -> _stop_thread_flag (object f) = false ->
    worker_at f <> AtReturn ->
    Forall (fun packet => _session_info packet <> None)
      (_incoming_packet_queue (object f)) ->
    exists n f',
      run_moves (replicate n worker_advances) f = Some f' /\
      queued (object f') = 0%nat)).
Proof.
  intros Hreach.
  pose proof (interleaved_kind k config f Hreach) as Hk.
  assert (Hsleep : worker_at f = AtWait ->
            (run_move worker_advances f = None <->
             ov.pending (_queue_event (object f)) = 0%nat)).
  { intros Hat. destruct f as [s p u st]; cbn in Hat; subst p.
    cbn [run_move worker_at object WorkerThread_advance]. unfold ov.Wait.
    destruct (ov.pending (_queue_event s)); cbn; split; intros H;
      try reflexivity; discriminate. }
  split; [| split; [| split; [| split]]].
  - intros Hat Hflag. destruct f as [s p u st]; cbn in Hat, Hflag; subst p.
    cbn. now rewrite Hflag.
  - intros m f'. apply body_entered_from_Wait.
  - intros Hat. split; [exact (Hsleep Hat) |].
    intros f' Hmove. destruct f as [s p u st]; cbn in Hat; subst p.
    cbn [run_move worker_at object unsignalled stopping] in Hmove.
    destruct (WorkerThread_advance AtWait s) as [[o p] |] eqn:Hadv;
      [| discriminate].
    apply WorkerThread_advance_AtWait in Hadv as (e & Hwait & -> & ->).
    cbn in Hmove. inversion Hmove; subst f'; clear Hmove.
    cbn [object worker_at] in *. split; [reflexivity |].
    split; [now destruct s |].
    unfold ov.Wait in Hwait.
    destruct (ov.pending (_queue_event s)) as [| n]; [discriminate |].
    injection Hwait as <-. destruct s; cbn in *. rewrite Hk.
    destruct k; [reflexivity | split; [lia | reflexivity]].
  - intros Hat Hsafe. split; [exact (worker_pass f Hat Hsafe) |].
    split; [apply (pass_actions_pops (object f) video_stream_queue) |].
    intros q. apply (pass_actions_pops (object f) q).
  - intros ->. pose proof (interleaved_covers config f Hreach) as Hcov.
    split; [exact Hcov |].
    assert (Hsignal : worker_at f = AtWait -> (0 < queued (object f))%nat ->
              (0 < ov.pending (_queue_event (object f)) + unsignalled f)%nat).
    { intros Hat Hpos. unfold signals_cover_threads in Hcov.
      rewrite Hat in Hcov. cbn in Hcov. lia. }
    split; [exact Hsignal |]. split.
    + intros Hat Hu Hpos Hnone. apply (Hsleep Hat) in Hnone.
      specialize (Hsignal Hat Hpos). lia.
    + intros Hu Hflag Hat Hall. apply worker_drains; [| exact Hat].
      repeat split; assumption.
Qed.

Lemma WorkerThread_wait_policy_witness :
  exists f,
    run_moves (subclass := Scenario.numbering)
      [worker_advances; worker_advances]
      (threads_of Scenario.app_two_frames) = Some f /\
    worker_at f = AtAudio /\
    queued (object f) = 1%nat /\
    exists n f',
      run_moves (subclass := Scenario.numbering)
        (replicate n worker_advances) f = Some f' /\
      queued (object f') = 0%nat.
Proof.
  eexists.
  match goal with |- ?R = Some ?a /\ _ =>
    let v := eval vm_compute in R in
    match v with Some ?b => unify a b end end.
  split; [vm_compute; reflexivity |].
  split; [reflexivity |]. split; [reflexivity |].
  match goal with |- exists n f', run_moves _ ?a = _ /\ _ =>
    pose proof (WorkerThread_wait_policy (subclass := Scenario.numbering)
                  ov.Counting cfg.unconfigured a) as Hpolicy
  end.
  destruct Hpolicy as (_ & _ & _ & _ & Hcounting).
  - exists Scenario.two_frames, Scenario.app_two_frames,
      [worker_advances; worker_advances].
    split; vm_compute; reflexivity.
  - destruct (Hcounting eq_refl) as (_ & _ & _ & Hdrain).
    apply Hdrain.
    + reflexivity.
    + reflexivity.
    + discriminate.
    + constructor.
Defined.

(** Takes the worker's next statement in a run of [worker_advances]. *)
Ltac worker_statement :=
  cbn [replicate run_moves run_move worker_at object unsignalled stopping
       WorkerThread_advance];
  rewrite ?WorkerThread_video_trace, ?WorkerThread_audio_trace;
  try (rewrite WorkerThread_packet_trace
        by (unfold front_packet_has_session in *; cbn in *; assumption));
  cbn [completed]; members.

(** The callers' view is one of the interleavings: a move of the worker out
    of [Wait()] there is the four statements from [Wait()] to the end of the
    body taken here in a row, and a producer's call is its two steps (see
    [submit_in_two_steps]). *)
Lemma WorkerThread_step_in_statements {subclass : Subclass}
    (s s' : Application) :
  _worker_thread s = Some InWait ->
  WorkerThread_step s = Some (Ok tt s') ->
  exists f',
    run_moves (replicate 4 worker_advances) (threads_of s) = Some f' /\
    worker_at f' = AtLoopHead /\
    s' = set_worker_thread (Some LoopHead) (object f').
Proof.
  intros Hpc Hstep.
  destruct (WorkerThread_step_wakes s s' Hpc Hstep) as [Hwait Hs'].
  assert (Hsafe : front_packet_has_session s = true).
  { pose proof (WorkerThread_step_InWait s _ Hpc Hwait) as H.
    destruct (front_packet_has_session s); [reflexivity |].
    destruct H as [s'' H]. rewrite H in Hstep. discriminate. }
  destruct s as [flag worker streams vq aq pq ev vts ats config tr].
  cbn in Hpc; subst worker. members_in Hwait.
  unfold threads_of; members.
  eexists.
  cbn [replicate run_moves run_move worker_at object unsignalled stopping
       WorkerThread_advance].
  members. rewrite Hwait. run_m.
  do 3 worker_statement.
  split; [reflexivity |]. split; [reflexivity |].
  rewrite Hs'. unfold pass_actions, after_drain; members.
  cbn [worker_at object]. unfold set_worker_thread; members.
  now rewrite <- !app_assoc.
Qed.

(** ** Shutdown and the queues *)

(** X10. [Stop()] does not flush the queues.  Once it has set the flag and
    notified, the worker, running on while no producer pushes, returns after
    finishing the pass it is in: found at the loop condition it takes
    nothing, found in [Wait()] or before the video part it takes the front
    item off each non-empty queue, found before the audio part only the
    front audio frame and the front packet, found before the packet part
    only the front packet (a front packet that it takes must name a session,
    or the worker faults).  Everything behind those stays queued when the
    worker has returned and [Stop()] can join it. *)
Theorem Stop_leaves_backlog {subclass : Subclass} (f f1 : Threads) :
  run_moves [stop_sets_flag; stop_notifies] f = Some f1 ->
  worker_at f <> AtReturn ->
  (worker_at f <> AtLoopHead -> front_packet_has_session (object f) = true) ->
  exists n f',
    run_moves (replicate n worker_advances) f1 = Some f' /\
    worker_at f' = AtReturn /\
    _stop_thread_flag (object f') = true /\
    (_video_stream_queue (object f'), _audio_stream_queue (object f'),
     _incoming_packet_queue (object f'))
    = after_last_pass (worker_at f) (object f).
Proof.
  intros Hstop Hat Hsafe.
  destruct f as [s p u st].
  destruct s as [flag worker streams vq aq pq ev vts ats config tr].
  cbn [worker_at object] in *.
  revert Hstop.
  cbn [run_moves run_move object worker_at unsignalled stopping
       _stop_thread_flag].
  destruct flag; [discriminate |].
  unfold queue_event_Notify; run_m.
  intros Hstop; inversion Hstop; subst f1; clear Hstop.
  destruct p.
  - exists 1%nat. eexists. worker_statement.
    split; [reflexivity |]. repeat split.
  - specialize (Hsafe ltac:(discriminate)).
    exists 5%nat. destruct ev as [[|] pending]; eexists;
      cbn [replicate run_moves run_move worker_at object unsignalled stopping
           WorkerThread_advance];
      unfold ov.Wait, ov.Notify; members;
      cbn [ov.kind ov.pending]; run_m;
      do 4 worker_statement;
      (split; [reflexivity |]); repeat split.
  - specialize (Hsafe ltac:(discriminate)).
    exists 4%nat. eexists. do 4 worker_statement.
    split; [reflexivity |]. repeat split.
  - specialize (Hsafe ltac:(discriminate)).
    exists 3%nat. eexists. do 3 worker_statement.
    split; [reflexivity |]. repeat split.
  - specialize (Hsafe ltac:(discriminate)).
    exists 2%nat. eexists. do 2 worker_statement.
    split; [reflexivity |]. repeat split.
  - contradiction.
Qed.

(** ** Every item accounted for *)

Lemma accounted_refl (s : Application) : accounted [] [] [] s s.
Proof.
  exists [], [], [], []. rewrite !app_nil_r. repeat split; constructor.
Qed.

Lemma accounted_trans (pv1 pv2 : list VideoStreamData)
    (pa1 pa2 : list AudioStreamData) (pp1 pp2 : list IncomingPacket)
    (s1 s2 s3 : Application) :
  accounted pv1 pa1 pp1 s1 s2 -> accounted pv2 pa2 pp2 s2 s3 ->
  accounted (pv1 ++ pv2) (pa1 ++ pa2) (pp1 ++ pp2) s1 s3.
Proof.
  intros (tv1 & ta1 & tp1 & w1 & Ht1 & Hv1 & Ha1 & Hp1 & Hlv1 & Hla1 & Hlp1
          & Hsv1 & Hsa1 & Hr1 & Hall1)
         (tv2 & ta2 & tp2 & w2 & Ht2 & Hv2 & Ha2 & Hp2 & Hlv2 & Hla2 & Hlp2
          & Hsv2 & Hsa2 & Hr2 & Hall2).
  exists (tv1 ++ tv2), (ta1 ++ ta2), (tp1 ++ tp2), (w1 ++ w2).
  rewrite Ht2, Ht1, !pops_app, !length_app, sent_video_app, sent_audio_app,
    received_app, !map_app, !omap_app.
  split; [now rewrite app_assoc |].
  split; [now rewrite app_assoc, Hv1, <- !app_assoc, Hv2 |].
  split; [now rewrite app_assoc, Ha1, <- !app_assoc, Ha2 |].
  split; [now rewrite app_assoc, Hp1, <- !app_assoc, Hp2 |].
  repeat split; try lia; try (now apply sublist_app);
    try (now apply Forall_app); congruence.
Qed.

(** A step that pops nothing and hands nothing out. *)
Lemma accounted_push (pv : list VideoStreamData) (pa : list AudioStreamData)
    (pp : list IncomingPacket) (s s' : Application) (w : list Action) :
  trace s' = trace s ++ w ->
  _video_stream_queue s' = _video_stream_queue s ++ pv ->
  _audio_stream_queue s' = _audio_stream_queue s ++ pa ->
  _incoming_packet_queue s' = _incoming_packet_queue s ++ pp ->
  (forall q, pops q w = 0%nat) ->
  sent_video w = [] -> sent_audio w = [] -> received w = [] ->
  accounted pv pa pp s s'.
Proof.
  intros Ht Hv Ha Hp Hpops Hsv Hsa Hr.
  exists [], [], [], w. rewrite Hv, Ha, Hp, !Hpops, Hsv, Hsa, Hr.
  repeat split; try assumption; constructor.
Qed.

Lemma route_media_packet (m : gmap N StreamRef) (q : list StreamData) :
  map snd (omap (route m) q) `sublist_of` omap _media_packet q.
Proof.
  induction q as [| data rest IH]; [constructor |].
  cbn. unfold route at 1.
  destruct (_stream data), (_media_packet data) as [media_packet |];
    try (destruct (m !! GetId _)); cbn;
    try (now constructor); try exact IH.
Qed.

Lemma WorkerThread_step_accounted (s s' : Application) (u : unit) :
  WorkerThread_step s = Some (Ok u s') -> accounted [] [] [] s s'.
Proof.
  intros Hstep. unfold WorkerThread_step in Hstep.
  destruct s as [flag [[| |] |] streams vq aq pq ev vts ats config tr];
    cbn in Hstep; try discriminate.
  - destruct flag; cbv in Hstep; inversion Hstep; subst s'.
    + apply (accounted_push [] [] [] _ _ [ThreadExit]); cbn;
        rewrite ?app_nil_r; try reflexivity; try (now intros []).
    + apply (accounted_push [] [] [] _ _ []); cbn;
        rewrite ?app_nil_r; try reflexivity.
  - destruct (ov.Wait ev) as [e |]; [| discriminate].
    revert Hstep. cbv [mbind M_bind modify act]. intros Hstep.
    match type of Hstep with context [WorkerThread_drain ?a] =>
      pose proof (WorkerThread_drain_acts a) as Hd end.
    destruct (front_packet_has_session _) eqn:Hsafe.
    + destruct Hd as (w & Hrun & Hv & Ha & Hr & Hs & Hpu & Hpv & Hpa & Hpp).
      rewrite Hrun in Hstep. inversion Hstep; subst s'.
      unfold front_packet_has_session in Hsafe. members_in Hsafe.
      members_in Hv. members_in Ha. members_in Hr.
      members_in Hpv. members_in Hpa. members_in Hpp.
      exists (take 1 vq), (take 1 aq), (take 1 pq), (QueueWait :: w).
      members. rewrite <- app_assoc, !app_nil_r.
      change (pops video_stream_queue (QueueWait :: w))
        with (pops video_stream_queue w).
      change (pops audio_stream_queue (QueueWait :: w))
        with (pops audio_stream_queue w).
      change (pops incoming_packet_queue (QueueWait :: w))
        with (pops incoming_packet_queue w).
      change (sent_video (QueueWait :: w)) with (sent_video w).
      change (sent_audio (QueueWait :: w)) with (sent_audio w).
      change (received (QueueWait :: w)) with (received w).
      rewrite Hv, Ha, Hr, Hpv, Hpa, Hpp.
      split; [reflexivity |].
      split; [now destruct vq |]. split; [now destruct aq |].
      split; [now destruct pq |].
      repeat split; try apply route_media_packet.
      destruct pq as [| packet rest]; cbn; constructor; [| constructor].
      now destruct (_session_info packet).
    + destruct Hd as (s'' & Hrun). rewrite Hrun in Hstep. discriminate.
Qed.

Lemma WorkerThread_run_accounted (fuel : nat) :
  forall (s s' : Application) (r : bool),
    WorkerThread_run fuel s = Ok r s' -> accounted [] [] [] s s'.
Proof.
  induction fuel as [| fuel IH]; intros s s' r Hrun; cbn in Hrun.
  - destruct (_worker_thread s) as [[| |] |]; inversion Hrun; subst;
      apply accounted_refl.
  - assert (Hmove :
      match WorkerThread_step s with
      | Some (Ok _ s1) => WorkerThread_run fuel s1
      | Some (Abort f s1) => Abort f s1
      | None => Ok false s
      end = Ok r s' -> accounted [] [] [] s s').
    { destruct (WorkerThread_step s) as [[u s1 | f s1] |] eqn:Hstep;
        intros Hmove.
      - apply (accounted_trans [] [] [] [] [] [] s s1 s');
          [eapply WorkerThread_step_accounted; exact Hstep
          | eapply IH; eauto].
      - discriminate.
      - inversion Hmove; subst. apply accounted_refl. }
    destruct (_worker_thread s) as [[| |] |]; auto.
    inversion Hrun; subst. apply accounted_refl.
Qed.

Lemma Stop_accounted (s s' : Application) (r : bool) :
  Stop s = Ok r s' -> accounted [] [] [] s s'.
Proof.
  destruct s as [flag worker streams vq aq pq ev vts ats config tr].
  destruct flag, worker as [pc |];
    unfold Stop, worker_thread_join; step_m; intros Hstop.
  1, 2: inversion Hstop; subst; apply accounted_refl.
  - match type of Hstop with context [WorkerThread_run join_fuel ?a] =>
      destruct (WorkerThread_run join_fuel a) as [[|] s1 | f s1] eqn:Hrun
    end; try discriminate.
    apply WorkerThread_run_accounted in Hrun.
    destruct s1 as [flag1 worker1 streams1 vq1 aq1 pq1 ev1 vts1 ats1
                    config1 tr1].
    cbv beta iota in Hstop. inversion Hstop; subst s'.
    match type of Hrun with accounted _ _ _ ?a ?b =>
      apply (accounted_trans [] [] [] [] [] []
               (mkApplication false (Some pc) streams vq aq pq ev vts ats
                  config tr) a _);
      [apply (accounted_push [] [] [] _ _ [QueueNotify]); cbn;
       rewrite ?app_nil_r; try reflexivity; try (now intros [])
      | apply (accounted_trans [] [] [] [] [] [] a b _);
        [exact Hrun
        | apply (accounted_push [] [] [] _ _ [ThreadJoin]); cbn;
          rewrite ?app_nil_r; try reflexivity; try (now intros [])]]
    end.
  - inversion Hstop; subst s'.
    apply (accounted_push [] [] [] _ _ [QueueNotify]); cbn;
      rewrite ?app_nil_r; try reflexivity; try (now intros []).
Qed.

Ltac pushes_only :=
  eapply accounted_push;
  [cbn; reflexivity
  | cbn; rewrite ?app_nil_r; try reflexivity; try (now intros []) ..].

Lemma run_call_accounted {subclass : Subclass} (c : Call) (s s' : Application) :
  run_call c s = Some s' ->
  accounted (submitted_video [c]) (submitted_audio [c])
    (submitted_packets [c]) s s'.
Proof.
  intros Hcall.
  destruct c as [| | info | info | stream media_packet
                 | stream media_packet | session_info data |];
    cbn in Hcall;
    cbn [submitted_video submitted_audio submitted_packets omap list_omap].
  - destruct s as [flag [pc |] streams vq aq pq ev vts ats config tr];
      unfold Start in Hcall; run_m; cbn in Hcall; inversion Hcall.
    pushes_only.
  - destruct (Stop s) as [r s1 | f s1] eqn:Hstop; inversion Hcall; subst.
    exact (Stop_accounted _ _ _ Hstop).
  - destruct s; unfold OnCreateStream in Hcall; revert Hcall; run_m.
    match goal with |- context [CreateStream ?a ?b ?c] =>
      destruct (CreateStream a b c) end; run_m;
      intros Hcall; inversion Hcall;
      pushes_only.
  - destruct s; unfold OnDeleteStream in *; revert Hcall; run_m.
    match goal with |- context [?m !! ?i] => destruct (m !! i) end; run_m.
    + match goal with |- context [DeleteStream ?a ?b] =>
        destruct (DeleteStream a b) end; run_m;
        intros Hcall; inversion Hcall;
        pushes_only.
    + intros Hcall; inversion Hcall;
        pushes_only.
  - destruct s as [flag worker streams vq aq pq ev vts ats config tr].
    destruct stream as [stream |], media_packet as [media_packet |];
      unfold OnSendVideoFrame, timestamp_ms in Hcall; revert Hcall; run_m;
      try discriminate.
    destruct (GetTrack stream (GetTrackId media_packet)); run_m;
      [| discriminate].
    intros Hcall; inversion Hcall.
    pushes_only.
  - destruct s as [flag worker streams vq aq pq ev vts ats config tr].
    destruct stream as [stream |], media_packet as [media_packet |];
      unfold OnSendAudioFrame, timestamp_ms in Hcall; revert Hcall; run_m;
      try discriminate.
    destruct (GetTrack stream (GetTrackId media_packet)); run_m;
      [| discriminate].
    intros Hcall; inversion Hcall.
    pushes_only.
  - destruct s as [flag worker streams vq aq pq ev vts ats config tr].
    unfold PushIncomingPacket in Hcall; revert Hcall; run_m.
    intros Hcall; inversion Hcall.
    pushes_only.
  - destruct (WorkerThread_step s) as [[[] s1 | f s1] |] eqn:Hstep;
      inversion Hcall; subst.
    exact (WorkerThread_step_accounted _ _ _ Hstep).
Qed.

Lemma run_calls_accounted {subclass : Subclass} (cs : list Call) :
  forall s s' : Application,
    run_calls cs s = Some s' ->
    accounted (submitted_video cs) (submitted_audio cs)
      (submitted_packets cs) s s'.
Proof.
  induction cs as [| c cs IH]; intros s s' Hrun; cbn in Hrun.
  - inversion Hrun; subst. apply accounted_refl.
  - destruct (run_call c s) as [s1 |] eqn:Hcall; [| discriminate].
    change (c :: cs) with ([c] ++ cs).
    unfold submitted_video, submitted_audio, submitted_packets.
    rewrite !omap_app.
    exact (accounted_trans _ _ _ _ _ _ s s1 s'
             (run_call_accounted c s s1 Hcall) (IH s1 s' Hrun)).
Qed.

Lemma run_calls_counts {subclass : Subclass} (cs : list Call) :
  forall s s' : Application,
    run_calls cs s = Some s' ->
    (forall q, pushes q (trace s) = (pops q (trace s) + queue_length q s)%nat) ->
    forall q, pushes q (trace s') = (pops q (trace s') + queue_length q s')%nat.
Proof.
  induction cs as [| c cs IH]; intros s0 s' Hrun Hinv; cbn in Hrun.
  - inversion Hrun; subst. exact Hinv.
  - destruct (run_call c s0) as [s1 |] eqn:Hcall; [| discriminate].
    apply (IH s1 s' Hrun).
    destruct (run_call_effect c s0 s1 Hcall) as (w & Ht & _ & Hq).
    intros q. specialize (Hq q). specialize (Hinv q).
    rewrite Ht, pushes_app, pops_app. lia.
Qed.

(** X5. Nothing queued is lost, handed out twice or out of turn.  Whatever
    calls a newly constructed application has answered, the frames submitted
    to a queue are, in the order submitted, those the worker has taken off
    it followed by those still waiting in it, with one pop for each frame
    taken; the packets handed to streams are, in order, among the packets of
    the frames taken, each at most once; and every packet taken off the
    packet queue has been handed to its session, with its data, once and in
    order.  Each queue has been pushed on as often as it has been popped
    plus the number of items still waiting. *)
Theorem queue_conservation {subclass : Subclass}
    (k : ov.EventKind) (config : cfg.CmafPublisher)
    (cs : list Call) (s : Application) :
  run_calls cs (Application_new k config) = Some s ->
  (exists tv ta tp,
      submitted_video cs = tv ++ _video_stream_queue s /\
      submitted_audio cs = ta ++ _audio_stream_queue s /\
      submitted_packets cs = tp ++ _incoming_packet_queue s /\
      length tv = pops video_stream_queue (trace s) /\
      length ta = pops audio_stream_queue (trace s) /\
      length tp = pops incoming_packet_queue (trace s) /\
      map snd (sent_video (trace s)) `sublist_of` omap _media_packet tv /\
      map snd (sent_audio (trace s)) `sublist_of` omap _media_packet ta /\
      received (trace s) = omap delivery tp /\
      length (received (trace s)) = length tp) /\
  forall q, pushes q (trace s) = (pops q (trace s) + queue_length q s)%nat.
Proof.
  intros Hrun. split.
  - destruct (run_calls_accounted cs _ s Hrun)
      as (tv & ta & tp & w & Ht & Hv & Ha & Hp & Hlv & Hla & Hlp
          & Hsv & Hsa & Hr & Hall).
    cbn in Ht, Hv, Ha, Hp. subst w.
    exists tv, ta, tp. repeat split; try assumption.
    rewrite Hr. clear Hr Hlp Hp.
    induction Hall as [| packet rest Hsession _ IH]; [reflexivity |].
    cbn. unfold delivery at 1.
    destruct (_session_info packet); [| contradiction]. cbn. now rewrite IH.
  - apply (run_calls_counts cs _ s Hrun). now intros [].
Qed.

Lemma queue_conservation_witness :
  exists s tv,
    run_calls (subclass := Scenario.numbering)
      (call_OnCreateStream Scenario.info7
         :: Scenario.two_frames ++ [worker_moves])
      Scenario.app0 = Some s /\
    submitted_video
      (call_OnCreateStream Scenario.info7
         :: Scenario.two_frames ++ [worker_moves])
    = tv ++ _video_stream_queue s /\
    length tv = 1%nat /\
    length (_video_stream_queue s) = 1%nat /\
    sent_video (trace s) = [(0%nat, Scenario.packet1)].
Proof.
  eexists.
  match goal with |- exists tv, ?R = Some ?a /\ _ =>
    let v := eval vm_compute in R in
    match v with Some ?b => unify a b end end.
  match goal with |- exists tv, _ = Some ?a /\ _ =>
    destruct (queue_conservation (subclass := Scenario.numbering)
                ov.Counting cfg.unconfigured
                (call_OnCreateStream Scenario.info7
                   :: Scenario.two_frames ++ [worker_moves]) a)
      as [(tv & ta & tp & Hv & _ & _ & Hlv & _) _]
  end.
  - vm_compute. reflexivity.
  - exists tv. split; [vm_compute; reflexivity |].
    split; [exact Hv |]. split; [exact Hlv |].
    split; reflexivity.
Defined.

Lemma Stop_leaves_backlog_witness :
  exists f f1,
    run_moves (subclass := Scenario.numbering)
      [worker_advances; worker_advances]
      (threads_of Scenario.app_two_frames) = Some f /\
    worker_at f = AtAudio /\
    run_moves (subclass := Scenario.numbering)
      [stop_sets_flag; stop_notifies] f = Some f1 /\
    exists n f',
      run_moves (subclass := Scenario.numbering)
        (replicate n worker_advances) f1 = Some f' /\
      worker_at f' = AtReturn /\
      length (_video_stream_queue (object f')) = 1%nat.
Proof.
  eexists.
  match goal with |- exists f1, ?R = Some ?a /\ _ =>
    let v := eval vm_compute in R in
    match v with Some ?b => unify a b end end.
  eexists.
  match goal with |- _ /\ _ /\ ?R = Some ?a /\ _ =>
    let v := eval vm_compute in R in
    match v with Some ?b => unify a b end end.
  split; [vm_compute; reflexivity |]. split; [reflexivity |].
  split; [vm_compute; reflexivity |].
  match goal with
  | |- exists n f', run_moves (replicate n worker_advances) ?b = _ /\ _ =>
      let a := constr:(default (threads_of Scenario.app_two_frames)
                         (run_moves (subclass := Scenario.numbering)
                            [worker_advances; worker_advances]
                            (threads_of Scenario.app_two_frames))) in
      destruct (Stop_leaves_backlog (subclass := Scenario.numbering) a b)
        as (n & f' & Hrun & Hat & _ & Hq)
  end.
  - vm_compute. reflexivity.
  - vm_compute. discriminate.
  - intros _. vm_compute. reflexivity.
  - exists n, f'. split; [exact Hrun |]. split; [exact Hat |].
    injection Hq as Hv _ _. rewrite Hv. reflexivity.
Defined.
